(** * mwcp.reporter: metadata intake, derivation cascade, output files, report text

    A shallow embedding of [src/mwcp/reporter.py].  Python values are an
    inductive type, the [Reporter] object is a record threaded through a
    state-and-exception monad, dictionaries are insertion-ordered
    association lists, and the standard-library helpers the module calls
    ([hashlib.md5], [base64.b64encode], [ntpath], [re]) are modelled next to
    it. *)

From Stdlib Require Import String Ascii List ZArith Bool Arith Lia.
From Stdlib Require Import Permutation.
Import ListNotations.
Open Scope list_scope.
Open Scope string_scope.

(** ** Python strings *)

Module Str.

Definition chars (s : string) : list ascii := list_ascii_of_string s.
Definition of_chars (l : list ascii) : string := string_of_list_ascii l.

Definition nl : string := String (ascii_of_nat 10) "".

(** [sep.join(l)] *)
Fixpoint join (sep : string) (l : list string) : string :=
  match l with
  | [] => ""
  | [x] => x
  | x :: rest => x ++ sep ++ join sep rest
  end.

(** [s[:n]] *)
Definition take (n : nat) (s : string) : string := substring 0 n s.

(** [s[n:]] *)
Definition drop (n : nat) (s : string) : string := substring n (String.length s - n) s.

(** [s.find(sub)], [None] for -1 *)
Definition find (sub s : string) : option nat := index 0 sub s.

(** [sub in s] *)
Definition contains (sub s : string) : bool :=
  match find sub s with Some _ => true | None => false end.

(** [s.startswith(p)] *)
Definition startswith (p s : string) : bool := prefix p s.

Definition mem_ascii (c : ascii) (cs : string) : bool :=
  existsb (Ascii.eqb c) (chars cs).

Fixpoint lstrip_chars (cs : string) (l : list ascii) : list ascii :=
  match l with
  | c :: l' => if mem_ascii c cs then lstrip_chars cs l' else l
  | [] => []
  end.

(** [s.rstrip(cs)] *)
Definition rstrip (cs : string) (s : string) : string :=
  of_chars (rev (lstrip_chars cs (rev (chars s)))).

(** [s.partition(sep)]: the text before the first [sep], whether it was
    found, and the text after it. *)
Definition partition (sep s : string) : string * bool * string :=
  match find sep s with
  | Some i => (take i s, true, drop (i + String.length sep) s)
  | None => (s, false, "")
  end.

(** [s.ljust(n)], which is what the format field [{:20}] does to a string *)
Fixpoint spaces (n : nat) : string :=
  match n with O => "" | S k => String " " (spaces k) end.

Definition ljust (n : nat) (s : string) : string := s ++ spaces (n - String.length s).

Definition digit (n : nat) : ascii := ascii_of_nat (48 + n).

Fixpoint of_nat_aux (fuel n : nat) (acc : string) : string :=
  match fuel with
  | O => acc
  | S f =>
    let acc' := String (digit (n mod 10)) acc in
    if (n / 10 =? 0)%nat then acc' else of_nat_aux f (n / 10) acc'
  end.

(** [str(n)] for a natural number *)
Definition of_nat (n : nat) : string := of_nat_aux (S n) n "".

Definition of_Z (z : Z) : string :=
  if (z <? 0)%Z then "-" ++ of_nat (Z.abs_nat z) else of_nat (Z.abs_nat z).

Definition is_digit (c : ascii) : bool :=
  let n := nat_of_ascii c in ((48 <=? n) && (n <=? 57))%nat.

(** [c.isspace()] for a character below 256 *)
Definition is_space (c : ascii) : bool :=
  let n := nat_of_ascii c in
  ((n =? 32) || ((9 <=? n) && (n <=? 13)) || ((28 <=? n) && (n <=? 31))
   || (n =? 133) || (n =? 160))%nat.

Fixpoint drop_while (p : ascii -> bool) (l : list ascii) : list ascii :=
  match l with
  | c :: l' => if p c then drop_while p l' else l
  | [] => []
  end.

(** [s.strip()] *)
Definition strip (s : string) : string :=
  of_chars (rev (drop_while is_space (rev (drop_while is_space (chars s))))).

Definition to_nat_digits (l : list ascii) : nat :=
  fold_left (fun acc c => 10 * acc + (nat_of_ascii c - 48)) l 0.

(** the digits of an integer literal: one digit or more, with single
    underscores between digits; [after_digit] tells whether the character
    before [l] is a digit *)
Fixpoint grouped (after_digit : bool) (l : list ascii) : bool :=
  match l with
  | [] => after_digit
  | c :: rest =>
    if is_digit c then grouped true rest
    else if Ascii.eqb c "_" then after_digit && grouped false rest
    else false
  end.

End Str.

(** ** [hashlib.md5(data).hexdigest()]

    The digest of RFC 1321 over the bytes of [data], as 32 lower-case
    hexadecimal characters. *)

Module Hashlib.

Local Open Scope Z_scope.

Definition mask32 : Z := 0xffffffff.
Definition add32 (a b : Z) : Z := Z.land (a + b) mask32.
Definition not32 (a : Z) : Z := Z.lxor a mask32.
Definition rotl32 (x c : Z) : Z :=
  Z.lor (Z.land (Z.shiftl x c) mask32) (Z.shiftr x (32 - c)).

Definition K : list Z :=
  [ 0xd76aa478; 0xe8c7b756; 0x242070db; 0xc1bdceee;
    0xf57c0faf; 0x4787c62a; 0xa8304613; 0xfd469501;
    0x698098d8; 0x8b44f7af; 0xffff5bb1; 0x895cd7be;
    0x6b901122; 0xfd987193; 0xa679438e; 0x49b40821;
    0xf61e2562; 0xc040b340; 0x265e5a51; 0xe9b6c7aa;
    0xd62f105d; 0x02441453; 0xd8a1e681; 0xe7d3fbc8;
    0x21e1cde6; 0xc33707d6; 0xf4d50d87; 0x455a14ed;
    0xa9e3e905; 0xfcefa3f8; 0x676f02d9; 0x8d2a4c8a;
    0xfffa3942; 0x8771f681; 0x6d9d6122; 0xfde5380c;
    0xa4beea44; 0x4bdecfa9; 0xf6bb4b60; 0xbebfbc70;
    0x289b7ec6; 0xeaa127fa; 0xd4ef3085; 0x04881d05;
    0xd9d4d039; 0xe6db99e5; 0x1fa27cf8; 0xc4ac5665;
    0xf4292244; 0x432aff97; 0xab9423a7; 0xfc93a039;
    0x655b59c3; 0x8f0ccc92; 0xffeff47d; 0x85845dd1;
    0x6fa87e4f; 0xfe2ce6e0; 0xa3014314; 0x4e0811a1;
    0xf7537e82; 0xbd3af235; 0x2ad7d2bb; 0xeb86d391 ].

Definition shifts : list Z :=
  [ 7; 12; 17; 22; 7; 12; 17; 22; 7; 12; 17; 22; 7; 12; 17; 22;
    5; 9; 14; 20; 5; 9; 14; 20; 5; 9; 14; 20; 5; 9; 14; 20;
    4; 11; 16; 23; 4; 11; 16; 23; 4; 11; 16; 23; 4; 11; 16; 23;
    6; 10; 15; 21; 6; 10; 15; 21; 6; 10; 15; 21; 6; 10; 15; 21 ].

Definition bytes_of (s : string) : list Z :=
  map (fun c => Z.of_nat (nat_of_ascii c)) (list_ascii_of_string s).

(** [n] as [k] little-endian bytes *)
Fixpoint le_bytes (k : nat) (n : Z) : list Z :=
  match k with
  | O => []
  | S k' => Z.land n 255 :: le_bytes k' (Z.shiftr n 8)
  end.

Definition pad (msg : list Z) : list Z :=
  let len := Z.of_nat (List.length msg) in
  let zeros := Z.to_nat ((55 - len) mod 64) in
  (msg ++ [128] ++ repeat 0 zeros ++ le_bytes 8 (Z.land (8 * len) 0xffffffffffffffff))%list.

Fixpoint le_words (fuel : nat) (l : list Z) : list Z :=
  match fuel, l with
  | S f, b0 :: b1 :: b2 :: b3 :: rest =>
    (b0 + Z.shiftl b1 8 + Z.shiftl b2 16 + Z.shiftl b3 24) :: le_words f rest
  | _, _ => []
  end.

Definition state : Type := (Z * Z * Z * Z)%type.

Definition round (M : list Z) (st : state) (i : nat) : state :=
  let '(A, B, C, D) := st in
  let iz := Z.of_nat i in
  let '(F, g) :=
    if iz <? 16 then (Z.lor (Z.land B C) (Z.land (not32 B) D), iz)
    else if iz <? 32 then (Z.lor (Z.land D B) (Z.land (not32 D) C), (5 * iz + 1) mod 16)
    else if iz <? 48 then (Z.lxor (Z.lxor B C) D, (3 * iz + 5) mod 16)
    else (Z.lxor C (Z.lor B (not32 D)), (7 * iz) mod 16) in
  let F' := add32 (add32 (add32 F A) (nth i K 0)) (nth (Z.to_nat g) M 0) in
  (D, add32 B (rotl32 F' (nth i shifts 0)), B, C).

Definition block (st : state) (M : list Z) : state :=
  let '(a0, b0, c0, d0) := st in
  let '(A, B, C, D) := fold_left (round M) (seq 0 64) st in
  (add32 a0 A, add32 b0 B, add32 c0 C, add32 d0 D).

Fixpoint blocks (fuel : nat) (words : list Z) (st : state) : state :=
  match fuel, words with
  | S f, _ :: _ => blocks f (skipn 16 words) (block st (firstn 16 words))
  | _, _ => st
  end.

Definition init : state := (0x67452301, 0xefcdab89, 0x98badcfe, 0x10325476).

Definition digest (s : string) : list Z :=
  let bytes := pad (bytes_of s) in
  let words := le_words (List.length bytes) bytes in
  let '(a, b, c, d) := blocks (List.length words) words init in
  (le_bytes 4 a ++ le_bytes 4 b ++ le_bytes 4 c ++ le_bytes 4 d)%list.

Definition hexdigit (n : Z) : ascii :=
  ascii_of_nat (Z.to_nat (if n <? 10 then 48 + n else 87 + n)).

Definition hex_byte (b : Z) : string :=
  String (hexdigit (Z.shiftr b 4)) (String (hexdigit (Z.land b 15)) "").

Definition md5 (data : string) : string :=
  String.concat "" (map hex_byte (digest data)).

End Hashlib.

(** ** [base64.b64encode] *)

Module Base64.

Definition alphabet : string :=
  "ABCDEFGHIJKLMNOPQRSTUVWXYZabcdefghijklmnopqrstuvwxyz0123456789+/".

Definition sextet (n : nat) : ascii :=
  match get n alphabet with Some c => c | None => "="%char end.

Fixpoint encode (fuel : nat) (l : list nat) : string :=
  match fuel, l with
  | S f, a :: b :: c :: rest =>
    String (sextet (a / 4))
      (String (sextet ((a mod 4) * 16 + b / 16))
         (String (sextet ((b mod 16) * 4 + c / 64))
            (String (sextet (c mod 64)) (encode f rest))))
  | S _, [a; b] =>
    String (sextet (a / 4))
      (String (sextet ((a mod 4) * 16 + b / 16))
         (String (sextet ((b mod 16) * 4)) "="))
  | S _, [a] =>
    String (sextet (a / 4)) (String (sextet ((a mod 4) * 16)) "==")
  | _, _ => ""
  end.

Definition b64encode (data : string) : string :=
  let l := map nat_of_ascii (list_ascii_of_string data) in
  encode (S (List.length l)) l.

End Base64.

(** ** [ntpath] and [os.path]

    [ntpath.split] as in CPython 2.7 to 3.10: the drive (a letter and a
    colon, or a UNC share) is set aside, the rest is cut after its last
    separator, and trailing separators are removed from the head unless the
    head consists of separators only.  [os.path] is the POSIX flavour. *)

Module Ntpath.

Definition is_sep (c : ascii) : bool :=
  Ascii.eqb c "\"%char || Ascii.eqb c "/"%char.

Definition norm (s : string) : string :=
  Str.of_chars (map (fun c => if Ascii.eqb c "/"%char then "\"%char else c) (Str.chars s)).

(** [normp.find(sep, start)] *)
Definition find_sep_from (start : nat) (normp : string) : option nat :=
  index start "\" normp.

Definition splitdrive (p : string) : string * string :=
  if (2 <=? String.length p)%nat then
    let normp := norm p in
    if (substring 0 2 normp =? "\\") && negb (substring 2 1 normp =? "\") then
      match find_sep_from 2 normp with
      | None => ("", p)
      | Some i =>
        match find_sep_from (i + 1) normp with
        | Some i2 =>
          if (i2 =? i + 1)%nat then ("", p) else (Str.take i2 p, Str.drop i2 p)
        | None => (p, "")
        end
      end
    else if substring 1 1 normp =? ":" then (Str.take 2 p, Str.drop 2 p)
    else ("", p)
  else ("", p).

(** the characters after the last separator, in reverse, and the
    characters up to and including it, in reverse *)
Fixpoint span_tail (rev_p : list ascii) (tail : list ascii) : list ascii * list ascii :=
  match rev_p with
  | c :: rest => if is_sep c then (rev_p, tail) else span_tail rest (c :: tail)
  | [] => ([], tail)
  end.

Definition split (p : string) : string * string :=
  let '(d, rest) := splitdrive p in
  let '(rev_head, tail) := span_tail (rev (Str.chars rest)) [] in
  let stripped := Str.drop_while is_sep rev_head in
  let head := match stripped with [] => rev_head | _ => stripped end in
  (d ++ Str.of_chars (rev head), Str.of_chars tail).

Definition basename (p : string) : string := snd (split p).
Definition dirname (p : string) : string := fst (split p).

End Ntpath.

Module Posixpath.

Fixpoint after_last_slash (l : list ascii) (acc : list ascii) : list ascii :=
  match l with
  | c :: rest =>
    if Ascii.eqb c "/"%char then after_last_slash rest [] else after_last_slash rest (acc ++ [c])%list
  | [] => acc
  end.

(** [os.path.basename(p)] *)
Definition basename (p : string) : string :=
  Str.of_chars (after_last_slash (Str.chars p) []).

Definition endswith_slash (s : string) : bool :=
  match rev (Str.chars s) with
  | c :: _ => Ascii.eqb c "/"%char
  | [] => false
  end.

(** [os.path.join(a, b)] *)
Definition join (a b : string) : string :=
  if Str.startswith "/" b then b
  else if (a =? "") || endswith_slash a then a ++ b
  else a ++ "/" ++ b.

End Posixpath.

(** ** [re]: the fragment of regular expressions the module uses

    A backtracking matcher with Python's semantics for the constructs that
    occur in [URL_RE], [PORT_RE] and [SHA1_RE]: literals, greedy bounded
    repetition of a character class, concatenation, greedy option and named
    groups.  [search] tries every start position from the left, [rmatch]
    only the first. *)

Module Re.

Inductive re : Type :=
| Lit (s : string)
| Rep (p : ascii -> bool) (lo : nat) (hi : option nat)
| Cat (a b : re)
| Opt (a : re)
| Group (name : string) (a : re).

Definition captures : Type := list (string * string).

Fixpoint strip_prefix (p s : list ascii) : option (list ascii) :=
  match p, s with
  | [], _ => Some s
  | c :: p', d :: s' => if Ascii.eqb c d then strip_prefix p' s' else None
  | _ :: _, [] => None
  end.

Section Run.
Context {R : Type}.

(** greedy repetition: take one more character while allowed, fall
    back to stopping here when the rest fails *)
Fixpoint rep (p : ascii -> bool) (lo : nat) (hi : option nat) (n : nat)
         (s : list ascii) (k : list ascii -> option R) : option R :=
  let stop := if (lo <=? n)%nat then k s else None in
  match s with
  | c :: s' =>
    if p c && match hi with Some h => (n <? h)%nat | None => true end
    then match rep p lo hi (S n) s' k with
         | Some r => Some r
         | None => stop
         end
    else stop
  | [] => stop
  end.

Fixpoint run (r : re) (s : list ascii) (caps : captures)
         (k : list ascii -> captures -> option R) : option R :=
  match r with
  | Lit l =>
    match strip_prefix (Str.chars l) s with
    | Some s' => k s' caps
    | None => None
    end
  | Rep p lo hi => rep p lo hi 0 s (fun s' => k s' caps)
  | Cat a b => run a s caps (fun s' caps' => run b s' caps' k)
  | Opt a =>
    match run a s caps k with
    | Some x => Some x
    | None => k s caps
    end
  | Group name a =>
    run a s caps (fun s' caps' =>
      let text := firstn (List.length s - List.length s') s in
      k s' ((name, Str.of_chars text) :: caps'))
  end.
End Run.

(** a match object: the named groups that took part *)
Definition rmatch (r : re) (s : string) : option captures :=
  run r (Str.chars s) [] (fun _ caps => Some caps).

Fixpoint search_from (r : re) (s : list ascii) : option captures :=
  match run r s [] (fun _ caps => Some caps) with
  | Some caps => Some caps
  | None =>
    match s with
    | _ :: s' => search_from r s'
    | [] => None
    end
  end.

Definition search (r : re) (s : string) : option captures :=
  search_from r (Str.chars s).

(** [match.group(name)]: [None] when the group did not take part *)
Fixpoint group (name : string) (caps : captures) : option string :=
  match caps with
  | (n, text) :: rest => if n =? name then Some text else group name rest
  | [] => None
  end.

Definition in_range (lo hi : ascii) (c : ascii) : bool :=
  ((nat_of_ascii lo <=? nat_of_ascii c) && (nat_of_ascii c <=? nat_of_ascii hi))%nat.

Definition is_not (x : ascii) (c : ascii) : bool := negb (Ascii.eqb c x).

End Re.

(** ** Python values

    What a parser can hand to the reporter and what the metadata store
    holds: [None], text (both [str] and [bytes], which
    [convert_to_unicode] identifies), integers as the representative of
    non-string scalars, sequences (lists and tuples) and dictionaries with
    string keys, in insertion order. *)

#[warnings="-register-all"]
Inductive value : Type :=
| VNone
| VStr (s : string)
| VInt (n : Z)
| VList (l : list value)
| VDict (d : list (string * value)).

(** [a == b].  Every comparison in the module has a string or a list of
    strings on one side, for which the structural comparison is Python's. *)
Fixpoint value_eqb (a b : value) {struct a} : bool :=
  match a, b with
  | VNone, VNone => true
  | VStr s, VStr t => String.eqb s t
  | VInt n, VInt m => Z.eqb n m
  | VList l, VList m =>
    (fix go (l m : list value) {struct l} : bool :=
       match l, m with
       | [], [] => true
       | x :: l', y :: m' => value_eqb x y && go l' m'
       | _, _ => false
       end) l m
  | VDict d, VDict e =>
    (fix go (d e : list (string * value)) {struct d} : bool :=
       match d, e with
       | [], [] => true
       | (k, x) :: d', (j, y) :: e' => String.eqb k j && value_eqb x y && go d' e'
       | _, _ => false
       end) d e
  | _, _ => false
  end.

(** [bool(v)] *)
Definition truthy (v : value) : bool :=
  match v with
  | VNone => false
  | VStr s => negb (s =? "")
  | VInt n => negb (n =? 0)%Z
  | VList l => match l with [] => false | _ => true end
  | VDict d => match d with [] => false | _ => true end
  end.

(** [list(iter(v))]: the characters of a string, the items of a sequence,
    the keys of a dictionary; [None] when [v] is not iterable. *)
Definition iterate (v : value) : option (list value) :=
  match v with
  | VStr s => Some (map (fun c => VStr (String c "")) (Str.chars s))
  | VList l => Some l
  | VDict d => Some (map (fun kv => VStr (fst kv)) d)
  | VNone | VInt _ => None
  end.

(** [len(v)] on a sequence *)
Definition vlen (l : list value) : Z := Z.of_nat (List.length l).

Definition type_name (v : value) : string :=
  match v with
  | VNone => "NoneType"
  | VStr _ => "str"
  | VInt _ => "int"
  | VList _ => "list"
  | VDict _ => "dict"
  end.

(** [repr(s)] of a string whose characters are below 256: in single
    quotes, or in double quotes when the string has a single quote and no
    double quote; the quote in use and the backslash are escaped, and the
    characters that are not printable are written [\t], [\n], [\r] or
    [\xNN]. *)
Definition repr_char (quote c : ascii) : string :=
  let n := nat_of_ascii c in
  if Ascii.eqb c quote || Ascii.eqb c "\" then String "\" (String c "")
  else if (n =? 9)%nat then "\t"
  else if (n =? 10)%nat then "\n"
  else if (n =? 13)%nat then "\r"
  else if ((n <? 32) || (n =? 127) || ((128 <=? n) && (n <=? 160)) || (n =? 173))%nat
  then "\x" ++ Hashlib.hex_byte (Z.of_nat n)
  else String c "".

Definition repr_str (s : string) : string :=
  let double := ascii_of_nat 34 in
  let quote :=
    if Str.mem_ascii "'" s && negb (Str.mem_ascii double s) then double else "'"%char in
  String quote (String.concat "" (map (repr_char quote) (Str.chars s)) ++ String quote "").

(** [str(v)]; inside a container Python shows [repr] of the items *)
Fixpoint py_repr (v : value) : string :=
  match v with
  | VNone => "None"
  | VStr s => repr_str s
  | VInt n => Str.of_Z n
  | VList l => "[" ++ Str.join ", " (map py_repr l) ++ "]"
  | VDict d =>
    "{" ++ Str.join ", " (map (fun kv => repr_str (fst kv) ++ ": " ++ py_repr (snd kv)) d) ++ "}"
  end.

Definition py_str (v : value) : string :=
  match v with
  | VStr s => s
  | _ => py_repr v
  end.

(** ** Dictionaries in insertion order *)

Module Dict.
Section Defs.
Context {A : Type}.

Definition t : Type := list (string * A).

Fixpoint get (k : string) (d : t) : option A :=
  match d with
  | (k', a) :: rest => if k =? k' then Some a else get k rest
  | [] => None
  end.

Definition mem (k : string) (d : t) : bool :=
  match get k d with Some _ => true | None => false end.

(** [d[k] = a]: in place when the key exists, at the end otherwise *)
Fixpoint set (k : string) (a : A) (d : t) : t :=
  match d with
  | (k', a') :: rest =>
    if k =? k' then (k', a) :: rest else (k', a') :: set k a rest
  | [] => [(k, a)]
  end.

Definition keys (d : t) : list string := map fst d.
End Defs.
Arguments t : clear implicits.
End Dict.

(** ** The reporter object *)

Inductive exn : Type :=
| KeyError (msg : string)
| TypeError (msg : string)
| AttributeError (msg : string)
| IndexError (msg : string)
| ValueError (msg : string)
| OSError (msg : string)
| AssertionError.

Definition exn_text (e : exn) : string :=
  match e with
  | KeyError m => "KeyError: " ++ repr_str m
  | TypeError m => "TypeError: " ++ m
  | AttributeError m => "AttributeError: " ++ m
  | IndexError m => "IndexError: " ++ m
  | ValueError m => "ValueError: " ++ m
  | OSError m => "OSError: " ++ m
  | AssertionError => "AssertionError"
  end.

(** [str(e)] *)
Definition exn_str (e : exn) : string :=
  match e with
  | KeyError m => repr_str m
  | TypeError m | AttributeError m | IndexError m | ValueError m | OSError m => m
  | AssertionError => ""
  end.

(** An entry of [self.outputfiles]; [of_path] is the optional ['path'] key. *)
Record OutputFile : Type := mkOutputFile {
  of_data : string;
  of_description : string;
  of_md5 : string;
  of_path : option string
}.

(** The attributes of a [Reporter] and the part of its environment that the
    module reads or writes: [fields] maps a field name to the ['type'] of
    its entry in fields.json; [input_file] is the md5 of [self.input_file]
    when there is one; [log_handler] tells whether the [ReporterLogHandler]
    of this reporter is attached to the root logger, [log_level] is the
    effective level of the module's logger and [logged] the calls made on
    it; [disk] holds the files written and [read_only] the paths that
    cannot be opened for writing. *)
Record Reporter : Type := mkReporter {
  fields : Dict.t string;
  metadata : Dict.t value;
  outputfiles : Dict.t OutputFile;
  errors : list string;
  input_file : option string;
  output_dir : string;
  output_file_prefix : string;
  disable_output_files : bool;
  base64_output_files : bool;
  log_handler : bool;
  log_level : Z;
  logged : list (Z * string);
  disk : Dict.t string;
  read_only : list string
}.

Definition set_metadata (m : Dict.t value) (r : Reporter) : Reporter :=
  mkReporter (fields r) m (outputfiles r) (errors r) (input_file r) (output_dir r)
    (output_file_prefix r) (disable_output_files r) (base64_output_files r)
    (log_handler r) (log_level r) (logged r) (disk r) (read_only r).

Definition set_outputfiles (o : Dict.t OutputFile) (r : Reporter) : Reporter :=
  mkReporter (fields r) (metadata r) o (errors r) (input_file r) (output_dir r)
    (output_file_prefix r) (disable_output_files r) (base64_output_files r)
    (log_handler r) (log_level r) (logged r) (disk r) (read_only r).

Definition set_errors (e : list string) (r : Reporter) : Reporter :=
  mkReporter (fields r) (metadata r) (outputfiles r) e (input_file r) (output_dir r)
    (output_file_prefix r) (disable_output_files r) (base64_output_files r)
    (log_handler r) (log_level r) (logged r) (disk r) (read_only r).

Definition set_logged (l : list (Z * string)) (r : Reporter) : Reporter :=
  mkReporter (fields r) (metadata r) (outputfiles r) (errors r) (input_file r) (output_dir r)
    (output_file_prefix r) (disable_output_files r) (base64_output_files r)
    (log_handler r) (log_level r) l (disk r) (read_only r).

Definition set_disk (d : Dict.t string) (r : Reporter) : Reporter :=
  mkReporter (fields r) (metadata r) (outputfiles r) (errors r) (input_file r) (output_dir r)
    (output_file_prefix r) (disable_output_files r) (base64_output_files r)
    (log_handler r) (log_level r) (logged r) d (read_only r).

(** ** Computations on the reporter: state, exceptions, fuel *)

Inductive outcome (A : Type) : Type :=
| Ret (a : A) (st : Reporter)
| Raise (e : exn) (st : Reporter)
| OutOfFuel.

Arguments Ret {A} a st.
Arguments Raise {A} e st.
Arguments OutOfFuel {A}.

Definition M (A : Type) : Type := Reporter -> outcome A.

Definition ret {A : Type} (a : A) : M A := fun st => Ret a st.

Definition bind {A B : Type} (m : M A) (f : A -> M B) : M B :=
  fun st =>
    match m st with
    | Ret a st' => f a st'
    | Raise e st' => Raise e st'
    | OutOfFuel => OutOfFuel
    end.

Definition raise {A : Type} (e : exn) : M A := fun st => Raise e st.

(** [try: m except Exception as e: h e]; what [m] did to the reporter
    before it raised stays done. *)
Definition try_except {A : Type} (m : M A) (h : exn -> M A) : M A :=
  fun st =>
    match m st with
    | Raise e st' => h e st'
    | r => r
    end.

Definition gets {A : Type} (f : Reporter -> A) : M A := fun st => Ret (f st) st.
Definition modify (f : Reporter -> Reporter) : M unit := fun st => Ret tt (f st).

Definition when (b : bool) (m : M unit) : M unit := if b then m else ret tt.

Declare Scope py_scope.
Delimit Scope py_scope with py.
Notation "x <- m ;; k" := (bind m (fun x => k))
  (at level 100, m at next level, right associativity) : py_scope.
Notation "m ;; k" := (bind m (fun _ => k))
  (at level 100, right associativity) : py_scope.
Open Scope py_scope.

(** [for x in l: f x] *)
Fixpoint for_each {A : Type} (l : list A) (f : A -> M unit) : M unit :=
  match l with
  | [] => ret tt
  | x :: rest => f x ;; for_each rest f
  end.

(** the state an outcome ends in *)
Definition final {A : Type} (o : outcome A) : option Reporter :=
  match o with
  | Ret _ st | Raise _ st => Some st
  | OutOfFuel => None
  end.

(** ** Primitive operations on Python objects held by the reporter *)

Definition INFO : Z := 20.
Definition WARNING : Z := 30.
Definition ERROR : Z := 40.

(** [for _ in v], raising when [v] is not iterable *)
Definition iter (v : value) : M (list value) :=
  match iterate v with
  | Some l => ret l
  | None => raise (TypeError ("'" ++ type_name v ++ "' object is not iterable"))
  end.

(** [v in obj] *)
Definition py_in (v obj : value) : M bool :=
  match obj with
  | VList l => ret (existsb (value_eqb v) l)
  | VDict d =>
    match v with
    | VStr s => ret (Dict.mem s d)
    | VList _ | VDict _ => raise (TypeError ("unhashable type: '" ++ type_name v ++ "'"))
    | VNone | VInt _ => ret false
    end
  | VStr t =>
    match v with
    | VStr s => ret (Str.contains s t)
    | _ => raise (TypeError "'in <string>' requires string as left operand")
    end
  | VNone | VInt _ =>
    raise (TypeError ("argument of type '" ++ type_name obj ++ "' is not iterable"))
  end.

(** [obj = self.metadata.setdefault(key, default)] *)
Definition setdefault (key : string) (default : value) : M value :=
  fun st =>
    match Dict.get key (metadata st) with
    | Some obj => Ret obj st
    | None => Ret default (set_metadata (Dict.set key default (metadata st)) st)
    end.

(** [obj.append(v)] where [obj] is the object stored under [key] *)
Definition append_to (key : string) (obj v : value) : M unit :=
  match obj with
  | VList l => modify (fun st => set_metadata (Dict.set key (VList (l ++ [v])%list) (metadata st)) st)
  | _ => raise (AttributeError ("'" ++ type_name obj ++ "' object has no attribute 'append'"))
  end.

(** [obj = self.metadata.setdefault(key, []); if always or v not in obj:
    obj.append(v)] *)
Definition append_unique (key : string) (v : value) (always : bool) : M unit :=
  obj <- setdefault key (VList []) ;;
  wanted <- (if always then ret true
             else present <- py_in v obj ;; ret (negb present)) ;;
  when wanted (append_to key obj v).

(** [values[i]] *)
Definition item (i : nat) (values : list string) : M string :=
  match nth_error values i with
  | Some x => ret x
  | None => raise (IndexError "list index out of range")
  end.

(** [int(s)]: white space around, an optional sign, then decimal digits
    with single underscores allowed between digits *)
Definition py_int (s : string) : M Z :=
  let body := Str.chars (Str.strip s) in
  let '(neg, digits) :=
    match body with
    | "-"%char :: rest => (true, rest)
    | "+"%char :: rest => (false, rest)
    | _ => (false, body)
    end in
  if Str.grouped false digits
  then ret (let n := Z.of_nat (Str.to_nat_digits (filter Str.is_digit digits)) in
            if neg then (- n)%Z else n)
  else raise (ValueError ("invalid literal for int() with base 10: " ++ repr_str s)).

Definition strs (l : list string) : value := VList (map VStr l).

(** ** The patterns of the class *)

(** [[a-z\.-]{1,40}://(?P<address>\[?[^/]+\]?)(?P<path>/[^?]+)?] *)
Definition URL_RE : Re.re :=
  Re.Cat (Re.Rep (fun c => Re.in_range "a" "z" c || Ascii.eqb c "." || Ascii.eqb c "-")
                 1 (Some 40))
    (Re.Cat (Re.Lit "://")
       (Re.Cat
          (Re.Group "address"
             (Re.Cat (Re.Opt (Re.Lit "["))
                (Re.Cat (Re.Rep (Re.is_not "/") 1 None) (Re.Opt (Re.Lit "]")))))
          (Re.Opt (Re.Group "path" (Re.Cat (Re.Lit "/") (Re.Rep (Re.is_not "?") 1 None)))))).

(** [[0-9]{1,5}] *)
Definition PORT_RE : Re.re := Re.Rep (Re.in_range "0" "9") 1 (Some 5).

(** [[0-9a-fA-F]{40}] *)
Definition SHA1_RE : Re.re :=
  Re.Rep (fun c => Re.in_range "0" "9" c || Re.in_range "a" "f" c || Re.in_range "A" "F" c)
         40 (Some 40).

(** ** Intake: [add_metadata] and the three mergers *)

Section Intake.

(** Two helpers of the package live outside this module:
    [mwcp.utils.stringutils.convert_to_unicode], which returns the text of
    a string ([None] here when it raises), and the character that
    [mwcp.utils.logutil.LevelCharFilter] attaches to a log record of a
    given level. *)
Variable convert_to_unicode : value -> option string.
Variable level_char : Z -> string.

Definition convert (v : value) : M string :=
  match convert_to_unicode v with
  | Some s => ret s
  | None => raise (TypeError ("cannot convert '" ++ type_name v ++ "' object to unicode"))
  end.

Fixpoint convert_all (l : list value) : M (list string) :=
  match l with
  | [] => ret []
  | v :: rest => s <- convert v ;; ss <- convert_all rest ;; ret (s :: ss)
  end.

(** *** Logging

    [Formatter("[%(level_char)s] %(message)s")], followed by the
    traceback when the record carries an exception (its stack frames are
    left out). *)
Definition format_record (level : Z) (message : string) (exc : option exn) : string :=
  "[" ++ level_char level ++ "] " ++ message ++
  match exc with
  | Some e => Str.nl ++ "Traceback (most recent call last):" ++ Str.nl ++ exn_text e
  | None => ""
  end.

(** the recursive reference to [add_metadata] *)
Definition intake : Type := string -> value -> M unit.

(** [ReporterLogHandler.emit] *)
Definition emit (self : intake) (level : Z) (message : string) : M unit :=
  if (WARNING <? level)%Z then
    modify (fun st => set_errors (errors st ++ [message])%list st)
  else if ((INFO <=? level) && (level <=? WARNING))%Z then
    self "debug" (VStr message)
  else ret tt.

(** a call on the module's logger: the record reaches the handler of the
    reporter when that handler is attached and the level is enabled *)
Definition log_record (self : intake) (level : Z) (message : string) (exc : option exn)
  : M unit :=
  modify (fun st => set_logged (logged st ++ [(level, message)])%list st) ;;
  attached <- gets log_handler ;;
  threshold <- gets log_level ;;
  when (attached && (threshold <=? level)%Z)
       (emit self level (format_record level message exc)).

Definition log_info (self : intake) (m : string) : M unit := log_record self INFO m None.
Definition log_warn (self : intake) (m : string) : M unit := log_record self WARNING m None.
Definition log_error (self : intake) (m : string) : M unit := log_record self ERROR m None.
Definition log_exception (self : intake) (m : string) (e : exn) : M unit :=
  log_record self ERROR m (Some e).

(** *** [_add_metatadata_listofstrings] *)

(** the block under [if key in ("url", "c2_url")] *)
Definition derive_url (self : intake) (key value : string) : M unit :=
  match Re.search URL_RE value with
  | None => log_error self ("Error parsing as url: " ++ value)
  | Some m =>
    when (match Re.group "path" m with Some p => negb (p =? "") | None => false end)
         (self "urlpath" (VStr (match Re.group "path" m with Some p => p | None => "" end))) ;;
    match Re.group "address" m with
    | None => ret tt
    | Some a =>
      when (negb (a =? ""))
        (let address := Str.rstrip ": " a in
         let '(domain, found, port) :=
           if Str.startswith "[" address
           then Str.partition "]:" (Str.drop 1 address)
           else Str.partition ":" address in
         if found then
           if negb (port =? "") then
             if key =? "c2_url"
             then self "c2_socketaddress" (strs [domain; port; "tcp"])
             else self "socketaddress" (strs [domain; port; "tcp"])
           else
             log_error self ("Invalid URL " ++ repr_str address
                             ++ " found ':' at end without a port.")
         else
           if key =? "c2_url"
           then self "c2_address" (VStr address)
           else self "address" (VStr address))
    end
  end.

(** the cascade of the function, from [if key == "filepath"] to its end *)
Definition derive_listofstrings (self : intake) (key value : string) : M unit :=
  when (key =? "filepath")
       (self "filename" (VStr (Ntpath.basename value)) ;;
        self "directory" (VStr (Ntpath.dirname value))) ;;

  when (key =? "c2_url") (self "url" (VStr value)) ;;

  when ((key =? "c2_address") || (key =? "proxy_address"))
       (self "address" (VStr value)) ;;

  when (key =? "serviceimage")
       (match Str.find ".exe" value with
        | Some i => self "filepath" (VStr (Str.take (i + 4) value))
        | None => ret tt
        end) ;;

  when (key =? "servicedll") (self "filepath" (VStr value)) ;;

  when (key =? "ssl_cer_sha1")
       (match Re.rmatch SHA1_RE value with
        | Some _ => ret tt
        | None => log_error self ("Invalid SHA1 hash found: " ++ repr_str value)
        end) ;;

  when ((key =? "url") || (key =? "c2_url")) (derive_url self key value).

Definition _add_metatadata_listofstrings (self : intake) (key : string) (value : value)
  : M unit :=
  if negb (truthy value) then
    log_info self ("no values provided for " ++ key ++ ", skipping")
  else
    value <- convert value ;;
    append_unique key (VStr value) (key =? "debug") ;;
    derive_listofstrings self key value.

(** *** [_add_metadata_listofstringtuples] *)

Definition expected_size (key : string) : option nat :=
  if key =? "proxy" then Some 5
  else if key =? "rsa_private_key" then Some 8
  else None.

Definition subfield_map (key : string) : option (list string) :=
  if key =? "registrypathdata" then Some ["registrypath"; "registrydata"]
  else if key =? "service" then
    Some ["servicename"; "servicedisplayname"; "servicedescription";
          "serviceimage"; "servicedll"]
  else if key =? "credential" then Some ["username"; "password"]
  else None.

Definition len_str (l : list string) : string := Str.of_nat (List.length l).

(** the block under [if key in ("port", "listenport")] *)
Definition check_port (self : intake) (key : string) (values : list string) : M unit :=
  when (negb (List.length values =? 2)%nat)
       (log_warn self ("Expected two values in type " ++ key ++ ", received "
                       ++ len_str values)) ;;
  v0 <- item 0 values ;;
  match Re.search PORT_RE v0 with
  | Some _ =>
    portnum <- py_int v0 ;;
    when ((portnum <? 0)%Z || (65535 <? portnum)%Z)
         (log_warn self "Expected port to be number between 0 and 65535")
  | None => log_warn self "Expected port to be number between 0 and 65535"
  end ;;
  when (2 <=? List.length values)%nat
       (v1 <- item 1 values ;;
        when (negb (existsb (String.eqb v1) ["tcp"; "udp"; "icmp"]))
             (log_warn self "Expected port type to be tcp or udp (or icmp)")).

(** the rest of the function, from [# Add subfield components] on *)
Definition derive_listofstringtuples (self : intake) (key : string) (values : list string)
  : M unit :=
  match subfield_map key with
  | Some subfields =>
    for_each (combine subfields values)
             (fun sv => when (negb (snd sv =? "")) (self (fst sv) (VStr (snd sv)))) ;;
    when (negb (List.length values =? List.length subfields)%nat)
         (log_warn self ("Expected " ++ len_str subfields ++ " values in type " ++ key
                         ++ ", received " ++ len_str values))
  | None => ret tt
  end ;;

  when (key =? "c2_socketaddress")
       (self "socketaddress" (strs values) ;;
        v0 <- item 0 values ;;
        self "c2_address" (VStr v0)) ;;

  when (key =? "proxy_socketaddress")
       (self "socketaddress" (strs values) ;;
        v0 <- item 0 values ;;
        self "proxy_address" (VStr v0)) ;;

  when (key =? "socketaddress")
       (when (negb (List.length values =? 3)%nat)
             (log_warn self ("Expected three values in type socketaddress, received "
                             ++ len_str values)) ;;
        v0 <- item 0 values ;;
        self "address" (VStr v0) ;;
        self "port" (strs (skipn 1 values))) ;;

  when ((key =? "port") || (key =? "listenport")) (check_port self key values) ;;

  when (key =? "proxy")
       (when (negb (List.length values =? 5)%nat)
             (log_warn self ("Expected 5 values in type " ++ key ++ ", received "
                             ++ len_str values)) ;;
        self "credential" (strs (firstn 2 values)) ;;
        if (List.length (skipn 2 values) =? 1)%nat
        then v2 <- item 2 values ;; self "proxy_address" (VStr v2)
        else self "proxy_socketaddress" (strs (skipn 2 values))) ;;

  when (key =? "ftp")
       (when (negb (List.length values =? 3)%nat)
             (log_warn self ("Expected 3 values in type " ++ key ++ ", received "
                             ++ len_str values)) ;;
        self "credential" (strs (firstn 2 values)) ;;
        when (3 <=? List.length values)%nat
             (v2 <- item 2 values ;; self "url" (VStr v2))) ;;

  when (key =? "rsa_public_key")
       (when (negb (List.length values =? 2)%nat)
             (log_warn self ("Expected 3 values in type " ++ key ++ ", received "
                             ++ len_str values))) ;;

  when (key =? "rsa_private_key")
       (when (negb (List.length values =? 8)%nat)
             (log_warn self ("Expected 8 values in type " ++ key ++ ", received "
                             ++ len_str values))).

(** [tuple(values) + ('',) * (expected_size[key] - len(values))] *)
Definition pad_values (key : string) (values : value) : M value :=
  match expected_size key with
  | Some n =>
    items <- iter values ;;
    ret (VList (items ++ repeat (VStr "") (n - List.length items))%list)
  | None => ret values
  end.

Definition _add_metadata_listofstringtuples (self : intake) (key : string) (values : value)
  : M unit :=
  values <- pad_values key values ;;
  items <- iter values ;;
  values <- convert_all items ;;
  append_unique key (strs values) false ;;
  derive_listofstringtuples self key values.

(** *** [_add_metadata_dictofstrings] *)

(** [obj[subkey] = v] where [obj] is the dictionary [d] stored under [key] *)
Definition store_subkey (key : string) (d : Dict.t value) (subkey : string) (v : value)
  : M unit :=
  modify (fun st => set_metadata (Dict.set key (VDict (Dict.set subkey v d)) (metadata st)) st).

(** the branch for a [subvalue] that is a string *)
Definition merge_entry (key subkey subvalue : string) : M unit :=
  subkey <- convert (VStr subkey) ;;
  subvalue <- convert (VStr subvalue) ;;
  obj <- setdefault key (VDict []) ;;
  match obj with
  | VDict d =>
    match Dict.get subkey d with
    | Some existing_value =>
      match existing_value with
      | VList l =>
        when (negb (existsb (value_eqb (VStr subvalue)) l))
             (store_subkey key d subkey (VList (l ++ [VStr subvalue])%list))
      | _ =>
        when (negb (value_eqb (VStr subvalue) existing_value))
             (store_subkey key d subkey (VList [existing_value; VStr subvalue]))
      end
    | None => store_subkey key d subkey (VStr subvalue)
    end
  | VList _ | VStr _ =>
    raise (TypeError ("'" ++ type_name obj ++ "' object cannot be indexed by a string"))
  | VNone | VInt _ =>
    raise (TypeError ("argument of type '" ++ type_name obj ++ "' is not iterable"))
  end.

(** [str(type(subvalue[subkey]))] *)
Definition type_of_subscript (subvalue : value) (subkey : string) : M string :=
  match subvalue with
  | VDict d =>
    match Dict.get subkey d with
    | Some x => ret ("<class '" ++ type_name x ++ "'>")
    | None => raise (KeyError subkey)
    end
  | VList _ => raise (TypeError "list indices must be integers or slices, not str")
  | VStr s => raise (TypeError "string indices must be integers")
  | VNone | VInt _ =>
    raise (TypeError ("'" ++ type_name subvalue ++ "' object is not subscriptable"))
  end.

Definition _add_metadata_dictofstrings (self : intake) (key : string) (value : value)
  : M unit :=
  match value with
  | VDict entries =>
    for_each entries (fun entry =>
      let '(subkey, subvalue) := entry in
      match subvalue with
      | VStr s => merge_entry key subkey s
      | _ =>
        t <- type_of_subscript subvalue subkey ;;
        log_warn self ("Could not add object of " ++ t
                       ++ " to metadata under other using key " ++ subkey)
      end)
  | _ => raise (AttributeError ("'" ++ type_name value ++ "' object has no attribute 'items'"))
  end.

(** *** [add_metadata] *)

(** [value is None or all(not _value for _value in value)] *)
Definition no_values (value : value) : M bool :=
  match value with
  | VNone => ret true
  | _ => items <- iter value ;; ret (forallb (fun v => negb (truthy v)) items)
  end.

Definition add_metadata_body (self : intake) (key : string) (value : value) : M unit :=
  keyu <- convert (VStr key) ;;
  skip <- no_values value ;;
  if skip then log_warn self ("no values provided for " ++ key ++ ", skipping")
  else
    known <- gets (fun st => Dict.get keyu (fields st)) ;;
    match known with
    | None => raise (KeyError ("Invalid field name: " ++ keyu))
    | Some fieldtype =>
      try_except
        (when (fieldtype =? "listofstrings")
              (_add_metatadata_listofstrings self keyu value) ;;
         when (fieldtype =? "listofstringtuples")
              (_add_metadata_listofstringtuples self keyu value) ;;
         when (fieldtype =? "dictofstrings")
              (_add_metadata_dictofstrings self keyu value))
        (fun e => log_exception self ("Error adding metadata for key: " ++ keyu) e)
    end.

(** [add_metadata] calls itself through the mergers and through the log
    handler; [fuel] bounds the depth of these calls. *)
Fixpoint add_metadata_rec (fuel : nat) : intake :=
  match fuel with
  | O => fun _ _ _ => OutOfFuel
  | S n => add_metadata_body (add_metadata_rec n)
  end.

(** The longest chain of nested calls has five links, for instance
    [ftp], [url], [socketaddress], [port] and the [debug] entry of a
    warning. *)
Definition cascade_depth : nat := 5.

Definition add_metadata : intake := add_metadata_rec cascade_depth.

End Intake.

(** ** Output files: [output_file] and [report_tempfile] *)

Section OutputFiles.

Variable convert_to_unicode : value -> option string.
Variable level_char : Z -> string.

Let self : intake := add_metadata convert_to_unicode level_char.

(** The [while filename in self.outputfiles] loop.  [Some name] is the
    name the loop ends with, [None] the [return] on a duplicate; [fuel]
    bounds the number of times the condition is evaluated. *)
Fixpoint rename_loop (fuel : nat) (orig_filename md5 filename : string) (num_char : nat)
  : M (option string) :=
  match fuel with
  | O => fun _ => OutOfFuel
  | S n =>
    files <- gets outputfiles ;;
    match Dict.get filename files with
    | None => ret (Some filename)
    | Some existing =>
      if md5 =? of_md5 existing then
        log_info level_char self ("Ignoring duplicate output file: " ++ filename) ;;
        ret None
      else if negb (num_char <=? 32)%nat then raise AssertionError
      else rename_loop n orig_filename md5
                       (orig_filename ++ "_" ++ Str.take num_char md5) (S num_char)
    end
  end.

(** [with open(fullpath, "wb") as f: f.write(data)] *)
Definition write_file (fullpath data : string) : M unit :=
  locked <- gets read_only ;;
  if existsb (String.eqb fullpath) locked
  then raise (OSError ("[Errno 13] Permission denied: " ++ repr_str fullpath))
  else modify (fun st => set_disk (Dict.set fullpath data (disk st)) st).

(** [self.outputfiles[filename]['path'] = fullpath] *)
Definition set_path (filename fullpath : string) : M unit :=
  files <- gets outputfiles ;;
  match Dict.get filename files with
  | Some r =>
    modify (set_outputfiles
              (Dict.set filename
                 (mkOutputFile (of_data r) (of_description r) (of_md5 r) (Some fullpath))
                 files))
  | None => raise (KeyError filename)
  end.

(** the function after its renaming loop, from [if orig_filename !=
    filename] on *)
Definition save_output (data orig_filename description md5 filename : string) : M value :=
when (negb (orig_filename =? filename))
     (log_info level_char self ("Renamed " ++ orig_filename ++ " to " ++ filename)) ;;
let basename := Posixpath.basename filename in
modify (fun st =>
          set_outputfiles
            (Dict.set filename (mkOutputFile data description md5 None) (outputfiles st))
            st) ;;
b64 <- gets base64_output_files ;;
(if b64
 then self "outputfile" (strs [basename; description; md5; Base64.b64encode data])
 else self "outputfile" (strs [basename; description; md5])) ;;
disabled <- gets disable_output_files ;;
if disabled then ret VNone
else
  prefix <- gets output_file_prefix ;;
  dir <- gets output_dir ;;
  fullpath <-
    (if negb (prefix =? "") then
       if prefix =? "md5" then
         input <- gets input_file ;;
         match input with
         | Some input_md5 => ret (Posixpath.join dir (input_md5 ++ "_" ++ basename))
         | None => raise (AttributeError "'NoneType' object has no attribute 'md5'")
         end
       else ret (Posixpath.join dir (prefix ++ "_" ++ basename))
     else ret (Posixpath.join dir basename)) ;;
  try_except
    (write_file fullpath data ;;
     log_info level_char self ("Output file: " ++ fullpath) ;;
     set_path filename fullpath)
    (fun e =>
       log_error level_char self
                 ("Failed to write output file: " ++ fullpath ++ ", " ++ exn_str e)) ;;
  ret VNone.

Definition output_file (data filename description : string) : M value :=
let md5 := Hashlib.md5 data in
let orig_filename := filename in
renamed <- rename_loop 32 orig_filename md5 filename 5 ;;
match renamed with
| None => ret VNone
| Some filename => save_output data orig_filename description md5 filename
end.

Definition report_tempfile (filename description : string) : M value :=
  files <- gets disk ;;
  match Dict.get filename files with
  | Some data => output_file data (Posixpath.basename filename) description
  | None =>
    log_info level_char self ("Could not output file because it could not be found: " ++ filename) ;;
    ret VNone
  end.

End OutputFiles.

(** ** Report text: [format_list], [get_printable_key_value], [get_output_text] *)

Definition res (A : Type) : Type := (exn + A)%type.

Notation "'let?' x ':=' m 'in' k" :=
  (match m with inl e => inl e | inr x => k end)
  (at level 10, x name, m at level 100, k at level 200) : py_scope.

Definition INFO_FIELD_ORDER : list string :=
  ["inputfilename"; "md5"; "sha1"; "sha256"; "compiletime"].

Definition STANDARD_FIELD_ORDER : list string :=
  ["c2_url"; "c2_socketaddress"; "c2_address";
   "proxy"; "proxy_credential"; "proxy_username"; "proxy_password";
   "proxy_socketaddress"; "proxy_address"; "proxyport";
   "url"; "urlpath";
   "socketaddress"; "address"; "port"; "listenport";
   "credential"; "username"; "password";
   "missionid"; "useragent"; "interval"; "version"; "mutex";
   "service"; "servicename"; "servicedisplayname"; "servicedescription";
   "serviceimage"; "servicedll"; "injectionprocess";
   "filepath"; "directory"; "filename";
   "registrykeyvalue"; "registrykey"; "registryvalue"; "key"].

(** [len(v)] *)
Definition py_len (v : value) : res nat :=
  match v with
  | VList l => inr (List.length l)
  | VStr s => inr (String.length s)
  | VDict d => inr (List.length d)
  | VNone | VInt _ => inl (TypeError ("object of type '" ++ type_name v ++ "' has no len()"))
  end.

(** [v[i]] for a constant index [i] *)
Definition py_index (v : value) (i : nat) : res value :=
  match v with
  | VList l =>
    match nth_error l i with
    | Some x => inr x
    | None => inl (IndexError "list index out of range")
    end
  | VStr s =>
    match String.get i s with
    | Some c => inr (VStr (String c ""))
    | None => inl (IndexError "string index out of range")
    end
  | VDict _ => inl (KeyError (Str.of_nat i))
  | VNone | VInt _ => inl (TypeError ("'" ++ type_name v ++ "' object is not subscriptable"))
  end.

(** the items of a sequence that [str.join] takes, [i] being the index of
    the first of them *)
Fixpoint all_strs_from (i : nat) (l : list value) : res (list string) :=
  match l with
  | [] => inr []
  | VStr s :: rest => let? ss := all_strs_from (S i) rest in inr (s :: ss)
  | v :: _ =>
    inl (TypeError ("sequence item " ++ Str.of_nat i ++ ": expected str instance, "
                    ++ type_name v ++ " found"))
  end.

Definition all_strs (l : list value) : res (list string) := all_strs_from 0 l.

(** [sep.join(v)] *)
Definition py_join (sep : string) (v : value) : res string :=
  match iterate v with
  | Some items => let? ss := all_strs items in inr (Str.join sep ss)
  | None => inl (TypeError "can only join an iterable")
  end.

(** [format(v, "20")], the field [{:20}] *)
Definition fmt20 (v : value) : res string :=
  match v with
  | VStr s => inr (Str.ljust 20 s)
  | VInt n => let s := Str.of_Z n in inr (Str.spaces (20 - String.length s) ++ s)
  | _ => inl (TypeError ("unsupported format string passed to " ++ type_name v ++ ".__format__"))
  end.

(** [key in keys and test(len(values))], evaluated left to right *)
Definition key_and_len (key values : value) (keys : list string) (test : nat -> bool)
  : res bool :=
  if existsb (fun k => value_eqb key (VStr k)) keys
  then let? n := py_len values in inr (test n)
  else inr false.

(** ["%s<a>%s" % (values[0], values[1])] *)
Definition fmt2 (values : value) (a : string) : res string :=
  let? v0 := py_index values 0 in
  let? v1 := py_index values 1 in
  inr (py_str v0 ++ a ++ py_str v1).

Definition format_list (values key : value) : res string :=
  let? c := key_and_len key values ["credential"] (Nat.eqb 2) in
  if c then fmt2 values ":" else
  let? c := key_and_len key values ["outputfile"] (Nat.leb 3) in
  if c then fmt2 values " " else
  let? c := key_and_len key values ["port"; "listenport"] (Nat.eqb 2) in
  if c then fmt2 values "/" else
  let? c := key_and_len key values ["registrykeyvalue"] (Nat.eqb 2) in
  if c then fmt2 values "=" else
  let? c := key_and_len key values
              ["socketaddress"; "c2_socketaddress"; "proxy_socketaddress"] (Nat.eqb 3) in
  if c then
    let? v0 := py_index values 0 in
    let? v1 := py_index values 1 in
    let? v2 := py_index values 2 in
    inr (py_str v0 ++ ":" ++ py_str v1 ++ "/" ++ py_str v2)
  else
  let? c := key_and_len key values ["service"] (Nat.eqb 5) in
  if c then py_join ", " values
  else py_join " " values.

Section Rendering.

Variable convert_to_unicode : value -> option string.

Definition to_unicode (v : value) : res string :=
  match convert_to_unicode v with
  | Some s => inr s
  | None => inl (TypeError ("cannot convert '" ++ type_name v ++ "' object to unicode"))
  end.

(** one line: [u"{:20} {}\n".format(printkey, text)] *)
Definition line (printkey : value) (text : string) : res string :=
  let? k := fmt20 printkey in inr (k ++ " " ++ text ++ Str.nl).

(** the [for item in value] loop of [get_printable_key_value] *)
Fixpoint item_lines (key printkey : value) (items : list value) (output : string)
  : res string :=
  match items with
  | [] => inr output
  | item :: rest =>
    let? text := match item with
                 | VStr _ => to_unicode item
                 | _ => format_list item key
                 end in
    let? l := line printkey text in
    item_lines key (VStr "") rest (output ++ l)
  end.

Definition get_printable_key_value (key value : value) : res string :=
  match value with
  | VStr _ => let? text := to_unicode value in line key text
  | _ =>
    match iterate value with
    | Some items => item_lines key key items ""
    | None => inl (TypeError ("'" ++ type_name value ++ "' object is not iterable"))
    end
  end.

(** [for key in keys: if key in self.metadata: output += ...] *)
Fixpoint print_present (md : Dict.t value) (keys : list string) (output : string)
  : res string :=
  match keys with
  | [] => inr output
  | key :: rest =>
    match Dict.get key md with
    | Some v =>
      let? s := get_printable_key_value (VStr key) v in
      print_present md rest (output ++ s)
    | None => print_present md rest output
    end
  end.

(** [key not in fieldorderlist and key not in ["other", "debug",
    "outputfile"] and key in self.fields] *)
Definition is_remaining (flds : Dict.t string) (key : string) : bool :=
  negb (existsb (String.eqb key) STANDARD_FIELD_ORDER)
  && negb (existsb (String.eqb key) ["other"; "debug"; "outputfile"])
  && Dict.mem key flds.

(** the loop over [self.metadata] for fields that are in fields.json but
    not in [STANDARD_FIELD_ORDER] *)
Fixpoint print_remaining (flds : Dict.t string) (entries : Dict.t value) (output : string)
  : res string :=
  match entries with
  | [] => inr output
  | (key, v) :: rest =>
    if is_remaining flds key
    then
      let? s := get_printable_key_value (VStr key) v in
      print_remaining flds rest (output ++ s)
    else print_remaining flds rest output
  end.

Fixpoint insert_sorted (s : string) (l : list string) : list string :=
  match l with
  | [] => [s]
  | x :: rest => if String.leb s x then s :: l else x :: insert_sorted s rest
  end.

(** [sorted(keys)] *)
Definition sorted (l : list string) : list string := fold_right insert_sorted [] l.

Fixpoint print_other (d : Dict.t value) (keys : list string) (output : string)
  : res string :=
  match keys with
  | [] => inr output
  | key :: rest =>
    match Dict.get key d with
    | Some v =>
      let? s := get_printable_key_value (VStr key) v in
      print_other d rest (output ++ s)
    | None => inl (KeyError key)
    end
  end.

(** [for item in items: output += u"{}\n".format(item)] *)
Fixpoint print_items (items : list string) (output : string) : string :=
  match items with
  | [] => output
  | item :: rest => print_items rest (output ++ item ++ Str.nl)
  end.

Fixpoint print_outputfiles (values : list value) (output : string) : res string :=
  match values with
  | [] => inr output
  | value :: rest =>
    let? v0 := py_index value 0 in
    let? v1 := py_index value 1 in
    let? v2 := py_index value 2 in
    let? s := get_printable_key_value v0 (VList [v1; v2]) in
    print_outputfiles rest (output ++ s)
  end.

(** the block under [if 'inputfilename' in self.metadata] *)
Definition print_info_section (md : Dict.t value) (output : string) : res string :=
  if Dict.mem "inputfilename" md
  then print_present md INFO_FIELD_ORDER
                     (output ++ Str.nl ++ "----File Information----" ++ Str.nl ++ Str.nl)
  else inr output.

(** the block under [if "other" in self.metadata] *)
Definition print_other_section (md : Dict.t value) (output : string) : res string :=
  match Dict.get "other" md with
  | Some other =>
    let output := output ++ Str.nl ++ "----Other Metadata----" ++ Str.nl ++ Str.nl in
    match other with
    | VDict d => print_other d (sorted (Dict.keys d)) output
    | _ =>
      match iterate other with
      | Some [] => inr output
      | Some _ => inl (TypeError "indices must be integers")
      | None => inl (TypeError ("'" ++ type_name other ++ "' object is not iterable"))
      end
    end
  | None => inr output
  end.

(** the block under [if "debug" in self.metadata] *)
Definition print_debug_section (md : Dict.t value) (output : string) : res string :=
  match Dict.get "debug" md with
  | Some debug =>
    let output := output ++ Str.nl ++ "----Debug----" ++ Str.nl ++ Str.nl in
    match iterate debug with
    | Some items => inr (print_items (map py_str items) output)
    | None => inl (TypeError ("'" ++ type_name debug ++ "' object is not iterable"))
    end
  | None => inr output
  end.

(** the block under [if "outputfile" in self.metadata] *)
Definition print_outputfile_section (md : Dict.t value) (output : string) : res string :=
  match Dict.get "outputfile" md with
  | Some files =>
    let output := output ++ Str.nl ++ "----Output Files----" ++ Str.nl ++ Str.nl in
    match iterate files with
    | Some values => print_outputfiles values output
    | None => inl (TypeError ("'" ++ type_name files ++ "' object is not iterable"))
    end
  | None => inr output
  end.

(** the block under [if self.errors] *)
Definition print_errors (errs : list string) (output : string) : string :=
  match errs with
  | [] => output
  | _ => print_items errs (output ++ Str.nl ++ "----Errors----" ++ Str.nl ++ Str.nl)
  end.

Definition get_output_text (st : Reporter) : res string :=
  let md := metadata st in
  let output := "" in
  let? output := print_info_section md output in
  let output := output ++ Str.nl ++ "----Standard Metadata----" ++ Str.nl ++ Str.nl in
  let? output := print_present md STANDARD_FIELD_ORDER output in
  let? output := print_remaining (fields st) md output in
  let? output := print_other_section md output in
  let? output := print_debug_section md output in
  let? output := print_outputfile_section md output in
  inr (print_errors (errors st) output).

End Rendering.

(** ** Run state: [__reset] and [__cleanup] *)

(** [__reset]: the data of a run is emptied and the log handler attached *)
Definition reset (r : Reporter) : Reporter :=
  mkReporter (fields r) [] [] [] None (output_dir r) (output_file_prefix r)
    (disable_output_files r) (base64_output_files r) true (log_level r) (logged r)
    (disk r) (read_only r).

(** [__cleanup], as far as the log handler is concerned *)
Definition cleanup (r : Reporter) : Reporter :=
  mkReporter (fields r) (metadata r) (outputfiles r) (errors r) (input_file r)
    (output_dir r) (output_file_prefix r) (disable_output_files r)
    (base64_output_files r) false (log_level r) (logged r) (disk r) (read_only r).

(** ** An instance of what is not in this module

    Used to run the model on concrete inputs. *)

(** Modelled from the spec: [convert_to_unicode] of mwcp.utils.stringutils
    is not in src; the merges "normalize the value to unicode", which
    leaves the text of a string as it is.  Other objects are refused. *)
Definition to_unicode_model (v : value) : option string :=
  match v with
  | VStr s => Some s
  | _ => None
  end.

(** Modelled from the spec: [LevelCharFilter] of mwcp.utils.logutil is not
    in src and the spec does not give its characters; any choice serves,
    the reporter only copies the character into the entry. *)
Definition level_char_model (level : Z) : string :=
  if (ERROR <=? level)%Z then "!"
  else if (WARNING <=? level)%Z then "-"
  else if (INFO <=? level)%Z then "+"
  else "*".

(** Modelled from the spec: fields.json is not in src; these are the field
    names that the spec and the module mention, with the shape the module
    gives their values. *)
Definition fields_json : Dict.t string :=
  let los := "listofstrings" in
  let lot := "listofstringtuples" in
  [("address", los); ("c2_address", los); ("c2_socketaddress", lot); ("c2_url", los);
   ("credential", lot); ("debug", los); ("directory", los); ("filename", los);
   ("filepath", los); ("ftp", lot); ("injectionprocess", los); ("interval", los);
   ("key", los); ("listenport", lot); ("missionid", los); ("mutex", los);
   ("other", "dictofstrings"); ("outputfile", lot); ("password", los); ("port", lot);
   ("proxy", lot); ("proxy_address", los); ("proxy_socketaddress", lot);
   ("registrydata", los); ("registrypath", los); ("registrypathdata", lot);
   ("rsa_private_key", lot); ("rsa_public_key", lot); ("service", lot);
   ("servicedescription", los); ("servicedisplayname", los); ("servicedll", los);
   ("serviceimage", los); ("servicename", los); ("socketaddress", lot);
   ("ssl_cer_sha1", los); ("url", los); ("urlpath", los); ("useragent", los);
   ("username", los); ("version", los)].

(** a reporter as [__init__] leaves it, with files kept in memory only *)
Definition new_reporter (flds : Dict.t string) : Reporter :=
  mkReporter flds [] [] [] None "" "" true false false WARNING [] [] [].

(** the reporter at the start of a run *)
Definition run_start (flds : Dict.t string) : Reporter := reset (new_reporter flds).

(** * Properties *)

(** ** The library models on known inputs *)

Example md5_empty : Hashlib.md5 "" = "d41d8cd98f00b204e9800998ecf8427e".
Proof. vm_compute. reflexivity. Qed.

Example md5_abc : Hashlib.md5 "abc" = "900150983cd24fb0d6963f7d28e17f72".
Proof. vm_compute. reflexivity. Qed.

Example md5_hello : Hashlib.md5 "hello world" = "5eb63bbbe01eeed093cb22bb8f5acdc3".
Proof. vm_compute. reflexivity. Qed.

Example md5_two_blocks :
  Hashlib.md5 "xxxxxxxxxxxxxxxxxxxxxxxxxxxxxxxxxxxxxxxxxxxxxxxxxxxxxxxxxxxxxxxxxxxxxx"
  = "7d56c0f83fd1e320d60ea2f13dfdeedd".
Proof. vm_compute. reflexivity. Qed.

Example b64_hello : Base64.b64encode "hello" = "aGVsbG8=".
Proof. reflexivity. Qed.

Example b64_ab : Base64.b64encode "ab" = "YWI=".
Proof. reflexivity. Qed.

Example ntpath_split_exe : Ntpath.split "C:\foo\bar.exe" = ("C:\foo", "bar.exe").
Proof. reflexivity. Qed.

Example ntpath_split_root : Ntpath.split "C:\" = ("C:\", "").
Proof. reflexivity. Qed.

Example ntpath_split_unc : Ntpath.split "\\srv\share\x\y" = ("\\srv\share\x", "y").
Proof. reflexivity. Qed.

Example ntpath_split_mixed : Ntpath.split "a/b\c" = ("a/b", "c").
Proof. reflexivity. Qed.

Example url_re_example :
  Re.search URL_RE "http://bad.com:80/x" = Some [("path", "/x"); ("address", "bad.com:80")].
Proof. reflexivity. Qed.

Example url_re_ipv6 :
  Re.search URL_RE "http://[fe80::20c:1234:5678:9abc]:80/badness"
  = Some [("path", "/badness"); ("address", "[fe80::20c:1234:5678:9abc]:80")].
Proof. reflexivity. Qed.

Example url_re_nopath :
  Re.search URL_RE "http://bad.com:80" = Some [("address", "bad.com:80")].
Proof. reflexivity. Qed.

Example url_re_query :
  Re.search URL_RE "ftp://127.0.0.1/really/bad?hostname=pwned"
  = Some [("path", "/really/bad"); ("address", "127.0.0.1")].
Proof. reflexivity. Qed.

Example url_re_none : Re.search URL_RE "bad.com:80/x" = None.
Proof. reflexivity. Qed.

(** ** Values and dictionaries *)

Section ValueInduction.

Variable P : value -> Prop.
Hypothesis P_none : P VNone.
Hypothesis P_str : forall s, P (VStr s).
Hypothesis P_int : forall n, P (VInt n).
Hypothesis P_list : forall l, Forall P l -> P (VList l).
Hypothesis P_dict : forall d, Forall (fun kv => P (snd kv)) d -> P (VDict d).

Fixpoint value_nested_ind (v : value) : P v :=
  match v with
  | VNone => P_none
  | VStr s => P_str s
  | VInt n => P_int n
  | VList l =>
    P_list l ((fix all (l : list value) : Forall P l :=
               match l with
               | [] => Forall_nil P
               | x :: rest => Forall_cons x (value_nested_ind x) (all rest)
               end) l)
  | VDict d =>
    P_dict d ((fix all (d : list (string * value)) : Forall (fun kv => P (snd kv)) d :=
               match d with
               | [] => Forall_nil _
               | kv :: rest =>
                 @Forall_cons _ (fun kv => P (snd kv)) kv rest
                              (value_nested_ind (snd kv)) (all rest)
               end) d)
  end.

End ValueInduction.

Lemma value_eqb_eq : forall a b, value_eqb a b = true <-> a = b.
Proof.
  induction a using value_nested_ind; intros b; destruct b; simpl;
    try (split; [discriminate | congruence]); try (split; reflexivity).
  - rewrite String.eqb_eq. split; congruence.
  - rewrite Z.eqb_eq. split; congruence.
  - revert l0. induction H as [|x l Hx Hl IH]; intros [|y m]; simpl;
      try (split; [discriminate | congruence]); try (split; reflexivity).
    rewrite andb_true_iff, Hx. specialize (IH m).
    split.
    + intros [-> Hgo]. apply IH in Hgo. congruence.
    + intros E. injection E as -> ->. split; [reflexivity | apply IH; reflexivity].
  - revert d0. induction H as [|[k x] d Hx Hd IH]; intros [|[j y] e]; simpl;
      try (split; [discriminate | congruence]); try (split; reflexivity).
    simpl in Hx. rewrite !andb_true_iff, String.eqb_eq, Hx. specialize (IH e).
    split.
    + intros [[-> ->] Hgo]. apply IH in Hgo. congruence.
    + intros E. injection E as -> -> ->.
      repeat split; try reflexivity. apply IH. reflexivity.
Qed.

Lemma value_eqb_refl : forall v, value_eqb v v = true.
Proof. intros v. apply value_eqb_eq. reflexivity. Qed.

Lemma existsb_value_eqb_In : forall v l, existsb (value_eqb v) l = true <-> In v l.
Proof.
  intros v l. rewrite existsb_exists. split.
  - intros [x [Hin Heq]]. apply value_eqb_eq in Heq. subst. exact Hin.
  - intros Hin. exists v. split; [exact Hin | apply value_eqb_refl].
Qed.

Module DictFacts.
Section Facts.
Context {A : Type}.
Implicit Types (d : Dict.t A) (k : string) (a : A).

Lemma get_set_same : forall d k a, Dict.get k (Dict.set k a d) = Some a.
Proof.
  induction d as [|[k' a'] d IH]; intros k a; simpl.
  - rewrite String.eqb_refl. reflexivity.
  - destruct (k =? k') eqn:E; simpl; rewrite E; [reflexivity | apply IH].
Qed.

Lemma get_set_other : forall d k k' a, k <> k' -> Dict.get k (Dict.set k' a d) = Dict.get k d.
Proof.
  induction d as [|[j b] d IH]; intros k k' a Hne; simpl.
  - apply String.eqb_neq in Hne. rewrite Hne. reflexivity.
  - destruct (k' =? j) eqn:E; simpl.
    + apply String.eqb_eq in E. subst j.
      apply String.eqb_neq in Hne. rewrite Hne. reflexivity.
    + destruct (k =? j); [reflexivity | apply IH; exact Hne].
Qed.

Lemma set_set : forall d k a b, Dict.set k a (Dict.set k b d) = Dict.set k a d.
Proof.
  induction d as [|[j c] d IH]; intros k a b; simpl.
  - rewrite String.eqb_refl. reflexivity.
  - destruct (k =? j) eqn:E; simpl; rewrite E; [reflexivity | rewrite IH; reflexivity].
Qed.

Lemma keys_set_present : forall d k a,
    Dict.mem k d = true -> Dict.keys (Dict.set k a d) = Dict.keys d.
Proof.
  unfold Dict.mem.
  induction d as [|[j c] d IH]; intros k a; simpl.
  - discriminate.
  - destruct (k =? j) eqn:E; simpl; [reflexivity |].
    intros H. rewrite IH by exact H. reflexivity.
Qed.

Lemma set_absent : forall d k a,
    Dict.get k d = None -> Dict.set k a d = (d ++ [(k, a)])%list.
Proof.
  induction d as [|[j c] d IH]; intros k a; simpl.
  - reflexivity.
  - destruct (k =? j) eqn:E; [discriminate |].
    intros H. rewrite IH by exact H. reflexivity.
Qed.

Lemma get_In : forall d k a, Dict.get k d = Some a -> In (k, a) d.
Proof.
  induction d as [|[j c] d IH]; intros k a; simpl.
  - discriminate.
  - destruct (k =? j) eqn:E.
    + apply String.eqb_eq in E. intros H. injection H as ->. subst. left. reflexivity.
    + intros H. right. apply IH. exact H.
Qed.
End Facts.
End DictFacts.

(** ** What a computation may change

    [framed W st st'] relates the reporter before and after a computation
    that writes no metadata field outside [W], only appends to the lists of
    the store, to [errors] and to the log, and leaves everything else as it
    was.  [sat W m] says that [m] ends, normally or by raising, in a state
    so related to the one it starts in. *)

Definition config (st : Reporter) :=
  (fields st, outputfiles st, input_file st, output_dir st, output_file_prefix st,
   disable_output_files st, base64_output_files st, log_handler st, log_level st,
   disk st, read_only st).

Definition grows (m m' : Dict.t value) : Prop :=
  forall k l, Dict.get k m = Some (VList l) ->
              exists l', Dict.get k m' = Some (VList (l ++ l')%list).

Record framed (W : string -> Prop) (st st' : Reporter) : Prop := mkFramed {
  fr_config : config st' = config st;
  fr_outside : forall k, ~ W k -> Dict.get k (metadata st') = Dict.get k (metadata st);
  fr_grows : grows (metadata st) (metadata st');
  fr_errors : exists extra, errors st' = (errors st ++ extra)%list;
  fr_logged : exists extra, logged st' = (logged st ++ extra)%list
}.

Arguments fr_config {W st st'} _.
Arguments fr_outside {W st st'} _ _ _.
Arguments fr_grows {W st st'} _ _ _ _.
Arguments fr_errors {W st st'} _.
Arguments fr_logged {W st st'} _.

Definition sat {A : Type} (W : string -> Prop) (m : M A) : Prop :=
  forall st,
    match m st with
    | Ret _ st' | Raise _ st' => framed W st st'
    | OutOfFuel => False
    end.

Lemma grows_refl : forall m, grows m m.
Proof. intros m k l H. exists []. rewrite app_nil_r. exact H. Qed.

Lemma grows_trans : forall a b c, grows a b -> grows b c -> grows a c.
Proof.
  intros a b c Hab Hbc k l H.
  destruct (Hab k l H) as [l1 H1]. destruct (Hbc k _ H1) as [l2 H2].
  exists (l1 ++ l2)%list. rewrite app_assoc. exact H2.
Qed.

Lemma framed_refl : forall W st, framed W st st.
Proof.
  intros W st. constructor; try reflexivity.
  - apply grows_refl.
  - exists []. rewrite app_nil_r. reflexivity.
  - exists []. rewrite app_nil_r. reflexivity.
Qed.

Lemma framed_trans : forall W a b c, framed W a b -> framed W b c -> framed W a c.
Proof.
  intros W a b c [C1 O1 G1 [e1 E1] [l1 L1]] [C2 O2 G2 [e2 E2] [l2 L2]].
  constructor.
  - congruence.
  - intros k Hk. rewrite O2, O1 by exact Hk. reflexivity.
  - eapply grows_trans; eassumption.
  - exists (e1 ++ e2)%list. rewrite E2, E1, app_assoc. reflexivity.
  - exists (l1 ++ l2)%list. rewrite L2, L1, app_assoc. reflexivity.
Qed.

Lemma framed_weaken : forall (W W' : string -> Prop) st st',
    (forall k, W k -> W' k) -> framed W st st' -> framed W' st st'.
Proof.
  intros W W' st st' Hsub [C O G E L]. constructor; try assumption.
  intros k Hk. apply O. intros HW. apply Hk, Hsub, HW.
Qed.

Lemma framed_set_metadata : forall (W : string -> Prop) st key v,
    W key ->
    (forall l, Dict.get key (metadata st) = Some (VList l) ->
               exists l', v = VList (l ++ l')%list) ->
    framed W st (set_metadata (Dict.set key v (metadata st)) st).
Proof.
  intros W st key v HW Hv. constructor; simpl.
  - reflexivity.
  - intros k Hk. apply DictFacts.get_set_other. intros ->. exact (Hk HW).
  - intros k l Hget. destruct (String.eqb_spec k key) as [->|Hne].
    + destruct (Hv l Hget) as [l' ->]. exists l'. apply DictFacts.get_set_same.
    + exists []. rewrite app_nil_r, DictFacts.get_set_other by exact Hne. exact Hget.
  - exists []. rewrite app_nil_r. reflexivity.
  - exists []. rewrite app_nil_r. reflexivity.
Qed.

Section SatRules.

Context {A B : Type}.
Variable W : string -> Prop.

Lemma sat_ret : forall (a : A), sat W (ret a).
Proof. intros a st. apply framed_refl. Qed.

Lemma sat_raise : forall e, sat W (@raise A e).
Proof. intros e st. apply framed_refl. Qed.

Lemma sat_gets : forall (f : Reporter -> A), sat W (gets f).
Proof. intros f st. apply framed_refl. Qed.

Lemma sat_bind : forall (m : M A) (f : A -> M B),
    sat W m -> (forall a, sat W (f a)) -> sat W (bind m f).
Proof.
  intros m f Hm Hf st. unfold bind. specialize (Hm st).
  destruct (m st) as [a st1|e st1|]; try assumption.
  specialize (Hf a st1).
  destruct (f a st1) as [b st2|e st2|]; try assumption;
    eapply framed_trans; eassumption.
Qed.

Lemma sat_try : forall (m : M A) (h : exn -> M A),
    sat W m -> (forall e, sat W (h e)) -> sat W (try_except m h).
Proof.
  intros m h Hm Hh st. unfold try_except. specialize (Hm st).
  destruct (m st) as [a st1|e st1|]; try assumption.
  specialize (Hh e st1).
  destruct (h e st1) as [b st2|e' st2|]; try assumption;
    eapply framed_trans; eassumption.
Qed.

Lemma sat_weaken : forall (W' : string -> Prop) (m : M A),
    (forall k, W' k -> W k) -> sat W' m -> sat W m.
Proof.
  intros W' m Hsub Hm st. specialize (Hm st).
  destruct (m st); try assumption; eapply framed_weaken; eassumption.
Qed.

End SatRules.

Lemma sat_when : forall W (b : bool) (m : M unit),
    (b = true -> sat W m) -> sat W (when b m).
Proof.
  intros W [|] m H; simpl; [apply H; reflexivity | apply sat_ret].
Qed.

Lemma sat_for_each : forall {A : Type} W (l : list A) (f : A -> M unit),
    (forall x, In x l -> sat W (f x)) -> sat W (for_each l f).
Proof.
  intros A W l f. induction l as [|x l IH]; intros H; simpl.
  - apply sat_ret.
  - apply sat_bind.
    + apply H. left. reflexivity.
    + intros _. apply IH. intros y Hy. apply H. right. exact Hy.
Qed.

Lemma sat_append_errors : forall W (message : string),
    sat W (modify (fun st => set_errors (errors st ++ [message])%list st)).
Proof.
  intros W message st. constructor; simpl; try reflexivity.
  - apply grows_refl.
  - exists [message]. reflexivity.
  - exists []. rewrite app_nil_r. reflexivity.
Qed.

Lemma sat_append_logged : forall W (entry : Z * string),
    sat W (modify (fun st => set_logged (logged st ++ [entry])%list st)).
Proof.
  intros W entry st. constructor; simpl; try reflexivity.
  - apply grows_refl.
  - exists []. rewrite app_nil_r. reflexivity.
  - exists [entry]. reflexivity.
Qed.

Lemma sat_iter : forall W v, sat W (iter v).
Proof. intros W v. unfold iter. destruct (iterate v); [apply sat_ret | apply sat_raise]. Qed.

Lemma sat_item : forall W i values, sat W (item i values).
Proof.
  intros W i values. unfold item.
  destruct (nth_error values i); [apply sat_ret | apply sat_raise].
Qed.

Lemma sat_py_int : forall W s, sat W (py_int s).
Proof.
  intros W s. unfold py_int.
  set (p := match Str.chars (Str.strip s) with
            | "-"%char :: r => (true, r)
            | "+"%char :: r => (false, r)
            | _ => (false, Str.chars (Str.strip s))
            end).
  destruct p as [neg digits].
  destruct (Str.grouped false digits); [apply sat_ret | apply sat_raise].
Qed.

Lemma sat_py_in : forall W v obj, sat W (py_in v obj).
Proof.
  intros W v obj. unfold py_in.
  destruct obj; destruct v; try apply sat_ret; apply sat_raise.
Qed.

Lemma sat_append_unique : forall (W : string -> Prop) key v always,
    W key -> sat W (append_unique key v always).
Proof.
  intros W key v always HW st.
  unfold append_unique, bind, setdefault.
  destruct (Dict.get key (metadata st)) as [obj|] eqn:Hget.
  - assert (Hwanted : forall (wanted : bool),
               match when wanted (append_to key obj v) st with
               | Ret _ st' | Raise _ st' => framed W st st'
               | OutOfFuel => False
               end).
    { intros [|]; simpl; [|apply framed_refl].
      unfold append_to. destruct obj; try apply framed_refl.
      unfold modify. apply framed_set_metadata; [exact HW |].
      intros l0 H0. rewrite Hget in H0. injection H0 as <-. exists [v]. reflexivity. }
    destruct always; simpl.
    + apply (Hwanted true).
    + pose proof (sat_py_in W v obj st) as Hin.
      destruct (py_in v obj st) as [present st1|e st1|] eqn:Ein; try assumption.
      assert (st1 = st) as ->.
      { unfold py_in in Ein. destruct obj; destruct v; simpl in Ein;
          unfold ret, raise in Ein; congruence. }
      unfold ret. apply (Hwanted (negb present)).
  - set (st1 := set_metadata (Dict.set key (VList []) (metadata st)) st).
    assert (H1 : framed W st st1).
    { apply framed_set_metadata; [exact HW |]. intros l H. congruence. }
    assert (Hwanted : forall (wanted : bool),
               match when wanted (append_to key (VList []) v) st1 with
               | Ret _ st' | Raise _ st' => framed W st st'
               | OutOfFuel => False
               end).
    { intros [|]; simpl; [| exact H1].
      unfold modify. eapply framed_trans; [exact H1 |].
      apply framed_set_metadata; [exact HW |].
      intros l H. unfold st1 in H. simpl in H.
      rewrite DictFacts.get_set_same in H. injection H as <-. exists [v]. reflexivity. }
    destruct always; simpl; [apply (Hwanted true) | apply (Hwanted (negb false))].
Qed.

(** ** The cascade is well founded

    Every field has a rank, and a report on a field only reports fields of
    lower rank; the entry that the log handler adds to [debug] comes
    last. *)

Definition rank (key : string) : nat :=
  if existsb (String.eqb key) ["c2_url"; "ftp"; "proxy"; "service"] then 4
  else if existsb (String.eqb key)
            ["url"; "c2_socketaddress"; "proxy_socketaddress"; "serviceimage"; "servicedll"]
  then 3
  else if existsb (String.eqb key)
            ["socketaddress"; "filepath"; "c2_address"; "proxy_address"; "credential";
             "registrypathdata"]
  then 2
  else 1.

(** the fields that a report on [key] may write *)
Definition writes (key : string) : string -> Prop :=
  fun k => k = "debug" \/ k = key \/ rank k < rank key.

(** the fields that the cascade of [key] may write *)
Definition below (key : string) : string -> Prop :=
  fun k => k = "debug" \/ rank k < rank key.

(** a non-empty string, as the log handler reports to [debug] *)
Definition is_message (v : value) : bool :=
  match v with
  | VStr s => negb (s =? "")
  | _ => false
  end.

Definition depth (key : string) (v : value) : nat :=
  if (key =? "debug") && is_message v then 0 else rank key.

(** [self] behaves on every report of depth less than [n] *)
Definition good (n : nat) (self : intake) : Prop :=
  forall k v, depth k v < n -> sat (writes k) (self k v).

Lemma rank_pos : forall k, 1 <= rank k.
Proof.
  intros k. unfold rank.
  repeat match goal with |- context [if ?b then _ else _] => destruct b end; lia.
Qed.

Lemma rank_le_4 : forall k, rank k <= 4.
Proof.
  intros k. unfold rank.
  repeat match goal with |- context [if ?b then _ else _] => destruct b end; lia.
Qed.

Lemma depth_le_rank : forall k v, depth k v <= rank k.
Proof. intros k v. unfold depth. destruct ((k =? "debug") && is_message v); lia. Qed.

Lemma below_writes : forall key k, below key k -> writes key k.
Proof. intros key k [H|H]; [left | right; right]; exact H. Qed.

Lemma good_call : forall n self key k v,
    good n self -> rank k < rank key -> rank key <= n -> sat (below key) (self k v).
Proof.
  intros n self key k v Hgood Hlt Hle.
  apply sat_weaken with (W' := writes k).
  - intros k' [->|[->|H]]; [left; reflexivity | right; exact Hlt | right; lia].
  - apply Hgood. pose proof (depth_le_rank k v). lia.
Qed.

Lemma good_debug : forall n self (W : string -> Prop) msg,
    good n self -> 1 <= n -> W "debug" -> msg <> "" -> sat W (self "debug" (VStr msg)).
Proof.
  intros n self W msg Hgood Hn HW Hmsg.
  apply sat_weaken with (W' := writes "debug").
  - intros k [->|[->|H]]; try exact HW.
    pose proof (rank_pos k). change (rank "debug") with 1 in H. lia.
  - apply Hgood. unfold depth. simpl.
    apply String.eqb_neq in Hmsg. rewrite Hmsg. simpl. exact Hn.
Qed.

Section Logging.

Variable level_char : Z -> string.

Lemma format_record_nonempty : forall level message exc,
    format_record level_char level message exc <> "".
Proof. intros level message exc. unfold format_record. simpl. discriminate. Qed.

Lemma sat_log_record : forall (W : string -> Prop) self level message exc,
    (forall msg, msg <> "" -> sat W (self "debug" (VStr msg))) ->
    sat W (log_record level_char self level message exc).
Proof.
  intros W self level message exc Hself. unfold log_record.
  apply sat_bind; [apply sat_append_logged | intros _].
  apply sat_bind; [apply sat_gets | intros attached].
  apply sat_bind; [apply sat_gets | intros threshold].
  apply sat_when. intros _. unfold emit.
  destruct (WARNING <? level)%Z; [apply sat_append_errors |].
  destruct ((INFO <=? level) && (level <=? WARNING))%Z; [| apply sat_ret].
  apply Hself. apply format_record_nonempty.
Qed.

(** a record above WARNING goes to [errors], whatever [self] is *)
Lemma sat_log_error : forall (W : string -> Prop) self message exc,
    sat W (log_record level_char self ERROR message exc).
Proof.
  intros W self message exc. unfold log_record.
  apply sat_bind; [apply sat_append_logged | intros _].
  apply sat_bind; [apply sat_gets | intros attached].
  apply sat_bind; [apply sat_gets | intros threshold].
  apply sat_when. intros _. unfold emit. simpl. apply sat_append_errors.
Qed.

Lemma sat_log_below : forall n self key level message exc,
    good n self -> 1 <= n ->
    sat (below key) (log_record level_char self level message exc).
Proof.
  intros n self key level message exc Hgood Hn.
  apply sat_log_record. intros msg Hmsg.
  apply good_debug with (n := n); [exact Hgood | exact Hn | left; reflexivity | exact Hmsg].
Qed.

End Logging.

(** steps through a cascade, one construct at a time *)
Ltac key_cases H :=
  lazymatch type of H with
  | (_ || _)%bool = true =>
    apply orb_true_iff in H; destruct H as [H|H]; key_cases H
  | (?k =? _)%string = true =>
    first [ is_var k; apply String.eqb_eq in H; subst k
          | let b := eval hnf in (k =? "")%string in idtac ]
  | _ => idtac
  end.

Ltac closed_false H :=
  match type of H with
  | ?b = true =>
    let b' := eval hnf in b in
    lazymatch b' with false => exfalso; hnf in H; discriminate H end
  end.

Ltac sat_call Hgood :=
  eapply good_call; [exact Hgood | vm_compute; lia | assumption].

Ltac sat_step Hgood Hn :=
  lazymatch goal with
  | |- sat _ (bind _ _) => apply sat_bind; [| intros ?]
  | |- sat _ (ret _) => apply sat_ret
  | |- sat _ (raise _) => apply sat_raise
  | |- sat _ (gets _) => apply sat_gets
  | |- sat _ (item _ _) => apply sat_item
  | |- sat _ (py_int _) => apply sat_py_int
  | |- sat _ (iter _) => apply sat_iter
  | |- sat _ (when _ _) =>
    let H := fresh "Hc" in
    apply sat_when; intros H; first [closed_false H | key_cases H]
  | |- sat _ (log_record _ _ ERROR _ _) => apply sat_log_error
  | |- sat _ (log_record _ _ _ _ _) => eapply sat_log_below; [exact Hgood | exact Hn]
  | |- sat _ (log_info _ _ _) => unfold log_info
  | |- sat _ (log_warn _ _ _) => unfold log_warn
  | |- sat _ (log_error _ _ _) => unfold log_error
  | |- sat _ (log_exception _ _ _ _) => unfold log_exception
  | |- sat ?W (if ?b then ?x else ?y) =>
    let b' := eval hnf in b in
    lazymatch b' with
    | true => change (sat W x)
    | false => change (sat W y)
    | _ => destruct b eqn:?
    end
  | |- sat _ (match ?x with _ => _ end) => destruct x eqn:?
  | |- sat _ (_ _ (VStr _)) => sat_call Hgood
  | |- sat _ (_ _ (strs _)) => sat_call Hgood
  end.

Lemma bind_ret : forall {A B : Type} (a : A) (f : A -> M B), bind (ret a) f = f a.
Proof. reflexivity. Qed.

Lemma no_values_str : forall s, no_values (VStr s) = ret (s =? "").
Proof. intros [|c s]; reflexivity. Qed.

Section CascadeFrame.

Variable convert_to_unicode : value -> option string.
Variable level_char : Z -> string.
Hypothesis convert_str : forall s, convert_to_unicode (VStr s) = Some s.

Variable n : nat.
Variable self : intake.
Hypothesis Hgood : good n self.
Hypothesis Hn : 1 <= n.

Lemma sat_derive_url : forall key value,
    key = "url" \/ key = "c2_url" -> rank key <= n ->
    sat (below key) (derive_url level_char self key value).
Proof.
  intros key value Hkey Hrank. unfold derive_url.
  destruct Hkey; subst key; repeat sat_step Hgood Hn.
Qed.

Lemma sat_derive_listofstrings : forall key value,
    rank key <= n ->
    sat (below key) (derive_listofstrings level_char self key value).
Proof.
  intros key value Hrank. unfold derive_listofstrings.
  repeat sat_step Hgood Hn; apply sat_derive_url; auto.
Qed.

Lemma sat_check_port : forall (W : string -> Prop) key values,
    W "debug" -> sat W (check_port level_char self key values).
Proof.
  intros W key values HW.
  assert (Hlog : forall level message exc,
             sat W (log_record level_char self level message exc)).
  { intros. apply sat_log_record. intros msg Hmsg.
    apply good_debug with (n := n); assumption. }
  unfold check_port, log_warn.
  repeat first [ apply Hlog | sat_step Hgood Hn ].
Qed.

Lemma subfield_map_rank : forall key subfields,
    subfield_map key = Some subfields ->
    forall sf, In sf subfields -> rank sf < rank key.
Proof.
  intros key subfields H sf Hin. unfold subfield_map in H.
  repeat match type of H with
         | (if ?b then _ else _) = _ =>
           let E := fresh "E" in
           destruct b eqn:E;
             [apply String.eqb_eq in E; subst key; injection H as <-;
              simpl in Hin; intuition (subst; vm_compute; lia) |]
         end.
  discriminate.
Qed.

Lemma sat_derive_listofstringtuples : forall key values,
    rank key <= n ->
    sat (below key) (derive_listofstringtuples level_char self key values).
Proof.
  intros key values Hrank. unfold derive_listofstringtuples.
  apply sat_bind.
  - destruct (subfield_map key) as [subfields|] eqn:Hsub; [| apply sat_ret].
    apply sat_bind.
    + apply sat_for_each. intros [sf v] Hin. apply sat_when. intros _. simpl.
      eapply good_call; [exact Hgood | | exact Hrank].
      eapply subfield_map_rank; [exact Hsub |].
      eapply in_combine_l. exact Hin.
    + intros _. repeat sat_step Hgood Hn.
  - intros _. repeat sat_step Hgood Hn.
    apply sat_check_port. left. reflexivity.
    apply sat_check_port. left. reflexivity.
Qed.

Lemma sat_convert : forall (W : string -> Prop) v, sat W (convert convert_to_unicode v).
Proof.
  intros W v. unfold convert.
  destruct (convert_to_unicode v); [apply sat_ret | apply sat_raise].
Qed.

Lemma sat_convert_all : forall (W : string -> Prop) l,
    sat W (convert_all convert_to_unicode l).
Proof.
  intros W l. induction l as [|v l IH]; simpl.
  - apply sat_ret.
  - apply sat_bind; [apply sat_convert | intros s].
    apply sat_bind; [exact IH | intros ss]. apply sat_ret.
Qed.

Lemma sat_pad_values : forall (W : string -> Prop) key values,
    sat W (pad_values key values).
Proof.
  intros W key values. unfold pad_values.
  destruct (expected_size key); [| apply sat_ret].
  apply sat_bind; [apply sat_iter | intros items]. apply sat_ret.
Qed.

Lemma writes_self : forall key, writes key key.
Proof. intros key. right. left. reflexivity. Qed.

Lemma sat_listofstrings : forall key value,
    rank key <= n ->
    sat (writes key)
        (_add_metatadata_listofstrings convert_to_unicode level_char self key value).
Proof.
  intros key value Hrank. unfold _add_metatadata_listofstrings.
  destruct (negb (truthy value)).
  - apply sat_weaken with (W' := below key); [apply below_writes |].
    unfold log_info. eapply sat_log_below; [exact Hgood | exact Hn].
  - apply sat_bind; [apply sat_convert | intros s].
    apply sat_bind; [apply sat_append_unique, writes_self | intros _].
    apply sat_weaken with (W' := below key); [apply below_writes |].
    apply sat_derive_listofstrings. exact Hrank.
Qed.

Lemma sat_listofstringtuples : forall key values,
    rank key <= n ->
    sat (writes key)
        (_add_metadata_listofstringtuples convert_to_unicode level_char self key values).
Proof.
  intros key values Hrank. unfold _add_metadata_listofstringtuples.
  apply sat_bind; [apply sat_pad_values | intros padded].
  apply sat_bind; [apply sat_iter | intros items].
  apply sat_bind; [apply sat_convert_all | intros vs].
  apply sat_bind; [apply sat_append_unique, writes_self | intros _].
  apply sat_weaken with (W' := below key); [apply below_writes |].
  apply sat_derive_listofstringtuples. exact Hrank.
Qed.

Lemma sat_store_subkey : forall (W : string -> Prop) key d subkey v st,
    W key ->
    (forall l, Dict.get key (metadata st) <> Some (VList l)) ->
    framed W st
           (set_metadata (Dict.set key (VDict (Dict.set subkey v d)) (metadata st)) st).
Proof.
  intros W key d subkey v st HW Hnot.
  apply framed_set_metadata; [exact HW |].
  intros l H. exfalso. exact (Hnot l H).
Qed.

Lemma sat_merge_entry : forall (W : string -> Prop) key subkey subvalue,
    W key -> sat W (merge_entry convert_to_unicode key subkey subvalue).
Proof.
  intros W key subkey subvalue HW st.
  unfold merge_entry, convert. rewrite !convert_str.
  unfold bind, ret, setdefault.
  destruct (Dict.get key (metadata st)) as [obj|] eqn:Hget.
  - destruct obj as [| |z|l|d]; try apply framed_refl.
    assert (Hnot : forall l, Dict.get key (metadata st) <> Some (VList l))
      by (intros l; rewrite Hget; discriminate).
    destruct (Dict.get subkey d) as [existing|].
    + destruct existing;
        match goal with
        | |- context [when ?b _] => destruct b
        end; simpl; try apply framed_refl;
          apply sat_store_subkey; assumption.
    + apply sat_store_subkey; assumption.
  - simpl.
    eapply framed_trans.
    + apply framed_set_metadata with (v := VDict []); [exact HW |].
      intros l H. congruence.
    + apply (framed_set_metadata W
               (set_metadata (Dict.set key (VDict []) (metadata st)) st) key
               (VDict [(subkey, VStr subvalue)]) HW).
      intros l. simpl. rewrite DictFacts.get_set_same. discriminate.
Qed.

Lemma sat_dictofstrings : forall key value,
    sat (writes key) (_add_metadata_dictofstrings convert_to_unicode level_char self key value).
Proof.
  intros key value. unfold _add_metadata_dictofstrings.
  destruct value; try apply sat_raise.
  apply sat_for_each. intros [subkey subvalue] _.
  destruct subvalue; try (apply sat_merge_entry, writes_self);
    (apply sat_bind;
     [ unfold type_of_subscript;
       repeat first [ apply sat_raise | apply sat_ret
                    | match goal with |- sat _ (match ?x with _ => _ end) => destruct x end ]
     | intros t; apply sat_weaken with (W' := below key); [apply below_writes |];
       unfold log_warn; eapply sat_log_below; [exact Hgood | exact Hn] ]).
Qed.

Lemma sat_no_values : forall (W : string -> Prop) value, sat W (no_values value).
Proof.
  intros W value. unfold no_values.
  destruct value; try apply sat_ret;
    (apply sat_bind; [apply sat_iter | intros items; apply sat_ret]).
Qed.

Lemma sat_body : forall key value,
    rank key <= n ->
    sat (writes key) (add_metadata_body convert_to_unicode level_char self key value).
Proof.
  intros key value Hrank. unfold add_metadata_body, convert.
  rewrite convert_str, bind_ret.
  apply sat_bind; [apply sat_no_values | intros skip].
  destruct skip.
  - apply sat_weaken with (W' := below key); [apply below_writes |].
    unfold log_warn. eapply sat_log_below; [exact Hgood | exact Hn].
  - apply sat_bind; [apply sat_gets | intros known].
    destruct known as [fieldtype|]; [| apply sat_raise].
    apply sat_try.
    + apply sat_bind; [| intros _; apply sat_bind; [| intros _]];
        apply sat_when; intros _.
      * apply sat_listofstrings. exact Hrank.
      * apply sat_listofstringtuples. exact Hrank.
      * apply sat_dictofstrings.
    + intros e. apply sat_log_error.
Qed.

End CascadeFrame.

Section IntakeTotal.

Variable convert_to_unicode : value -> option string.
Variable level_char : Z -> string.
Hypothesis convert_str : forall s, convert_to_unicode (VStr s) = Some s.

Lemma convert_all_strs : forall l,
    convert_all convert_to_unicode (map VStr l) = ret l.
Proof.
  induction l as [|s l IH]; simpl.
  - reflexivity.
  - unfold convert. rewrite convert_str, bind_ret, IH, bind_ret. reflexivity.
Qed.

(** the entry that the log handler reports to [debug] is stored without
    any further report *)
Lemma sat_body_message : forall self s,
    s <> "" ->
    sat (writes "debug")
        (add_metadata_body convert_to_unicode level_char self "debug" (VStr s)).
Proof.
  intros self s Hs. unfold add_metadata_body, convert.
  rewrite convert_str, bind_ret, no_values_str, bind_ret.
  apply String.eqb_neq in Hs. rewrite Hs.
  apply sat_bind; [apply sat_gets | intros known].
  destruct known as [fieldtype|]; [| apply sat_raise].
  apply sat_try; [| intros e; apply sat_log_error].
  apply sat_bind; [| intros _; apply sat_bind; [| intros _]];
    apply sat_when; intros _.
  - unfold _add_metatadata_listofstrings. simpl truthy. rewrite Hs. simpl negb.
    cbv iota. unfold convert. rewrite convert_str, bind_ret.
    apply sat_bind; [apply sat_append_unique, writes_self | intros _].
    unfold derive_listofstrings. repeat sat_step I I.
  - unfold _add_metadata_listofstringtuples.
    change (pad_values "debug" (VStr s)) with (@ret value (VStr s)).
    rewrite bind_ret.
    apply sat_bind; [apply sat_iter | intros items].
    apply sat_bind; [apply sat_convert_all | intros vs].
    apply sat_bind; [apply sat_append_unique, writes_self | intros _].
    unfold derive_listofstringtuples.
    change (subfield_map "debug") with (@None (list string)).
    repeat sat_step I I.
  - apply sat_raise.
Qed.

Theorem add_metadata_rec_good : forall n,
    good n (add_metadata_rec convert_to_unicode level_char n).
Proof.
  induction n as [|n IH]; intros k v Hd.
  - lia.
  - simpl. unfold depth in Hd.
    destruct ((k =? "debug") && is_message v) eqn:E.
    + apply andb_true_iff in E. destruct E as [Ek Em].
      apply String.eqb_eq in Ek. subst k.
      destruct v; try discriminate. simpl in Em.
      apply sat_body_message. intros ->. discriminate.
    + pose proof (rank_pos k).
      apply sat_body with (n := n); try assumption; lia.
Qed.

(** A report never runs out of fuel, writes only the field it reports,
    the fields below it and [debug], and only appends. *)
Theorem add_metadata_sat : forall key value,
    sat (writes key) (add_metadata convert_to_unicode level_char key value).
Proof.
  intros key value. apply add_metadata_rec_good.
  pose proof (depth_le_rank key value). pose proof (rank_le_4 key).
  unfold cascade_depth. lia.
Qed.

End IntakeTotal.

(** ** Values without content *)

(** [value is None or all(not _value for _value in value)] as a test:
    [None] when evaluating it raises *)
Definition empty_value (value : value) : option bool :=
  match value with
  | VNone => Some true
  | _ =>
    match iterate value with
    | Some items => Some (forallb (fun v => negb (truthy v)) items)
    | None => None
    end
  end.

Lemma no_values_empty : forall value b,
    empty_value value = Some b -> no_values value = ret b.
Proof.
  intros value b H. unfold empty_value in H. unfold no_values, iter.
  destruct value; simpl in *; try (injection H as <-; reflexivity); discriminate.
Qed.

Section Skipping.

Variable convert_to_unicode : value -> option string.
Variable level_char : Z -> string.
Hypothesis convert_str : forall s, convert_to_unicode (VStr s) = Some s.

Let report : intake := add_metadata convert_to_unicode level_char.

(** the message of the warning *)
Definition skip_message (key : string) : string :=
  "no values provided for " ++ key ++ ", skipping".

(** A report without values is a warning on the module's logger. *)
Lemma report_empty : forall key value st,
    empty_value value = Some true ->
    report key value st
    = log_warn level_char (add_metadata_rec convert_to_unicode level_char 4)
               (skip_message key) st.
Proof.
  intros key value st Hempty.
  unfold report, add_metadata, cascade_depth. simpl add_metadata_rec.
  unfold add_metadata_body at 1. unfold convert.
  rewrite convert_str, bind_ret, (no_values_empty value true Hempty), bind_ret.
  reflexivity.
Qed.

(** A report with values on an unknown field raises. *)
Lemma report_unknown : forall key value st,
    empty_value value = Some false ->
    Dict.get key (fields st) = None ->
    report key value st = Raise (KeyError ("Invalid field name: " ++ key)) st.
Proof.
  intros key value st Hvalue Hkey.
  unfold report, add_metadata, cascade_depth. simpl add_metadata_rec.
  unfold add_metadata_body at 1. unfold convert.
  rewrite convert_str, bind_ret, (no_values_empty value false Hvalue), bind_ret.
  unfold bind, gets. rewrite Hkey. reflexivity.
Qed.

End Skipping.

(** ** What a report stores under its own field *)

(** the list under [key]: empty when the field is not in the store yet,
    [None] when something else than a list is stored *)
Definition entries (key : string) (st : Reporter) : option (list value) :=
  match Dict.get key (metadata st) with
  | None => Some []
  | Some (VList l) => Some l
  | Some _ => None
  end.

(** [if always or v not in l: l.append(v)] *)
Definition add_unique (always : bool) (v : value) (l : list value) : list value :=
  if always || negb (existsb (value_eqb v) l) then (l ++ [v])%list else l.

Definition store (key : string) (l : list value) (st : Reporter) : Reporter :=
  set_metadata (Dict.set key (VList l) (metadata st)) st.

(** the number of times [v] occurs in [l] *)
Definition occurrences (v : value) (l : list value) : nat :=
  List.length (filter (value_eqb v) l).

Lemma set_metadata_same : forall st, set_metadata (metadata st) st = st.
Proof. intros []. reflexivity. Qed.

Lemma dict_set_same : forall {A : Type} (d : Dict.t A) k a,
    Dict.get k d = Some a -> Dict.set k a d = d.
Proof.
  induction d as [|[j b] d IH]; intros k a; simpl.
  - discriminate.
  - destruct (k =? j) eqn:E.
    + intros H. injection H as ->. reflexivity.
    + intros H. rewrite IH by exact H. reflexivity.
Qed.

Lemma append_unique_exact : forall key v always st l,
    entries key st = Some l ->
    append_unique key v always st = Ret tt (store key (add_unique always v l) st).
Proof.
  intros key v always st l H. unfold entries in H.
  unfold append_unique, bind, setdefault, store, add_unique.
  destruct (Dict.get key (metadata st)) as [obj|] eqn:Hget.
  - destruct obj; try discriminate. injection H as ->.
    destruct always; simpl.
    + reflexivity.
    + destruct (existsb (value_eqb v) l); simpl.
      * rewrite (dict_set_same _ _ _ Hget), set_metadata_same. reflexivity.
      * reflexivity.
  - injection H as <-.
    destruct always; simpl; unfold modify; simpl; rewrite DictFacts.set_set; reflexivity.
Qed.

Lemma entries_store : forall key l st, entries key (store key l st) = Some l.
Proof.
  intros key l st. unfold entries, store. simpl.
  rewrite DictFacts.get_set_same. reflexivity.
Qed.

Lemma entries_framed : forall (W : string -> Prop) key st st',
    framed W st st' -> ~ W key -> entries key st' = entries key st.
Proof.
  intros W key st st' H Hk. unfold entries. rewrite (fr_outside H key Hk). reflexivity.
Qed.

Lemma add_unique_idem : forall v l,
    add_unique false v (add_unique false v l) = add_unique false v l.
Proof.
  intros v l. unfold add_unique. simpl.
  destruct (existsb (value_eqb v) l) eqn:E; simpl.
  - rewrite E. reflexivity.
  - rewrite existsb_app. simpl. rewrite value_eqb_refl, orb_true_r. reflexivity.
Qed.

Lemma occurrences_app : forall v l m,
    occurrences v (l ++ m) = occurrences v l + occurrences v m.
Proof.
  intros v l m. unfold occurrences. rewrite filter_app, length_app. reflexivity.
Qed.

Lemma occurrences_zero : forall v l,
    existsb (value_eqb v) l = false -> occurrences v l = 0.
Proof.
  intros v l. unfold occurrences. induction l as [|x l IH]; simpl.
  - reflexivity.
  - destruct (value_eqb v x); simpl; [discriminate | exact IH].
Qed.

Lemma occurrences_pos : forall v l,
    existsb (value_eqb v) l = true -> 1 <= occurrences v l.
Proof.
  intros v l. unfold occurrences. induction l as [|x l IH]; simpl.
  - discriminate.
  - destruct (value_eqb v x); simpl; [lia | exact IH].
Qed.

Lemma occurrences_repeat : forall v k, occurrences v (repeat v k) = k.
Proof.
  intros v k. unfold occurrences. induction k as [|k IH].
  - reflexivity.
  - cbn [repeat filter]. rewrite value_eqb_refl. cbn [List.length].
    rewrite IH. reflexivity.
Qed.

(** a value stored once stays stored once *)
Lemma occurrences_add_unique : forall v l,
    occurrences v l <= 1 -> occurrences v (add_unique false v l) = 1.
Proof.
  intros v l H. unfold add_unique. simpl.
  destruct (existsb (value_eqb v) l) eqn:E; simpl.
  - apply occurrences_pos in E. lia.
  - rewrite occurrences_app, (occurrences_zero _ _ E).
    unfold occurrences. simpl. rewrite value_eqb_refl. reflexivity.
Qed.

(** [tuple(values) + ('',) * (expected_size[key] - len(values))] on a
    sequence of strings *)
Definition padded (key : string) (vals : list string) : list string :=
  match expected_size key with
  | Some k => (vals ++ repeat "" (k - List.length vals))%list
  | None => vals
  end.

(** some string of the sequence is not empty *)
Definition some_text (vals : list string) : bool :=
  existsb (fun s => negb (s =? "")) vals.

Lemma iter_strs : forall vals, iter (strs vals) = ret (map VStr vals).
Proof. reflexivity. Qed.

Lemma pad_values_strs : forall key vals,
    pad_values key (strs vals) = ret (strs (padded key vals)).
Proof.
  intros key vals. unfold pad_values, padded.
  destruct (expected_size key) as [k|]; [| reflexivity].
  rewrite iter_strs, bind_ret. unfold strs.
  rewrite map_app, map_repeat, length_map. reflexivity.
Qed.

Lemma empty_value_strs : forall vals,
    some_text vals = true -> empty_value (strs vals) = Some false.
Proof.
  intros vals H. unfold empty_value, strs. simpl. f_equal.
  induction vals as [|s vals IH]; simpl in *.
  - discriminate.
  - destruct (negb (s =? "")); simpl in *; [reflexivity | apply IH; exact H].
Qed.

Lemma some_text_padded : forall key vals,
    some_text vals = true -> some_text (padded key vals) = true.
Proof.
  intros key vals H. unfold padded.
  destruct (expected_size key); [| exact H].
  unfold some_text. rewrite existsb_app. fold (some_text vals). rewrite H. reflexivity.
Qed.

Lemma not_below_self : forall key, key <> "debug" -> ~ below key key.
Proof. intros key Hne [H|H]; [exact (Hne H) | lia]. Qed.

Section OwnEntry.

Variable convert_to_unicode : value -> option string.
Variable level_char : Z -> string.
Hypothesis convert_str : forall s, convert_to_unicode (VStr s) = Some s.

Lemma log_error_returns : forall self message exc st,
    exists st', log_record level_char self ERROR message exc st = Ret tt st'.
Proof.
  intros self message exc st.
  unfold log_record, bind, modify, gets, when, emit. simpl.
  match goal with |- context [if ?b then _ else _] => destruct b end;
    eexists; reflexivity.
Qed.

(** [try: m except Exception: logger.exception(...)] returns, and what it
    leaves in the store is what [m] left there *)
Lemma try_log_exception : forall (W : string -> Prop) self (m : M unit) message st,
    sat W m ->
    exists st',
      try_except m (fun e => log_exception level_char self message e) st = Ret tt st'
      /\ framed W st st'
      /\ exists st1, final (m st) = Some st1 /\ metadata st' = metadata st1.
Proof.
  intros W self m message st Hm. unfold try_except. specialize (Hm st).
  destruct (m st) as [[] st1|e st1|] eqn:E; [| | contradiction].
  - exists st1. split; [reflexivity |]. split; [exact Hm |].
    exists st1. split; reflexivity.
  - unfold log_exception.
    destruct (log_error_returns self message (Some e) st1) as [st2 H2].
    pose proof (sat_log_error level_char (fun _ => False) self message (Some e) st1) as F.
    rewrite H2 in *. exists st2. split; [reflexivity |]. split.
    + eapply framed_trans; [exact Hm |].
      eapply framed_weaken; [| exact F]. intros k [].
    + exists st1. split; [reflexivity |].
      destruct F as [_ O _ _ _].
      assert (forall k, Dict.get k (metadata st2) = Dict.get k (metadata st1))
        by (intros k; apply O; intros []).
      clear - H2. unfold log_record, bind, modify, gets, when, emit in H2.
      simpl in H2.
      match type of H2 with context [if ?b then _ else _] => destruct b end;
        injection H2 as <-; reflexivity.
Qed.

Variable n : nat.
Variable self : intake.
Hypothesis Hgood : good n self.
Hypothesis Hn : 1 <= n.

Let body : intake := add_metadata_body convert_to_unicode level_char self.

(** the three [if fieldtype == ...] of [add_metadata] for a field of
    strings *)
Lemma body_listofstrings : forall key value st,
    empty_value value = Some false ->
    Dict.get key (fields st) = Some "listofstrings" ->
    body key value st
    = try_except
        (_add_metatadata_listofstrings convert_to_unicode level_char self key value ;;
         ret tt ;; ret tt)
        (fun e => log_exception level_char self
                                ("Error adding metadata for key: " ++ key) e) st.
Proof.
  intros key value st Hvalue Hfield.
  unfold body, add_metadata_body, convert.
  rewrite convert_str, bind_ret, (no_values_empty value false Hvalue), bind_ret.
  unfold bind at 1. unfold gets at 1. rewrite Hfield. reflexivity.
Qed.

Lemma body_listofstringtuples : forall key value st,
    empty_value value = Some false ->
    Dict.get key (fields st) = Some "listofstringtuples" ->
    body key value st
    = try_except
        (ret tt ;;
         _add_metadata_listofstringtuples convert_to_unicode level_char self key value ;;
         ret tt)
        (fun e => log_exception level_char self
                                ("Error adding metadata for key: " ++ key) e) st.
Proof.
  intros key value st Hvalue Hfield.
  unfold body, add_metadata_body, convert.
  rewrite convert_str, bind_ret, (no_values_empty value false Hvalue), bind_ret.
  unfold bind at 1. unfold gets at 1. rewrite Hfield. reflexivity.
Qed.

(** A report of a string on a field of strings returns, and the list of
    the field is the former list with the string added if it was not in
    it. *)
Lemma body_string_entry : forall key s st l,
    rank key <= n ->
    key <> "debug" ->
    s <> "" ->
    Dict.get key (fields st) = Some "listofstrings" ->
    entries key st = Some l ->
    exists st',
      body key (VStr s) st = Ret tt st'
      /\ entries key st' = Some (add_unique false (VStr s) l)
      /\ framed (writes key) st st'.
Proof.
  intros key s st l Hrank Hkey Hs Hfield Hl.
  assert (Hvalue : empty_value (VStr s) = Some false).
  { destruct s; [congruence | reflexivity]. }
  rewrite (body_listofstrings key (VStr s) st Hvalue Hfield).
  set (m := (_add_metatadata_listofstrings convert_to_unicode level_char self key (VStr s)
             ;; ret tt ;; ret tt)).
  assert (Hm : sat (writes key) m).
  { unfold m.
    apply sat_bind; [apply sat_listofstrings with (n := n); assumption | intros _].
    apply sat_bind; [apply sat_ret | intros _; apply sat_ret]. }
  destruct (try_log_exception (writes key) self m
              ("Error adding metadata for key: " ++ key) st Hm)
    as [st' [Hrun [Hframed [st1 [Hfinal Hmd]]]]].
  exists st'. split; [exact Hrun |]. split; [| exact Hframed].
  unfold entries. rewrite Hmd. fold (entries key st1).
  (* what the merger leaves under [key] *)
  unfold m, _add_metatadata_listofstrings in Hfinal.
  assert (Ht : negb (truthy (VStr s)) = false).
  { simpl. apply String.eqb_neq in Hs. rewrite Hs. reflexivity. }
  rewrite Ht in Hfinal. unfold convert in Hfinal.
  rewrite convert_str, bind_ret in Hfinal.
  apply String.eqb_neq in Hkey. rewrite Hkey in Hfinal.
  unfold bind at 1 2 in Hfinal.
  rewrite (append_unique_exact key (VStr s) false st l Hl) in Hfinal.
  pose proof (sat_derive_listofstrings level_char n self Hgood Hn key s Hrank
                (store key (add_unique false (VStr s) l) st)) as Hd.
  apply String.eqb_neq in Hkey.
  destruct (derive_listofstrings level_char self key s
              (store key (add_unique false (VStr s) l) st)) as [[] s2|e s2|];
    [| | contradiction]; simpl in Hfinal; injection Hfinal as <-;
      rewrite (entries_framed (below key) key _ _ Hd (not_below_self key Hkey));
      apply entries_store.
Qed.

Lemma body_tuple_entry : forall key vals st l,
    rank key <= n ->
    key <> "debug" ->
    some_text vals = true ->
    Dict.get key (fields st) = Some "listofstringtuples" ->
    entries key st = Some l ->
    exists st',
      body key (strs vals) st = Ret tt st'
      /\ entries key st' = Some (add_unique false (strs (padded key vals)) l)
      /\ framed (writes key) st st'.
Proof.
  intros key vals st l Hrank Hkey Hvals Hfield Hl.
  rewrite (body_listofstringtuples key (strs vals) st (empty_value_strs vals Hvals) Hfield).
  set (m := (ret tt ;;
             _add_metadata_listofstringtuples convert_to_unicode level_char self key
                                              (strs vals) ;;
             ret tt)).
  assert (Hm : sat (writes key) m).
  { unfold m. apply sat_bind; [apply sat_ret | intros _].
    apply sat_bind; [apply sat_listofstringtuples with (n := n); assumption | intros _].
    apply sat_ret. }
  destruct (try_log_exception (writes key) self m
              ("Error adding metadata for key: " ++ key) st Hm)
    as [st' [Hrun [Hframed [st1 [Hfinal Hmd]]]]].
  exists st'. split; [exact Hrun |]. split; [| exact Hframed].
  unfold entries. rewrite Hmd. fold (entries key st1).
  unfold m, _add_metadata_listofstringtuples in Hfinal.
  rewrite bind_ret, pad_values_strs, bind_ret in Hfinal.
  rewrite iter_strs in Hfinal.
  rewrite bind_ret, (convert_all_strs convert_to_unicode convert_str), bind_ret in Hfinal.
  unfold bind at 1 2 in Hfinal.
  rewrite (append_unique_exact key (strs (padded key vals)) false st l Hl) in Hfinal.
  pose proof (sat_derive_listofstringtuples level_char n self Hgood Hn key
                (padded key vals) Hrank
                (store key (add_unique false (strs (padded key vals)) l) st)) as Hd.
  destruct (derive_listofstringtuples level_char self key (padded key vals)
              (store key (add_unique false (strs (padded key vals)) l) st))
    as [[] s2|e s2|];
    [| | contradiction]; simpl in Hfinal; injection Hfinal as <-;
      rewrite (entries_framed (below key) key _ _ Hd (not_below_self key Hkey));
      apply entries_store.
Qed.

End OwnEntry.

(** [m] done [n] times in a row *)
Fixpoint times (n : nat) (m : M unit) : M unit :=
  match n with
  | O => ret tt
  | S k => m ;; times k m
  end.

Lemma framed_fields : forall (W : string -> Prop) st st',
    framed W st st' -> fields st' = fields st.
Proof.
  intros W st st' H. pose proof (fr_config H) as C. unfold config in C.
  injection C. intros. assumption.
Qed.

Lemma framed_outputfiles : forall (W : string -> Prop) st st',
    framed W st st' -> outputfiles st' = outputfiles st.
Proof.
  intros W st st' H. pose proof (fr_config H) as C. unfold config in C.
  injection C. intros. assumption.
Qed.

Lemma writes_debug : forall k, writes "debug" k -> "debug" = k.
Proof.
  intros k [->|[->|H]]; try reflexivity.
  pose proof (rank_pos k). change (rank "debug") with 1 in H. lia.
Qed.

Lemma padded_idem : forall key vals, padded key (padded key vals) = padded key vals.
Proof.
  intros key vals. unfold padded.
  destruct (expected_size key) as [k|]; [| reflexivity].
  rewrite length_app, repeat_length.
  replace (k - (List.length vals + (k - List.length vals))) with 0 by lia.
  simpl. apply app_nil_r.
Qed.

Section Intake_properties.

Variable convert_to_unicode : value -> option string.
Variable level_char : Z -> string.
Hypothesis convert_str : forall s, convert_to_unicode (VStr s) = Some s.

Let report : intake := add_metadata convert_to_unicode level_char.

Lemma good_4 : good 4 (add_metadata_rec convert_to_unicode level_char 4).
Proof. apply add_metadata_rec_good. exact convert_str. Qed.

Lemma report_string_entry : forall key s st l,
    key <> "debug" ->
    s <> "" ->
    Dict.get key (fields st) = Some "listofstrings" ->
    entries key st = Some l ->
    exists st',
      report key (VStr s) st = Ret tt st'
      /\ entries key st' = Some (add_unique false (VStr s) l)
      /\ framed (writes key) st st'.
Proof.
  intros key s st l Hkey Hs Hfield Hl.
  apply (body_string_entry convert_to_unicode level_char convert_str 4
           (add_metadata_rec convert_to_unicode level_char 4) good_4);
    try assumption; [lia | apply rank_le_4].
Qed.

Lemma report_tuple_entry : forall key vals st l,
    key <> "debug" ->
    some_text vals = true ->
    Dict.get key (fields st) = Some "listofstringtuples" ->
    entries key st = Some l ->
    exists st',
      report key (strs vals) st = Ret tt st'
      /\ entries key st' = Some (add_unique false (strs (padded key vals)) l)
      /\ framed (writes key) st st'.
Proof.
  intros key vals st l Hkey Hvals Hfield Hl.
  apply (body_tuple_entry convert_to_unicode level_char convert_str 4
           (add_metadata_rec convert_to_unicode level_char 4) good_4);
    try assumption; [lia | apply rank_le_4].
Qed.

(** a string reported to [debug] is appended, and nothing else happens *)
Lemma body_debug_exact : forall self s st l,
    s <> "" ->
    Dict.get "debug" (fields st) = Some "listofstrings" ->
    entries "debug" st = Some l ->
    add_metadata_body convert_to_unicode level_char self "debug" (VStr s) st
    = Ret tt (store "debug" (l ++ [VStr s])%list st).
Proof.
  intros self s st l Hs Hfield Hl.
  assert (Hvalue : empty_value (VStr s) = Some false).
  { destruct s; [congruence | reflexivity]. }
  rewrite (body_listofstrings convert_to_unicode level_char convert_str self
             "debug" (VStr s) st Hvalue Hfield).
  unfold _add_metatadata_listofstrings.
  assert (Ht : negb (truthy (VStr s)) = false).
  { simpl. apply String.eqb_neq in Hs. rewrite Hs. reflexivity. }
  rewrite Ht. unfold convert. rewrite convert_str, bind_ret.
  change ("debug" =? "debug") with true.
  unfold try_except, bind.
  rewrite (append_unique_exact "debug" (VStr s) true st l Hl).
  reflexivity.
Qed.

(** *** Unknown fields *)

(** C1 (as amended).  For every field name that is not in the schema and
    every value that is not [None] and has a component that is not
    empty, [add_metadata] raises the [KeyError] that stands for the
    spec's [SchemaError], and the reporter is exactly as before. *)
Theorem unknown_field_raises : forall key value st,
    Dict.get key (fields st) = None ->
    empty_value value = Some false ->
    report key value st = Raise (KeyError ("Invalid field name: " ++ key)) st.
Proof.
  intros key value st Hkey Hvalue.
  apply report_unknown; assumption.
Qed.

(** *** Reports without values *)

(** C5 (as amended).  For every field name, known or not, a report whose
    value is [None], empty or made of empty components only raises
    nothing when [debug] is a field of strings, is logged at WARNING
    level, and changes no field of the store other than [debug]: when
    the log handler is detached or warnings are disabled the reporter is
    as before up to the log; when the handler receives the warning, the
    formatted warning is appended to [debug]. *)
Theorem empty_report_skipped : forall key value st,
    empty_value value = Some true ->
    Dict.get "debug" (fields st) = Some "listofstrings" ->
    let warned := set_logged (logged st ++ [(WARNING, skip_message key)])%list st in
    let entry := VStr (format_record level_char WARNING (skip_message key) None) in
    exists st',
      report key value st = Ret tt st'
      /\ framed (eq "debug") st st'
      /\ (exists extra, logged st' = (logged st ++ (WARNING, skip_message key) :: extra)%list)
      /\ (log_handler st && (log_level st <=? WARNING)%Z = false -> st' = warned)
      /\ (log_handler st && (log_level st <=? WARNING)%Z = true ->
          forall l, entries "debug" st = Some l ->
                    st' = store "debug" (l ++ [entry])%list warned).
Proof.
  intros key value st Hempty Hdebug warned entry.
  unfold report. rewrite (report_empty convert_to_unicode level_char convert_str
                            key value st Hempty).
  unfold log_warn, log_record, bind, modify, gets. fold warned.
  change (log_handler warned) with (log_handler st).
  change (log_level warned) with (log_level st).
  assert (Hwarned : framed (eq "debug") st warned).
  { constructor; simpl; try reflexivity.
    - apply grows_refl.
    - exists []. rewrite app_nil_r. reflexivity.
    - exists [(WARNING, skip_message key)]. reflexivity. }
  destruct (log_handler st && (log_level st <=? WARNING)%Z) eqn:Hcond; unfold when.
  - unfold emit. change (WARNING <? WARNING)%Z with false.
    change ((INFO <=? WARNING) && (WARNING <=? WARNING))%Z with true. cbv iota.
    fold entry.
    assert (Hentry : format_record level_char WARNING (skip_message key) None <> "")
      by apply format_record_nonempty.
    assert (Hv : empty_value entry = Some false).
    { unfold entry. destruct (format_record level_char WARNING (skip_message key) None);
        [congruence | reflexivity]. }
    change (add_metadata_rec convert_to_unicode level_char 4)
      with (add_metadata_body convert_to_unicode level_char
              (add_metadata_rec convert_to_unicode level_char 3)).
    rewrite (body_listofstrings convert_to_unicode level_char convert_str
               (add_metadata_rec convert_to_unicode level_char 3)
               "debug" entry warned Hv Hdebug).
    destruct (try_log_exception level_char (writes "debug")
                (add_metadata_rec convert_to_unicode level_char 3)
                (_add_metatadata_listofstrings convert_to_unicode level_char
                   (add_metadata_rec convert_to_unicode level_char 3) "debug" entry
                 ;; ret tt ;; ret tt)
                ("Error adding metadata for key: " ++ "debug") warned)
      as [st' [Hrun [Hframed _]]].
    { apply sat_bind; [| intros _; apply sat_bind; [apply sat_ret | intros _; apply sat_ret]].
      apply sat_listofstrings with (n := 3).
      - apply add_metadata_rec_good. exact convert_str.
      - lia.
      - vm_compute. lia. }
    rewrite Hrun. exists st'. split; [reflexivity |].
    assert (Hf : framed (eq "debug") warned st').
    { eapply framed_weaken; [| exact Hframed]. apply writes_debug. }
    split; [eapply framed_trans; eassumption |].
    split.
    + destruct (fr_logged Hf) as [extra He]. exists extra.
      rewrite He. unfold warned. simpl. rewrite <- app_assoc. reflexivity.
    + split; [discriminate |]. intros _ l Hl.
      unfold entry in *.
      rewrite <- (body_listofstrings convert_to_unicode level_char convert_str
                    (add_metadata_rec convert_to_unicode level_char 3)
                    "debug" _ warned Hv Hdebug) in Hrun.
      rewrite (body_debug_exact
                 (add_metadata_rec convert_to_unicode level_char 3)
                 (format_record level_char WARNING (skip_message key) None)
                 warned l Hentry Hdebug Hl) in Hrun.
      injection Hrun as <-. reflexivity.
  - exists warned. split; [reflexivity |]. split; [exact Hwarned |].
    split; [exists []; reflexivity |].
    split; [reflexivity | discriminate].
Qed.

(** *** Duplicates *)

Lemma report_debug_times : forall k s st l,
    s <> "" ->
    Dict.get "debug" (fields st) = Some "listofstrings" ->
    entries "debug" st = Some l ->
    exists st',
      times k (report "debug" (VStr s)) st = Ret tt st'
      /\ entries "debug" st' = Some (l ++ repeat (VStr s) k)%list.
Proof.
  induction k as [|k IH]; intros s st l Hs Hfield Hl; simpl.
  - exists st. split; [reflexivity |]. rewrite app_nil_r. exact Hl.
  - unfold bind, report, add_metadata, cascade_depth.
    change (add_metadata_rec convert_to_unicode level_char 5)
      with (add_metadata_body convert_to_unicode level_char
              (add_metadata_rec convert_to_unicode level_char 4)).
    rewrite (body_debug_exact _ s st l Hs Hfield Hl).
    destruct (IH s (store "debug" (l ++ [VStr s])%list st) (l ++ [VStr s])%list Hs)
      as [st' [Hrun Hentries]].
    + exact Hfield.
    + apply entries_store.
    + exists st'. split; [exact Hrun |].
      rewrite Hentries, <- app_assoc. reflexivity.
Qed.

(** C7 (as amended).  For every field of strings other than [debug] and
    every string that is not empty, reporting the string twice leaves
    exactly one occurrence of it in the list of the field, and the second
    report does not change that list; the field holds nothing yet or a
    list in which the string occurs at most once, as every list that
    reports have built does.  For [debug], [k] reports of the same string
    that is not empty append it [k] times.  The empty string is left out:
    it is never stored. *)
Theorem scalar_list_duplicates :
  (forall key s st l,
      key <> "debug" ->
      s <> "" ->
      Dict.get key (fields st) = Some "listofstrings" ->
      entries key st = Some l ->
      occurrences (VStr s) l <= 1 ->
      exists st1 st2 l2,
        report key (VStr s) st = Ret tt st1
        /\ report key (VStr s) st1 = Ret tt st2
        /\ entries key st1 = Some l2
        /\ entries key st2 = Some l2
        /\ occurrences (VStr s) l2 = 1)
  /\
  (forall k s st l,
      s <> "" ->
      Dict.get "debug" (fields st) = Some "listofstrings" ->
      entries "debug" st = Some l ->
      exists st' l',
        times k (report "debug" (VStr s)) st = Ret tt st'
        /\ entries "debug" st' = Some l'
        /\ l' = (l ++ repeat (VStr s) k)%list
        /\ occurrences (VStr s) l' = occurrences (VStr s) l + k).
Proof.
  split.
  - intros key s st l Hkey Hs Hfield Hl Hocc.
    destruct (report_string_entry key s st l Hkey Hs Hfield Hl) as [st1 [H1 [E1 F1]]].
    assert (Hfield1 : Dict.get key (fields st1) = Some "listofstrings").
    { rewrite (framed_fields _ _ _ F1). exact Hfield. }
    destruct (report_string_entry key s st1 _ Hkey Hs Hfield1 E1) as [st2 [H2 [E2 F2]]].
    exists st1, st2, (add_unique false (VStr s) l).
    repeat split; try assumption.
    + rewrite E2, add_unique_idem. reflexivity.
    + apply occurrences_add_unique. exact Hocc.
  - intros k s st l Hs Hfield Hl.
    destruct (report_debug_times k s st l Hs Hfield Hl) as [st' [Hrun He]].
    exists st', (l ++ repeat (VStr s) k)%list.
    repeat split; try assumption.
    rewrite occurrences_app. f_equal.
    apply occurrences_repeat.
Qed.

(** a tuple and the same tuple padded by hand are one entry *)
Lemma padded_stored_once : forall key vals st l,
    key <> "debug" ->
    some_text vals = true ->
    Dict.get key (fields st) = Some "listofstringtuples" ->
    entries key st = Some l ->
    occurrences (strs (padded key vals)) l <= 1 ->
    exists st1 st2 l2,
      report key (strs vals) st = Ret tt st1
      /\ report key (strs (padded key vals)) st1 = Ret tt st2
      /\ entries key st1 = Some l2
      /\ entries key st2 = Some l2
      /\ occurrences (strs (padded key vals)) l2 = 1
      /\ (l = [] -> l2 = [strs (padded key vals)]).
Proof.
  intros key vals st l Hne Hvals Hfield Hl Hocc.
  destruct (report_tuple_entry key vals st l Hne Hvals Hfield Hl) as [st1 [H1 [E1 F1]]].
  assert (Hfield1 : Dict.get key (fields st1) = Some "listofstringtuples").
  { rewrite (framed_fields _ _ _ F1). exact Hfield. }
  destruct (report_tuple_entry key (padded key vals) st1 _ Hne
              (some_text_padded key vals Hvals) Hfield1 E1) as [st2 [H2 [E2 F2]]].
  rewrite padded_idem in E2.
  exists st1, st2, (add_unique false (strs (padded key vals)) l).
  repeat split; try assumption.
  - rewrite E2, add_unique_idem. reflexivity.
  - apply occurrences_add_unique. exact Hocc.
  - intros ->. reflexivity.
Qed.

(** C10 (as amended).  A tuple reported to [proxy] is padded with empty
    strings to 5 components, and one reported to [rsa_private_key] to 8,
    before it is looked up in the list of the field: reporting a tuple with
    some component that is not empty, and then the same tuple followed by
    the empty strings that bring it to 5 (to 8) components, stores the
    padded tuple once.  The second report does not change the list, and a
    field that held nothing holds exactly the one padded tuple.  (The list
    of the field holds the padded tuple at most once before.) *)
Theorem padded_tuple_stored_once : forall key size vals st l,
    key = "proxy" /\ size = 5 \/ key = "rsa_private_key" /\ size = 8 ->
    some_text vals = true ->
    Dict.get key (fields st) = Some "listofstringtuples" ->
    entries key st = Some l ->
    let full := (vals ++ repeat "" (size - List.length vals))%list in
    occurrences (strs full) l <= 1 ->
    exists st1 st2 l2,
      report key (strs vals) st = Ret tt st1
      /\ report key (strs full) st1 = Ret tt st2
      /\ entries key st1 = Some l2
      /\ entries key st2 = Some l2
      /\ occurrences (strs full) l2 = 1
      /\ (l = [] -> l2 = [strs full]).
Proof.
  intros key size vals st l Hkey Hvals Hfield Hl full Hocc.
  assert (Hfull : full = padded key vals /\ key <> "debug").
  { destruct Hkey as [[-> ->]|[-> ->]]; split; try reflexivity; discriminate. }
  destruct Hfull as [Hfull Hne]. rewrite Hfull in *.
  apply padded_stored_once; assumption.
Qed.

End Intake_properties.

(** ** Runs of the model *)

(** [add_metadata] with the instance of the two helpers *)
Definition report_model : intake := add_metadata to_unicode_model level_char_model.

Lemma to_unicode_model_str : forall s, to_unicode_model (VStr s) = Some s.
Proof. reflexivity. Qed.

(** C1, as stated, fails: the field name below is not in the schema, the
    value is the empty string, and the report returns without raising; the
    test for values comes before the look-up in the schema. *)
Lemma unknown_field_empty_value_accepted :
  Dict.get "nosuchfield" fields_json = None
  /\ exists st',
      report_model "nosuchfield" (VStr "") (run_start fields_json) = Ret tt st'
      /\ metadata st'
         = [("debug", VList [VStr "[-] no values provided for nosuchfield, skipping"])].
Proof.
  split; [reflexivity |].
  eexists. split; [vm_compute; reflexivity | reflexivity].
Qed.

Lemma unknown_field_raises_witness :
  Dict.get "nosuchfield" (fields (run_start fields_json)) = None
  /\ empty_value (VStr "x") = Some false
  /\ report_model "nosuchfield" (VStr "x") (run_start fields_json)
     = Raise (KeyError "Invalid field name: nosuchfield") (run_start fields_json).
Proof.
  split; [reflexivity |]. split; [reflexivity |].
  apply (unknown_field_raises to_unicode_model level_char_model to_unicode_model_str
           "nosuchfield" (VStr "x") (run_start fields_json)); reflexivity.
Defined.

(** C5, as stated, fails: during a run the report of an empty value is
    logged at WARNING level, not at INFO, and the warning becomes an entry
    of [debug], so the store does change. *)
Lemma empty_report_warns_and_fills_debug :
  metadata (run_start fields_json) = []
  /\ exists st',
      report_model "address" (VStr "") (run_start fields_json) = Ret tt st'
      /\ logged st' = [(30%Z, "no values provided for address, skipping")]
      /\ metadata st'
         = [("debug", VList [VStr "[-] no values provided for address, skipping"])].
Proof.
  split; [reflexivity |].
  eexists. split; [vm_compute; reflexivity |]. split; reflexivity.
Qed.

Lemma empty_report_skipped_witness :
  empty_value (VStr "") = Some true
  /\ Dict.get "debug" (fields (run_start fields_json)) = Some "listofstrings"
  /\ exists st',
      report_model "address" (VStr "") (run_start fields_json) = Ret tt st'
      /\ framed (eq "debug") (run_start fields_json) st'.
Proof.
  split; [reflexivity |]. split; [reflexivity |].
  destruct (empty_report_skipped to_unicode_model level_char_model to_unicode_model_str
              "address" (VStr "") (run_start fields_json) eq_refl eq_refl)
    as [st' [Hrun [Hframed _]]].
  exists st'. split; [exact Hrun | exact Hframed].
Defined.

Lemma scalar_list_duplicates_witness :
  (exists st1 st2 l2,
      report_model "address" (VStr "10.0.0.1") (run_start fields_json) = Ret tt st1
      /\ report_model "address" (VStr "10.0.0.1") st1 = Ret tt st2
      /\ entries "address" st1 = Some l2
      /\ entries "address" st2 = Some l2
      /\ occurrences (VStr "10.0.0.1") l2 = 1)
  /\ (exists st' l',
         times 3 (report_model "debug" (VStr "step")) (run_start fields_json) = Ret tt st'
         /\ entries "debug" st' = Some l'
         /\ l' = ([] ++ repeat (VStr "step") 3)%list
         /\ occurrences (VStr "step") l' = occurrences (VStr "step") [] + 3).
Proof.
  pose proof (scalar_list_duplicates to_unicode_model level_char_model to_unicode_model_str)
    as [Hscalar Hdebug].
  split.
  - apply (Hscalar "address" "10.0.0.1" (run_start fields_json) []).
    + discriminate.
    + discriminate.
    + reflexivity.
    + reflexivity.
    + apply Nat.le_0_l.
  - apply (Hdebug 3 "step" (run_start fields_json) []).
    + discriminate.
    + reflexivity.
    + reflexivity.
Defined.

(** C7, as stated, fails at the empty string: reported twice to
    [address] it is not in the list of the field, and reported three times
    to [debug] it is not in that list either, which holds the three
    warnings instead. *)
Lemma empty_string_is_never_stored :
  (exists st1 st2,
      report_model "address" (VStr "") (run_start fields_json) = Ret tt st1
      /\ report_model "address" (VStr "") st1 = Ret tt st2
      /\ entries "address" st2 = Some []
      /\ occurrences (VStr "") [] = 0)
  /\ (exists st' l',
         times 3 (report_model "debug" (VStr "")) (run_start fields_json) = Ret tt st'
         /\ entries "debug" st' = Some l'
         /\ l' = repeat (VStr "[-] no values provided for debug, skipping") 3
         /\ occurrences (VStr "") l' = 0).
Proof.
  split.
  - eexists. eexists. split; [vm_compute; reflexivity |].
    split; [vm_compute; reflexivity |]. split; reflexivity.
  - eexists. eexists. split; [vm_compute; reflexivity |].
    split; [reflexivity |]. split; reflexivity.
Qed.

Lemma padded_tuple_stored_once_witness :
  (exists st1 st2 l2,
      report_model "proxy" (strs ["admin"; "pass"; "192.168.1.1"]) (run_start fields_json)
      = Ret tt st1
      /\ report_model "proxy" (strs ["admin"; "pass"; "192.168.1.1"; ""; ""]) st1
         = Ret tt st2
      /\ entries "proxy" st1 = Some l2
      /\ entries "proxy" st2 = Some l2
      /\ occurrences (strs ["admin"; "pass"; "192.168.1.1"; ""; ""]) l2 = 1
      /\ (@nil value = [] -> l2 = [strs ["admin"; "pass"; "192.168.1.1"; ""; ""]]))
  /\ (exists st1 st2 l2,
         report_model "rsa_private_key" (strs ["65537"; "3233"; "2753"])
                      (run_start fields_json) = Ret tt st1
         /\ report_model "rsa_private_key"
                         (strs ["65537"; "3233"; "2753"; ""; ""; ""; ""; ""]) st1
            = Ret tt st2
         /\ entries "rsa_private_key" st1 = Some l2
         /\ entries "rsa_private_key" st2 = Some l2
         /\ occurrences (strs ["65537"; "3233"; "2753"; ""; ""; ""; ""; ""]) l2 = 1
         /\ (@nil value = []
             -> l2 = [strs ["65537"; "3233"; "2753"; ""; ""; ""; ""; ""]])).
Proof.
  split.
  - apply (padded_tuple_stored_once to_unicode_model level_char_model to_unicode_model_str
             "proxy" 5 ["admin"; "pass"; "192.168.1.1"] (run_start fields_json) []).
    + left. split; reflexivity.
    + reflexivity.
    + reflexivity.
    + reflexivity.
    + apply Nat.le_0_l.
  - apply (padded_tuple_stored_once to_unicode_model level_char_model to_unicode_model_str
             "rsa_private_key" 8 ["65537"; "3233"; "2753"] (run_start fields_json) []).
    + right. split; reflexivity.
    + reflexivity.
    + reflexivity.
    + reflexivity.
    + apply Nat.le_0_l.
Defined.

(** C10, as stated, fails for a tuple of empty strings: the short tuple
    and the padded one are both skipped with a warning, and the field holds
    no entry at all. *)
Lemma empty_tuple_is_never_stored :
  exists st1 st2,
    report_model "proxy" (strs [""; ""; ""]) (run_start fields_json) = Ret tt st1
    /\ report_model "proxy" (strs [""; ""; ""; ""; ""]) st1 = Ret tt st2
    /\ Dict.get "proxy" (metadata st2) = None
    /\ entries "proxy" st2 = Some [].
Proof.
  eexists. eexists. split; [vm_compute; reflexivity |].
  split; [vm_compute; reflexivity |]. split; reflexivity.
Qed.

(** the branch [if len(values[2:]) == 1] of the proxy rule is never taken:
    the tuple has been padded to five components by then *)
Lemma proxy_address_branch_dead : forall vals,
    (List.length (skipn 2 (padded "proxy" vals)) =? 1)%nat = false.
Proof.
  intros vals. apply Nat.eqb_neq. unfold padded.
  change (expected_size "proxy") with (Some 5).
  rewrite length_skipn, length_app, repeat_length. lia.
Qed.

(** C2 (the code at the failing input).  The three-component proxy
    [("admin", "pass", "192.168.1.1")] is padded to five components and
    [credential] and [proxy_address] are derived, but the rule does not take
    its one-component branch: it reports the padded rest to
    [proxy_socketaddress], which stores the tuple [("192.168.1.1", "", "")]
    there and under [socketaddress], and [proxy_address] comes from the
    rule of [proxy_socketaddress]. *)
Theorem proxy_three_tuple_run :
  exists st',
    report_model "proxy" (strs ["admin"; "pass"; "192.168.1.1"]) (run_start fields_json)
    = Ret tt st'
    /\ Dict.get "proxy" (metadata st')
       = Some (VList [strs ["admin"; "pass"; "192.168.1.1"; ""; ""]])
    /\ Dict.get "credential" (metadata st') = Some (VList [strs ["admin"; "pass"]])
    /\ Dict.get "proxy_address" (metadata st') = Some (VList [VStr "192.168.1.1"])
    /\ Dict.get "proxy_socketaddress" (metadata st')
       = Some (VList [strs ["192.168.1.1"; ""; ""]])
    /\ Dict.get "socketaddress" (metadata st')
       = Some (VList [strs ["192.168.1.1"; ""; ""]])
    /\ Dict.keys (metadata st')
       = ["proxy"; "credential"; "username"; "password"; "proxy_socketaddress";
          "socketaddress"; "address"; "debug"; "proxy_address"].
Proof.
  eexists. split; [vm_compute; reflexivity |].
  repeat split; reflexivity.
Qed.

(** C4.  In a run with the standard fields, reporting the C2 URL stores the
    URL under [url], its path under [urlpath], host, port and ["tcp"] under
    [c2_socketaddress], and the host under [c2_address]. *)
Theorem c2_url_run :
  exists st',
    report_model "c2_url" (VStr "http://bad.com:80/x") (run_start fields_json) = Ret tt st'
    /\ Dict.get "url" (metadata st') = Some (VList [VStr "http://bad.com:80/x"])
    /\ Dict.get "urlpath" (metadata st') = Some (VList [VStr "/x"])
    /\ Dict.get "c2_socketaddress" (metadata st')
       = Some (VList [strs ["bad.com"; "80"; "tcp"]])
    /\ Dict.get "c2_address" (metadata st') = Some (VList [VStr "bad.com"])
    /\ errors st' = [].
Proof.
  eexists. split; [vm_compute; reflexivity |].
  repeat split; reflexivity.
Qed.

(** a value that is neither a string nor a dictionary makes the merge raise
    at its first occurrence, whatever follows it *)
Lemma dictofstrings_raises_on_int : forall self key subkey n rest st,
    _add_metadata_dictofstrings to_unicode_model level_char_model self key
                                (VDict ((subkey, VInt n) :: rest)) st
    = Raise (TypeError "'int' object is not subscriptable") st.
Proof. reflexivity. Qed.

(** C6 (the code at the failing input).  The dictionary
    [{"a": 1, "b": "x"}] reported to [other]: formatting the warning for
    ["a"] subscripts the integer and raises, [add_metadata] logs the
    exception as an error, no warning is logged and ["b"] is not merged. *)
Theorem other_with_non_string_run :
  exists st',
    report_model "other" (VDict [("a", VInt 1); ("b", VStr "x")]) (run_start fields_json)
    = Ret tt st'
    /\ Dict.get "other" (metadata st') = None
    /\ logged st' = [(ERROR, "Error adding metadata for key: other")]
    /\ List.length (errors st') = 1.
Proof.
  eexists. split; [vm_compute; reflexivity |].
  repeat split; reflexivity.
Qed.

(** the same dictionary in the other order: ["b"] is merged before the
    failure *)
Lemma other_with_non_string_last :
  exists st',
    report_model "other" (VDict [("b", VStr "x"); ("a", VInt 1)]) (run_start fields_json)
    = Ret tt st'
    /\ Dict.get "other" (metadata st') = Some (VDict [("b", VStr "x")])
    /\ logged st' = [(ERROR, "Error adding metadata for key: other")].
Proof.
  eexists. split; [vm_compute; reflexivity |].
  repeat split; reflexivity.
Qed.

(** ** Output files *)

(** how the renaming loop ends, as a function of the table of output
    files: with a name that is not in the table, on a record of the same
    content, on the assertion, or not within [fuel] evaluations of its
    condition *)
Inductive resolved : Type :=
| Fresh (name : string)
| Duplicate (name : string)
| Overflow
| Unresolved.

Fixpoint resolve (fuel : nat) (files : Dict.t OutputFile)
         (orig_filename md5 filename : string) (num_char : nat) : resolved :=
match fuel with
| O => Unresolved
| S n =>
  match Dict.get filename files with
  | None => Fresh filename
  | Some existing =>
    if md5 =? of_md5 existing then Duplicate filename
    else if negb (num_char <=? 32)%nat then Overflow
    else resolve n files orig_filename md5
                 (orig_filename ++ "_" ++ Str.take num_char md5) (S num_char)
  end
end.

(** a record without its path on disk *)
Definition unpath (r : OutputFile) : string * string * string :=
(of_data r, of_description r, of_md5 r).

(** [files'] has the names of [files], in the same order, with the same
    contents *)
Definition same_table (files files' : Dict.t OutputFile) : Prop :=
Dict.keys files' = Dict.keys files
/\ forall name, option_map unpath (Dict.get name files')
                = option_map unpath (Dict.get name files).

(** the table once [data] is entered under [filename] *)
Definition entered (data description md5 filename : string) (files : Dict.t OutputFile)
  : Dict.t OutputFile :=
Dict.set filename (mkOutputFile data description md5 None) files.

(** what [output_file] reads of the set-up of the reporter *)
Definition setup (st : Reporter) :=
(fields st, input_file st, output_file_prefix st, disable_output_files st).

(** the table of output files is kept, up to the paths, and so is the
    set-up *)
Definition kept (st st' : Reporter) : Prop :=
same_table (outputfiles st) (outputfiles st') /\ setup st' = setup st.

(** a set-up in which nothing that [output_file] calls can raise: the log
    handler can report to [debug], [outputfile] is a field, and the md5 of
    the input file is there when it is the prefix of the files written *)
Definition ready (st : Reporter) : Prop :=
Dict.mem "debug" (fields st) = true
/\ Dict.mem "outputfile" (fields st) = true
/\ (disable_output_files st = true
    \/ (output_file_prefix st =? "md5") = false
    \/ input_file st <> None).

(** [m] ends, normally or by raising, in a state related by [R] to the one
    it starts in *)
Definition ends {A : Type} (R : Reporter -> Reporter -> Prop) (m : M A) : Prop :=
forall st,
  match m st with
  | Ret _ st' | Raise _ st' => R st st'
  | OutOfFuel => False
  end.

(** [m] returns in every set-up that is [ready] *)
Definition returns {A : Type} (m : M A) : Prop :=
forall st, ready st -> exists a st', m st = Ret a st'.

Lemma same_table_refl : forall files, same_table files files.
Proof. intros files. split; reflexivity. Qed.

Lemma same_table_trans : forall a b c, same_table a b -> same_table b c -> same_table a c.
Proof.
intros a b c [K1 G1] [K2 G2]. split.
- congruence.
- intros name. rewrite G2, G1. reflexivity.
Qed.

Lemma kept_refl : forall st, kept st st.
Proof. intros st. split; [apply same_table_refl | reflexivity]. Qed.

Lemma kept_trans : forall a b c, kept a b -> kept b c -> kept a c.
Proof.
intros a b c [T1 S1] [T2 S2]. split.
- eapply same_table_trans; eassumption.
- congruence.
Qed.

Lemma kept_ready : forall st st', kept st st' -> ready st -> ready st'.
Proof.
intros st st' [_ S] [Hd [Ho Hp]]. unfold setup in S. injection S as F I P D.
unfold ready. rewrite F, I, P, D. repeat split; assumption.
Qed.

Lemma framed_kept : forall (W : string -> Prop) st st', framed W st st' -> kept st st'.
Proof.
intros W st st' H. pose proof (fr_config H) as C. unfold config in C.
injection C. intros. unfold kept, setup.
split; [| congruence].
replace (outputfiles st') with (outputfiles st) by congruence. apply same_table_refl.
Qed.

Lemma sat_ends : forall {A : Type} (W : string -> Prop) (m : M A),
    sat W m -> ends kept m.
Proof.
intros A W m H st. specialize (H st).
destruct (m st); try assumption; eapply framed_kept; eassumption.
Qed.

Section EndsRules.

Context {A B : Type}.
Variable R : Reporter -> Reporter -> Prop.
Hypothesis R_refl : forall st, R st st.
Hypothesis R_trans : forall a b c, R a b -> R b c -> R a c.

Lemma ends_ret : forall (a : A), ends R (ret a).
Proof. intros a st. apply R_refl. Qed.

Lemma ends_raise : forall e, ends R (@raise A e).
Proof. intros e st. apply R_refl. Qed.

Lemma ends_gets : forall (f : Reporter -> A), ends R (gets f).
Proof. intros f st. apply R_refl. Qed.

Lemma ends_bind : forall (m : M A) (f : A -> M B),
    ends R m -> (forall a, ends R (f a)) -> ends R (bind m f).
Proof.
intros m f Hm Hf st. unfold bind. specialize (Hm st).
destruct (m st) as [a st1|e st1|]; try assumption.
specialize (Hf a st1).
destruct (f a st1) as [b st2|e st2|]; try assumption; eapply R_trans; eassumption.
Qed.

Lemma ends_try : forall (m : M A) (h : exn -> M A),
    ends R m -> (forall e, ends R (h e)) -> ends R (try_except m h).
Proof.
intros m h Hm Hh st. unfold try_except. specialize (Hm st).
destruct (m st) as [a st1|e st1|]; try assumption.
specialize (Hh e st1).
destruct (h e st1) as [b st2|e' st2|]; try assumption; eapply R_trans; eassumption.
Qed.

End EndsRules.

Lemma returns_ret : forall {A : Type} (a : A), returns (ret a).
Proof. intros A a st _. exists a, st. reflexivity. Qed.

Lemma returns_gets : forall {A : Type} (f : Reporter -> A), returns (gets f).
Proof. intros A f st _. exists (f st), st. reflexivity. Qed.

Lemma returns_bind : forall {A B : Type} (m : M A) (f : A -> M B),
    returns m -> ends kept m -> (forall a, returns (f a)) -> returns (bind m f).
Proof.
intros A B m f Hm Hk Hf st Hready. unfold bind.
destruct (Hm st Hready) as [a [st1 E]]. specialize (Hk st). rewrite E in *.
apply Hf. eapply kept_ready; eassumption.
Qed.

Lemma returns_try : forall {A : Type} (m : M A) (h : exn -> M A),
    ends kept m -> (forall e, returns (h e)) -> returns (try_except m h).
Proof.
intros A m h Hk Hh st Hready. unfold try_except. specialize (Hk st).
destruct (m st) as [a st1|e st1|]; [| | contradiction].
- exists a, st1. reflexivity.
- apply Hh. eapply kept_ready; eassumption.
Qed.

Lemma resolve_total : forall fuel files orig_filename md5 filename num_char,
    1 <= fuel -> 34 <= fuel + num_char ->
    resolve fuel files orig_filename md5 filename num_char <> Unresolved.
Proof.
induction fuel as [|n IH]; intros files orig md5 filename num_char H1 H34; [lia |].
simpl. destruct (Dict.get filename files) as [existing|]; [| discriminate].
destruct (md5 =? of_md5 existing); [discriminate |].
destruct (num_char <=? 32)%nat eqn:E; simpl; [| discriminate].
apply Nat.leb_le in E. apply IH; lia.
Qed.

(** more fuel than the loop needs changes nothing *)
Lemma resolve_more_fuel : forall fuel extra files orig_filename md5 filename num_char,
    resolve fuel files orig_filename md5 filename num_char <> Unresolved ->
    resolve (fuel + extra) files orig_filename md5 filename num_char
    = resolve fuel files orig_filename md5 filename num_char.
Proof.
induction fuel as [|n IH]; intros extra files orig md5 filename num_char H; simpl in *.
- congruence.
- destruct (Dict.get filename files) as [existing|]; [| reflexivity].
  destruct (md5 =? of_md5 existing); [reflexivity |].
  destruct (num_char <=? 32)%nat; simpl in *; [| reflexivity].
  apply IH. exact H.
Qed.

Lemma resolve_fresh_absent : forall fuel files orig_filename md5 filename num_char name,
    resolve fuel files orig_filename md5 filename num_char = Fresh name ->
    Dict.get name files = None.
Proof.
induction fuel as [|n IH]; intros files orig md5 filename num_char name H; simpl in H.
- discriminate.
- destruct (Dict.get filename files) as [existing|] eqn:G.
  + destruct (md5 =? of_md5 existing); [discriminate |].
    destruct (num_char <=? 32)%nat; simpl in H; [| discriminate].
    eapply IH. exact H.
  + injection H as <-. exact G.
Qed.

(** the name the loop ends with is the requested one or the requested one
    with a prefix of the hash, of 5 to 32 characters, appended *)
Lemma resolve_fresh_name : forall fuel files orig_filename md5 filename num_char name,
    resolve fuel files orig_filename md5 filename num_char = Fresh name ->
    name = filename
    \/ exists k, num_char <= k <= 32 /\ name = orig_filename ++ "_" ++ Str.take k md5.
Proof.
induction fuel as [|n IH]; intros files orig md5 filename num_char name H; simpl in H.
- discriminate.
- destruct (Dict.get filename files) as [existing|] eqn:G.
  + destruct (md5 =? of_md5 existing); [discriminate |].
    destruct (num_char <=? 32)%nat eqn:E; simpl in H; [| discriminate].
    apply Nat.leb_le in E. right.
    destruct (IH _ _ _ _ _ _ H) as [->|[k [Hk ->]]].
    * exists num_char. split; [lia | reflexivity].
    * exists k. split; [lia | reflexivity].
  + injection H as <-. left. reflexivity.
Qed.

Lemma resolve_duplicate_record : forall fuel files orig_filename md5 filename num_char name,
    resolve fuel files orig_filename md5 filename num_char = Duplicate name ->
    exists r, Dict.get name files = Some r /\ of_md5 r = md5.
Proof.
induction fuel as [|n IH]; intros files orig md5 filename num_char name H; simpl in H.
- discriminate.
- destruct (Dict.get filename files) as [existing|] eqn:G; [| discriminate].
  destruct (md5 =? of_md5 existing) eqn:E.
  + injection H as <-. exists existing. split; [exact G |].
    apply String.eqb_eq in E. symmetry. exact E.
  + destruct (num_char <=? 32)%nat; simpl in H; [| discriminate].
    eapply IH. exact H.
Qed.

(** the loop reads the names and the hashes of the table only *)
Lemma resolve_same : forall fuel files files' orig_filename md5 filename num_char,
    (forall name, option_map unpath (Dict.get name files')
                  = option_map unpath (Dict.get name files)) ->
    resolve fuel files' orig_filename md5 filename num_char
    = resolve fuel files orig_filename md5 filename num_char.
Proof.
induction fuel as [|n IH]; intros files files' orig md5 filename num_char H; simpl.
- reflexivity.
- pose proof (H filename) as Hf.
  destruct (Dict.get filename files) as [e|], (Dict.get filename files') as [e'|];
    simpl in Hf; try discriminate; [| reflexivity].
  injection Hf as _ _ Hmd5. rewrite Hmd5.
  destruct (md5 =? of_md5 e); [reflexivity |].
  destruct (num_char <=? 32)%nat; simpl in *; [| reflexivity].
  apply IH. exact H.
Qed.

(** once the content is stored under the name the loop ended with, the
    loop ends on that record *)
Lemma resolve_after_store : forall fuel files files' orig_filename md5 filename num_char name,
    resolve fuel files orig_filename md5 filename num_char = Fresh name ->
    (forall other, other <> name ->
                   option_map unpath (Dict.get other files')
                   = option_map unpath (Dict.get other files)) ->
    (exists r, Dict.get name files' = Some r /\ of_md5 r = md5) ->
    resolve fuel files' orig_filename md5 filename num_char = Duplicate name.
Proof.
induction fuel as [|n IH];
  intros files files' orig md5 filename num_char name H Hother [r [Hr Hmd5]]; simpl in *.
- discriminate.
- destruct (Dict.get filename files) as [existing|] eqn:G.
  + destruct (md5 =? of_md5 existing) eqn:E; [discriminate |].
    destruct (num_char <=? 32)%nat eqn:E32; simpl in H; [| discriminate].
    assert (Hne : filename <> name).
    { intros ->. rewrite (resolve_fresh_absent _ _ _ _ _ _ _ H) in G. discriminate. }
    pose proof (Hother filename Hne) as Hf. rewrite G in Hf.
    destruct (Dict.get filename files') as [e'|]; simpl in Hf; [| discriminate].
    injection Hf as _ _ He. rewrite He, E. simpl.
    apply IH with (files := files); try assumption.
    exists r. split; assumption.
  + injection H as <-. rewrite Hr, Hmd5, String.eqb_refl. reflexivity.
Qed.

Lemma append_not_self : forall a b, b <> "" -> a ++ b <> a.
Proof.
induction a as [|c a IH]; intros b Hb; simpl.
- exact Hb.
- intros H. injection H as H. exact (IH b Hb H).
Qed.

Lemma unpath_get : forall (files : Dict.t OutputFile) name d ds m,
    option_map unpath (Dict.get name files) = Some (d, ds, m) ->
    exists r, Dict.get name files = Some r
              /\ of_data r = d /\ of_description r = ds /\ of_md5 r = m.
Proof.
intros files name d ds m H.
destruct (Dict.get name files) as [r|]; simpl in H; [| discriminate].
injection H as H1 H2 H3. exists r. repeat split; assumption.
Qed.

(** if the loop ends on the assertion, the requested name and every
    suffixed name are taken by other contents *)
Lemma resolve_overflow_taken : forall fuel files orig_filename md5 filename num_char,
    resolve fuel files orig_filename md5 filename num_char = Overflow ->
    (exists r, Dict.get filename files = Some r /\ of_md5 r <> md5)
    /\ forall k, num_char <= k <= 32 ->
                 exists r, Dict.get (orig_filename ++ "_" ++ Str.take k md5) files = Some r
                           /\ of_md5 r <> md5.
Proof.
induction fuel as [|n IH]; intros files orig md5 filename num_char H; simpl in H.
- discriminate.
- destruct (Dict.get filename files) as [existing|] eqn:G; [| discriminate].
  destruct (md5 =? of_md5 existing) eqn:E; [discriminate |].
  apply String.eqb_neq in E.
  split; [exists existing; split; [reflexivity | congruence] |].
  destruct (num_char <=? 32)%nat eqn:E32; simpl in H.
  + apply Nat.leb_le in E32. destruct (IH _ _ _ _ _ H) as [Hhere Hrest].
    intros k Hk. destruct (Nat.eq_dec k num_char) as [->|Hne].
    * exact Hhere.
    * apply Hrest. lia.
  + apply Nat.leb_gt in E32. intros k Hk. lia.
Qed.

Lemma md5_nonempty : forall data, Hashlib.md5 data <> "".
Proof.
intros data. unfold Hashlib.md5, Hashlib.digest.
destruct (Hashlib.blocks _ _ _) as [[[a b] c] d].
change (Hashlib.le_bytes 4 a)
  with (Z.land a 255 :: Hashlib.le_bytes 3 (Z.shiftr a 8)).
rewrite <- app_comm_cons. cbn [map].
match goal with |- String.concat "" (_ :: ?l) <> "" => generalize l end.
intros l. unfold Hashlib.hex_byte. destruct l; simpl; discriminate.
Qed.

(** a computation that returns [None] when it returns *)
Definition yields_none (m : M value) : Prop :=
forall st v s, m st = Ret v s -> v = VNone.

Lemma yields_none_bind : forall {A : Type} (m : M A) (f : A -> M value),
    (forall a, yields_none (f a)) -> yields_none (bind m f).
Proof.
intros A m f Hf st v s. unfold bind.
destruct (m st) as [a st1|e st1|]; try discriminate. apply Hf.
Qed.

Lemma yields_none_ret : yields_none (ret VNone).
Proof. intros st v s H. injection H as <- _. reflexivity. Qed.

Section OutputFile_properties.

Variable convert_to_unicode : value -> option string.
Variable level_char : Z -> string.
Hypothesis convert_str : forall s, convert_to_unicode (VStr s) = Some s.

Let report : intake := add_metadata convert_to_unicode level_char.

Lemma sat_report_log : forall level message exc,
    sat (fun _ => True) (log_record level_char report level message exc).
Proof.
intros level message exc. apply sat_log_record. intros msg _.
apply sat_weaken with (W' := writes "debug"); [intros; exact I |].
apply add_metadata_sat. exact convert_str.
Qed.

Lemma rename_loop_resolve : forall fuel orig_filename md5 filename num_char st,
    rename_loop convert_to_unicode level_char fuel orig_filename md5 filename num_char st
    = match resolve fuel (outputfiles st) orig_filename md5 filename num_char with
      | Fresh name => Ret (Some name) st
      | Duplicate name =>
        (log_info level_char report ("Ignoring duplicate output file: " ++ name) ;;
         ret None) st
      | Overflow => Raise AssertionError st
      | Unresolved => OutOfFuel
      end.
Proof.
induction fuel as [|n IH]; intros orig md5 filename num_char st; simpl.
- reflexivity.
- unfold bind at 1. unfold gets at 1.
  destruct (Dict.get filename (outputfiles st)) as [existing|]; [| reflexivity].
  destruct (md5 =? of_md5 existing); [reflexivity |].
  destruct (num_char <=? 32)%nat; simpl; [apply IH | reflexivity].
Qed.

Lemma ends_write_file : forall fullpath data, ends kept (write_file fullpath data).
Proof.
intros fullpath data st. unfold write_file, bind, gets.
destruct (existsb (String.eqb fullpath) (read_only st)); simpl;
  (split; [apply same_table_refl | reflexivity]).
Qed.

Lemma ends_set_path : forall filename fullpath, ends kept (set_path filename fullpath).
Proof.
intros filename fullpath st. unfold set_path, bind, gets.
destruct (Dict.get filename (outputfiles st)) as [r|] eqn:G; simpl;
  [| apply kept_refl].
split; [| reflexivity]. split; simpl.
- apply DictFacts.keys_set_present. unfold Dict.mem. rewrite G. reflexivity.
- intros name. destruct (String.eqb_spec name filename) as [->|Hne].
  + rewrite DictFacts.get_set_same, G. reflexivity.
  + rewrite DictFacts.get_set_other by exact Hne. reflexivity.
Qed.

Lemma ends_report_log : forall level message exc,
    ends kept (log_record level_char report level message exc).
Proof. intros. eapply sat_ends. apply sat_report_log. Qed.

Lemma ends_report : forall key v, ends kept (report key v).
Proof. intros. eapply sat_ends. apply add_metadata_sat. exact convert_str. Qed.

(** what follows the entry of the record in [save_output] *)
Definition after_entry (data description md5 filename : string) : M value :=
b64 <- gets base64_output_files ;;
(if b64
 then report "outputfile" (strs [Posixpath.basename filename; description; md5;
                                 Base64.b64encode data])
 else report "outputfile" (strs [Posixpath.basename filename; description; md5])) ;;
disabled <- gets disable_output_files ;;
if disabled then ret VNone
else
  prefix <- gets output_file_prefix ;;
  dir <- gets output_dir ;;
  fullpath <-
    (if negb (prefix =? "") then
       if prefix =? "md5" then
         input <- gets input_file ;;
         match input with
         | Some input_md5 =>
           ret (Posixpath.join dir (input_md5 ++ "_" ++ Posixpath.basename filename))
         | None => raise (AttributeError "'NoneType' object has no attribute 'md5'")
         end
       else ret (Posixpath.join dir (prefix ++ "_" ++ Posixpath.basename filename))
     else ret (Posixpath.join dir (Posixpath.basename filename))) ;;
  try_except
    (write_file fullpath data ;;
     log_info level_char report ("Output file: " ++ fullpath) ;;
     set_path filename fullpath)
    (fun e =>
       log_error level_char report
                 ("Failed to write output file: " ++ fullpath ++ ", " ++ exn_str e)) ;;
  ret VNone.

Lemma save_output_unfold : forall data orig_filename description md5 filename,
    save_output convert_to_unicode level_char data orig_filename description md5 filename
    = (when (negb (orig_filename =? filename))
            (log_info level_char report
                      ("Renamed " ++ orig_filename ++ " to " ++ filename)) ;;
       modify (fun st => set_outputfiles
                           (entered data description md5 filename (outputfiles st)) st) ;;
       after_entry data description md5 filename).
Proof. reflexivity. Qed.

Lemma ends_after_entry : forall data description md5 filename,
    ends kept (after_entry data description md5 filename).
Proof.
intros data description md5 filename. unfold after_entry.
repeat first
       [ apply ends_ret; apply kept_refl
       | apply ends_raise; apply kept_refl
       | apply ends_gets; apply kept_refl
       | apply ends_report
       | apply ends_write_file
       | apply ends_set_path
       | apply ends_report_log
       | apply ends_bind; [apply kept_trans | | intros ?]
       | apply ends_try; [apply kept_trans | | intros ?]
       | match goal with
         | |- ends _ (if ?b then _ else _) => destruct b
         | |- ends _ (match ?x with _ => _ end) => destruct x
         | |- ends _ (log_info _ _ _) => unfold log_info
         | |- ends _ (log_error _ _ _) => unfold log_error
         end ].
Qed.

(** A report with values on a field of the schema returns. *)
Lemma report_known_returns : forall key v st,
    Dict.mem key (fields st) = true ->
    empty_value v = Some false ->
    exists st', report key v st = Ret tt st' /\ framed (writes key) st st'.
Proof.
intros key v st Hkey Hv.
unfold report, add_metadata, cascade_depth.
change (add_metadata_rec convert_to_unicode level_char 5)
  with (add_metadata_body convert_to_unicode level_char
          (add_metadata_rec convert_to_unicode level_char 4)).
unfold add_metadata_body, convert.
rewrite convert_str, bind_ret, (no_values_empty v false Hv), bind_ret.
unfold bind at 1. unfold gets at 1.
unfold Dict.mem in Hkey.
destruct (Dict.get key (fields st)) as [fieldtype|]; [| discriminate].
match goal with
| |- exists st', try_except ?m ?h st = _ /\ _ =>
  destruct (try_log_exception level_char (writes key)
              (add_metadata_rec convert_to_unicode level_char 4) m
              ("Error adding metadata for key: " ++ key) st)
    as [st' [Hrun [Hframed _]]]
end.
- pose proof (good_4 convert_to_unicode level_char convert_str) as Hgood.
  pose proof (rank_le_4 key) as Hrank.
  apply sat_bind; [| intros _; apply sat_bind; [| intros _]]; apply sat_when; intros _.
  + apply sat_listofstrings with (n := 4);
      first [exact convert_str | exact Hgood | exact Hrank | lia].
  + apply sat_listofstringtuples with (n := 4);
      first [exact convert_str | exact Hgood | exact Hrank | lia].
  + apply sat_dictofstrings with (n := 4);
      first [exact convert_str | exact Hgood | exact Hrank | lia].
- exists st'. split; assumption.
Qed.

Lemma log_returns : forall level message exc st,
    Dict.mem "debug" (fields st) = true ->
    exists st',
      log_record level_char report level message exc st = Ret tt st'
      /\ framed (fun _ => True) st st'.
Proof.
intros level message exc st Hdebug.
pose proof (sat_report_log level message exc st) as Hsat.
destruct (log_record level_char report level message exc st) as [[] st'|e st'|] eqn:E;
  [exists st'; split; [reflexivity | exact Hsat] | exfalso | contradiction].
unfold log_record, bind, modify, gets, when in E.
match type of E with
| context [if ?b then _ else _] => destruct b
end; [| discriminate].
unfold emit in E.
destruct (WARNING <? level)%Z; [discriminate |].
destruct ((INFO <=? level) && (level <=? WARNING))%Z; [| discriminate].
match type of E with
| report _ ?v ?s = _ =>
  destruct (report_known_returns "debug" v s) as [s' [Hrun _]]
end.
- exact Hdebug.
- destruct (format_record level_char level message exc) eqn:F; [| reflexivity].
  exfalso. exact (format_record_nonempty level_char level message exc F).
- congruence.
Qed.

Lemma returns_log : forall level message exc,
    returns (log_record level_char report level message exc).
Proof.
intros level message exc st [Hdebug _].
destruct (log_returns level message exc st Hdebug) as [st' [Hrun _]].
exists tt, st'. exact Hrun.
Qed.

Lemma after_entry_none : forall data description md5 filename,
    yields_none (after_entry data description md5 filename).
Proof.
intros data description md5 filename. unfold after_entry.
apply yields_none_bind. intros b64.
apply yields_none_bind. intros _.
apply yields_none_bind. intros disabled.
destruct disabled; [apply yields_none_ret |].
repeat (apply yields_none_bind; intros ?). apply yields_none_ret.
Qed.

Lemma after_entry_returns : forall data description md5 filename st,
    md5 <> "" ->
    ready st ->
    exists s, after_entry data description md5 filename st = Ret VNone s /\ kept st s.
Proof.
intros data description md5 filename st Hmd5 Hready.
pose proof (ends_after_entry data description md5 filename st) as Hends.
pose proof (after_entry_none data description md5 filename st) as Hnone.
assert (Hret : exists v s, after_entry data description md5 filename st = Ret v s).
{ clear Hends Hnone. unfold after_entry.
  unfold bind at 1. unfold gets at 1.
  assert (Hreport : forall vals, some_text vals = true ->
             exists st1, report "outputfile" (strs vals) st = Ret tt st1 /\ kept st st1).
  { intros vals Hvals. destruct Hready as [_ [Hout _]].
    destruct (report_known_returns "outputfile" (strs vals) st Hout
                (empty_value_strs vals Hvals)) as [st1 [Hrun Hframed]].
    exists st1. split; [exact Hrun | eapply framed_kept; exact Hframed]. }
  assert (Hsome : forall more, some_text (Posixpath.basename filename :: description
                                          :: md5 :: more) = true).
  { intros more. unfold some_text. simpl. apply String.eqb_neq in Hmd5. rewrite Hmd5.
    simpl. rewrite !orb_true_r. reflexivity. }
  assert (Hstep : exists st1,
             (if base64_output_files st
              then report "outputfile"
                          (strs [Posixpath.basename filename; description; md5;
                                 Base64.b64encode data])
              else report "outputfile"
                          (strs [Posixpath.basename filename; description; md5])) st
             = Ret tt st1 /\ kept st st1).
  { destruct (base64_output_files st); apply Hreport; apply Hsome. }
  destruct Hstep as [st1 [Hrun Hkept]].
  unfold bind at 1. rewrite Hrun.
  pose proof (kept_ready st st1 Hkept Hready) as Hready1.
  unfold bind at 1. unfold gets at 1.
  destruct (disable_output_files st1) eqn:Hdis; [eexists; eexists; reflexivity |].
  unfold bind at 1. unfold gets at 1. unfold bind at 1. unfold gets at 1.
  assert (Hpath : exists fullpath,
             (if negb (output_file_prefix st1 =? "")
              then
                if output_file_prefix st1 =? "md5"
                then
                  input <- gets input_file ;;
                  match input with
                  | Some input_md5 =>
                    ret (Posixpath.join (output_dir st1)
                           (input_md5 ++ "_" ++ Posixpath.basename filename))
                  | None =>
                    raise (AttributeError "'NoneType' object has no attribute 'md5'")
                  end
                else ret (Posixpath.join (output_dir st1)
                            (output_file_prefix st1 ++ "_" ++ Posixpath.basename filename))
              else ret (Posixpath.join (output_dir st1) (Posixpath.basename filename))) st1
             = Ret fullpath st1).
  { destruct Hready1 as [_ [_ Hp]].
    destruct (negb (output_file_prefix st1 =? "")); [| eexists; reflexivity].
    destruct (output_file_prefix st1 =? "md5") eqn:Emd5; [| eexists; reflexivity].
    unfold bind, gets.
    destruct (input_file st1) as [input_md5|]; [eexists; reflexivity |].
    exfalso. destruct Hp as [Hp|[Hp|Hp]]; congruence. }
  destruct Hpath as [fullpath Hpath].
  unfold bind at 1. rewrite Hpath.
  assert (Hlast : returns
                    (try_except
                       (write_file fullpath data ;;
                        log_info level_char report ("Output file: " ++ fullpath) ;;
                        set_path filename fullpath)
                       (fun e =>
                          log_error level_char report
                                    ("Failed to write output file: " ++ fullpath ++ ", "
                                     ++ exn_str e)) ;;
                     ret VNone)).
  { apply returns_bind.
    - apply returns_try.
      + apply ends_bind; [apply kept_trans | apply ends_write_file | intros _].
        apply ends_bind; [apply kept_trans | apply ends_report_log | intros _].
        apply ends_set_path.
      + intros e. apply returns_log.
    - apply ends_try; [apply kept_trans | | intros e; apply ends_report_log].
      apply ends_bind; [apply kept_trans | apply ends_write_file | intros _].
      apply ends_bind; [apply kept_trans | apply ends_report_log | intros _].
      apply ends_set_path.
    - intros _. apply returns_ret. }
  apply Hlast. exact Hready1. }
destruct Hret as [v [s Hrun]]. rewrite Hrun in Hends.
rewrite (Hnone v s Hrun) in Hrun.
exists s. split; assumption.
Qed.

Lemma ready_set_outputfiles : forall files st, ready st -> ready (set_outputfiles files st).
Proof. intros files st H. exact H. Qed.

Lemma save_output_returns : forall data orig_filename description md5 filename st,
    md5 <> "" ->
    ready st ->
    exists s,
      save_output convert_to_unicode level_char data orig_filename description md5
                  filename st = Ret VNone s
      /\ ready s
      /\ same_table (entered data description md5 filename (outputfiles st))
                    (outputfiles s).
Proof.
intros data orig description md5 filename st Hmd5 Hready.
rewrite save_output_unfold. unfold bind at 1.
assert (Hlog : exists st1,
           when (negb (orig =? filename))
                (log_info level_char report ("Renamed " ++ orig ++ " to " ++ filename)) st
           = Ret tt st1
           /\ outputfiles st1 = outputfiles st /\ ready st1).
{ destruct (negb (orig =? filename)); simpl.
  - destruct Hready as [Hdebug Hrest].
    destruct (log_returns INFO ("Renamed " ++ orig ++ " to " ++ filename) None st Hdebug)
      as [st1 [Hrun Hframed]].
    exists st1. split; [exact Hrun |]. split.
    + eapply framed_outputfiles. exact Hframed.
    + eapply kept_ready; [eapply framed_kept; exact Hframed |]. split; assumption.
  - exists st. repeat split; try reflexivity; apply Hready. }
destruct Hlog as [st1 [Hrun [Hfiles Hready1]]]. rewrite Hrun.
unfold bind at 1. unfold modify at 1.
destruct (after_entry_returns data description md5 filename
            (set_outputfiles (entered data description md5 filename (outputfiles st1)) st1)
            Hmd5 (ready_set_outputfiles _ st1 Hready1)) as [s [Hafter [Htable Hsetup]]].
exists s. split; [exact Hafter |]. split.
- eapply kept_ready; [split; eassumption |].
  apply ready_set_outputfiles. exact Hready1.
- simpl in Htable. rewrite Hfiles in Htable. exact Htable.
Qed.

(** how a call of [output_file] ends when nothing it calls can raise *)
Lemma output_file_cases : forall data filename description st,
    ready st ->
    match resolve 32 (outputfiles st) filename (Hashlib.md5 data) filename 5 with
    | Fresh name =>
      exists s,
        output_file convert_to_unicode level_char data filename description st = Ret VNone s
        /\ ready s
        /\ same_table (entered data description (Hashlib.md5 data) name (outputfiles st))
                      (outputfiles s)
    | Duplicate name =>
      exists s,
        output_file convert_to_unicode level_char data filename description st = Ret VNone s
        /\ ready s
        /\ outputfiles s = outputfiles st
    | Overflow =>
      output_file convert_to_unicode level_char data filename description st
      = Raise AssertionError st
    | Unresolved => False
    end.
Proof.
intros data filename description st Hready.
destruct (resolve 32 (outputfiles st) filename (Hashlib.md5 data) filename 5) eqn:R;
  unfold output_file; try (unfold bind at 1; rewrite rename_loop_resolve, R).
- apply save_output_returns; [apply md5_nonempty | exact Hready].
- destruct Hready as [Hdebug Hrest].
  unfold log_info, bind.
  destruct (log_returns INFO ("Ignoring duplicate output file: " ++ name) None st Hdebug)
    as [st1 [Hrun Hframed]].
  rewrite Hrun. exists st1. split; [reflexivity |]. split.
  + eapply kept_ready; [eapply framed_kept; exact Hframed |]. split; assumption.
  + eapply framed_outputfiles. exact Hframed.
- reflexivity.
- apply (resolve_total 32 (outputfiles st) filename (Hashlib.md5 data) filename 5);
    [lia | lia | exact R].
Qed.

(** [output_file] returns [None] whenever it returns *)
Lemma output_file_none : forall data filename description,
    yields_none (output_file convert_to_unicode level_char data filename description).
Proof.
intros data filename description. unfold output_file.
apply yields_none_bind. intros [name|]; [| apply yields_none_ret].
rewrite save_output_unfold.
apply yields_none_bind. intros _. apply yields_none_bind. intros _.
apply after_entry_none.
Qed.

(** [output_file] never runs out of fuel *)
Lemma output_file_ends : forall data filename description st,
    exists s, final (output_file convert_to_unicode level_char data filename description st)
              = Some s.
Proof.
intros data filename description st.
assert (H : ends (fun _ _ => True)
                 (output_file convert_to_unicode level_char data filename description)).
{ clear st. unfold output_file. apply ends_bind; [auto | |].
  - intros st. rewrite rename_loop_resolve.
    pose proof (resolve_total 32 (outputfiles st) filename (Hashlib.md5 data) filename 5)
      as Htotal.
    destruct (resolve 32 (outputfiles st) filename (Hashlib.md5 data) filename 5);
      try exact I; [| apply Htotal; [lia | lia | reflexivity]].
    pose proof (ends_report_log INFO ("Ignoring duplicate output file: " ++ name) None st)
      as Hlog.
    unfold log_info, bind.
    destruct (log_record level_char report INFO _ None st); try exact I. exact Hlog.
  - intros [name|]; [| intros st; exact I].
    rewrite save_output_unfold.
    apply ends_bind; [auto | | intros _].
    + intros st. pose proof (ends_report_log INFO
                               ("Renamed " ++ filename ++ " to " ++ name) None st) as Hlog.
      unfold when, log_info. destruct (negb (filename =? name)); [| exact I].
      destruct (log_record level_char report INFO _ None st); try exact I. exact Hlog.
    + apply ends_bind; [auto | intros st; exact I | intros _].
      intros st. pose proof (ends_after_entry data description (Hashlib.md5 data) name st).
      destruct (after_entry data description (Hashlib.md5 data) name st);
        try exact I; assumption. }
specialize (H st).
destruct (output_file convert_to_unicode level_char data filename description st)
  as [v s|e s|]; [exists s; reflexivity | exists s; reflexivity | contradiction].
Qed.

(** *** The renaming loop *)

(** The renaming loop of [output_file] ends within 29 evaluations of its
    condition, the suffix starting at 5 characters and growing by one at
    each turn.  It ends with a stored name that is not in the table (the
    requested name, or the requested name with the first 5 to 32
    characters of the hash appended), or on a record of the same content;
    when the requested name and all 28 suffixed names are taken by other
    contents, it fails its assertion. *)
Theorem rename_loop_terminates : forall data filename st fuel,
    29 <= fuel ->
    let md5 := Hashlib.md5 data in
    let loop := rename_loop convert_to_unicode level_char fuel filename md5 filename 5 st in
    loop <> OutOfFuel
    /\ loop = rename_loop convert_to_unicode level_char 29 filename md5 filename 5 st
    /\ ((exists name,
            loop = Ret (Some name) st
            /\ Dict.get name (outputfiles st) = None
            /\ (name = filename
                \/ exists k, 5 <= k <= 32 /\ name = filename ++ "_" ++ Str.take k md5))
        \/ (exists name r,
               Dict.get name (outputfiles st) = Some r
               /\ of_md5 r = md5
               /\ loop = (log_info level_char report
                                   ("Ignoring duplicate output file: " ++ name) ;;
                          ret None) st)
        \/ (loop = Raise AssertionError st
            /\ (exists r, Dict.get filename (outputfiles st) = Some r /\ of_md5 r <> md5)
            /\ forall k, 5 <= k <= 32 ->
                         exists r, Dict.get (filename ++ "_" ++ Str.take k md5)
                                            (outputfiles st) = Some r
                                   /\ of_md5 r <> md5)).
Proof.
intros data filename st fuel Hfuel md5 loop.
pose proof (resolve_total 29 (outputfiles st) filename md5 filename 5) as Htotal.
assert (H29 : resolve 29 (outputfiles st) filename md5 filename 5 <> Unresolved)
  by (apply Htotal; lia).
assert (Hsame : resolve fuel (outputfiles st) filename md5 filename 5
                = resolve 29 (outputfiles st) filename md5 filename 5).
{ replace fuel with (29 + (fuel - 29)) by lia. apply resolve_more_fuel. exact H29. }
assert (Hloop : loop = rename_loop convert_to_unicode level_char 29 filename md5 filename 5 st).
{ unfold loop. rewrite !rename_loop_resolve, Hsame. reflexivity. }
unfold loop in *. clear loop. rewrite rename_loop_resolve in *. rewrite Hsame in *.
destruct (resolve 29 (outputfiles st) filename md5 filename 5) eqn:R.
- split; [discriminate |]. split; [exact Hloop |]. left. exists name.
  split; [reflexivity |]. split.
  + eapply resolve_fresh_absent. exact R.
  + eapply resolve_fresh_name. exact R.
- split.
  + pose proof (ends_report_log INFO ("Ignoring duplicate output file: " ++ name) None st)
      as Hlog.
    unfold log_info, bind.
    destruct (log_record level_char report INFO _ None st);
      [discriminate | discriminate | contradiction].
  + split; [exact Hloop |]. right. left.
    destruct (resolve_duplicate_record _ _ _ _ _ _ _ R) as [r [Hr Hmd5]].
    exists name, r. repeat split; assumption.
- split; [discriminate |]. split; [exact Hloop |]. right. right.
  split; [reflexivity |]. eapply resolve_overflow_taken. exact R.
- contradiction.
Qed.

(** *** Recording a file twice *)

Lemma entered_fresh : forall data description md5 filename files files',
    Dict.get filename files = None ->
    same_table (entered data description md5 filename files) files' ->
    Dict.keys files' = (Dict.keys files ++ [filename])%list
    /\ (exists r, Dict.get filename files' = Some r
                  /\ of_data r = data /\ of_description r = description /\ of_md5 r = md5)
    /\ forall other, other <> filename ->
                     option_map unpath (Dict.get other files')
                     = option_map unpath (Dict.get other files).
Proof.
intros data description md5 filename files files' Habsent [Hkeys Hget].
unfold entered in *. split; [| split].
- rewrite Hkeys, (DictFacts.set_absent files filename _ Habsent).
  unfold Dict.keys. rewrite map_app. reflexivity.
- apply unpath_get. rewrite Hget, DictFacts.get_set_same. reflexivity.
- intros other Hne. rewrite Hget, DictFacts.get_set_other by exact Hne. reflexivity.
Qed.

(** the first call on a name that is not in the table stores the content
    under that name *)
Lemma output_file_fresh : forall data filename description st,
    ready st ->
    Dict.get filename (outputfiles st) = None ->
    exists st1,
      output_file convert_to_unicode level_char data filename description st = Ret VNone st1
      /\ ready st1
      /\ same_table (entered data description (Hashlib.md5 data) filename (outputfiles st))
                    (outputfiles st1).
Proof.
intros data filename description st Hready Habsent.
pose proof (output_file_cases data filename description st Hready) as H.
change 32 with (S 31) in H. cbn [resolve] in H. rewrite Habsent in H. exact H.
Qed.

(** C3 (as amended).  In a reporter in which nothing that [output_file]
    calls can raise, and for a requested name that is not in the table
    yet: two calls with the same data create exactly one record, under the
    requested name, and the second call leaves the table as it is; two
    calls with data of different hashes create two records under two
    distinct stored names, the second being the requested name followed by
    ["_"] and the first five characters of the hash of the new content
    (that name being free).  Every call returns [None], never a name. *)
Theorem output_file_twice : forall data1 data2 filename description1 description2 st,
    ready st ->
    Dict.get filename (outputfiles st) = None ->
    (exists st1 st2 r,
        output_file convert_to_unicode level_char data1 filename description1 st
        = Ret VNone st1
        /\ output_file convert_to_unicode level_char data1 filename description2 st1
           = Ret VNone st2
        /\ Dict.keys (outputfiles st1) = (Dict.keys (outputfiles st) ++ [filename])%list
        /\ Dict.get filename (outputfiles st1) = Some r
        /\ of_data r = data1
        /\ of_md5 r = Hashlib.md5 data1
        /\ outputfiles st2 = outputfiles st1)
    /\ (Hashlib.md5 data1 <> Hashlib.md5 data2 ->
        let name2 := filename ++ "_" ++ Str.take 5 (Hashlib.md5 data2) in
        Dict.get name2 (outputfiles st) = None ->
        exists st1 st2 r1 r2,
          output_file convert_to_unicode level_char data1 filename description1 st
          = Ret VNone st1
          /\ output_file convert_to_unicode level_char data2 filename description2 st1
             = Ret VNone st2
          /\ Dict.keys (outputfiles st2)
             = (Dict.keys (outputfiles st) ++ [filename; name2])%list
          /\ Dict.get filename (outputfiles st2) = Some r1
          /\ of_data r1 = data1
          /\ Dict.get name2 (outputfiles st2) = Some r2
          /\ of_data r2 = data2
          /\ name2 <> filename).
Proof.
intros data1 data2 filename description1 description2 st Hready Habsent.
destruct (output_file_fresh data1 filename description1 st Hready Habsent)
  as [st1 [Hrun1 [Hready1 Htable1]]].
destruct (entered_fresh _ _ _ _ _ _ Habsent Htable1)
  as [Hkeys1 [[r [Hr [Hdata [Hdesc Hmd5]]]] Hother1]].
split.
- pose proof (output_file_cases data1 filename description2 st1 Hready1) as H2.
  rewrite (resolve_after_store 32 (outputfiles st) (outputfiles st1) filename
             (Hashlib.md5 data1) filename 5 filename) in H2.
  + destruct H2 as [st2 [Hrun2 [_ Hfiles2]]].
    exists st1, st2, r. repeat split; assumption.
  + change 32 with (S 31). cbn [resolve]. rewrite Habsent. reflexivity.
  + exact Hother1.
  + exists r. split; assumption.
- intros Hdiff name2 Habsent2.
  assert (Hname : name2 <> filename).
  { unfold name2. apply append_not_self. discriminate. }
  assert (Habsent2' : Dict.get name2 (outputfiles st1) = None).
  { pose proof (Hother1 name2 Hname) as H. rewrite Habsent2 in H.
    destruct (Dict.get name2 (outputfiles st1)); [discriminate | reflexivity]. }
  pose proof (output_file_cases data2 filename description2 st1 Hready1) as H2.
  assert (Hres : resolve 32 (outputfiles st1) filename (Hashlib.md5 data2) filename 5
                 = Fresh name2).
  { change 32 with (S (S 30)). cbn [resolve]. rewrite Hr, Hmd5.
    apply not_eq_sym in Hdiff. apply String.eqb_neq in Hdiff. rewrite Hdiff.
    change (negb (5 <=? 32)%nat) with false. cbv iota.
    fold name2. rewrite Habsent2'. reflexivity. }
  rewrite Hres in H2. destruct H2 as [st2 [Hrun2 [_ Htable2]]].
  destruct (entered_fresh _ _ _ _ _ _ Habsent2' Htable2)
    as [Hkeys2 [[r2 [Hr2 [Hdata2 _]]] Hother2]].
  pose proof (Hother2 filename (not_eq_sym Hname)) as Hf. rewrite Hr in Hf.
  destruct (Dict.get filename (outputfiles st2)) as [r1|] eqn:Hr1; [| discriminate].
  simpl in Hf. injection Hf as Hd1 _ _.
  exists st1, st2, r1, r2.
  repeat split; try assumption.
  + rewrite Hkeys2, Hkeys1, <- app_assoc. reflexivity.
  + congruence.
Qed.

End OutputFile_properties.

(** [output_file] with the instance of the two helpers *)
Definition output_file_model : string -> string -> string -> M value :=
output_file to_unicode_model level_char_model.

Lemma run_start_ready : ready (run_start fields_json).
Proof. split; [reflexivity |]. split; [reflexivity |]. left. reflexivity. Qed.

(** C3, as stated, fails: the second call with the same name and the same
    data returns [None], not the stored name. *)
Lemma output_file_does_not_return_the_name :
  exists st1 st2,
    output_file_model "data" "a.txt" "" (run_start fields_json) = Ret VNone st1
    /\ output_file_model "data" "a.txt" "" st1 = Ret VNone st2
    /\ Dict.keys (outputfiles st2) = ["a.txt"]
    /\ VNone <> VStr "a.txt".
Proof.
eexists. eexists. split; [vm_compute; reflexivity |].
split; [vm_compute; reflexivity |].
split; [reflexivity | discriminate].
Qed.

Lemma output_file_twice_witness :
  ready (run_start fields_json)
  /\ Dict.get "a.txt" (outputfiles (run_start fields_json)) = None
  /\ (exists st1 st2 r,
         output_file_model "first" "a.txt" "" (run_start fields_json) = Ret VNone st1
         /\ output_file_model "first" "a.txt" "" st1 = Ret VNone st2
         /\ Dict.keys (outputfiles st1)
            = (Dict.keys (outputfiles (run_start fields_json)) ++ ["a.txt"])%list
         /\ Dict.get "a.txt" (outputfiles st1) = Some r
         /\ of_data r = "first"
         /\ of_md5 r = Hashlib.md5 "first"
         /\ outputfiles st2 = outputfiles st1)
  /\ (exists st1 st2 r1 r2,
         output_file_model "first" "a.txt" "" (run_start fields_json) = Ret VNone st1
         /\ output_file_model "second" "a.txt" "" st1 = Ret VNone st2
         /\ Dict.keys (outputfiles st2)
            = (Dict.keys (outputfiles (run_start fields_json))
               ++ ["a.txt"; ("a.txt" ++ "_" ++ Str.take 5 (Hashlib.md5 "second"))%string])%list
         /\ Dict.get "a.txt" (outputfiles st2) = Some r1
         /\ of_data r1 = "first"
         /\ Dict.get ("a.txt" ++ "_" ++ Str.take 5 (Hashlib.md5 "second"))
                     (outputfiles st2) = Some r2
         /\ of_data r2 = "second"
         /\ "a.txt" ++ "_" ++ Str.take 5 (Hashlib.md5 "second") <> "a.txt").
Proof.
split; [exact run_start_ready |]. split; [reflexivity |].
destruct (output_file_twice to_unicode_model level_char_model to_unicode_model_str
            "first" "second" "a.txt" "" "" (run_start fields_json)
            run_start_ready eq_refl) as [Hsame Hdifferent].
split; [exact Hsame |].
apply Hdifferent.
- vm_compute. discriminate.
- vm_compute. reflexivity.
Defined.

(** the requested name and its 28 suffixed names for the empty content *)
Definition taken_names : list string :=
"a.txt" :: map (fun k => "a.txt" ++ "_" ++ Str.take k (Hashlib.md5 "")) (seq 5 28).

(** C9 (the code at the failing input).  After a parser has recorded other
    content under the requested name and under each of its 28 suffixed
    names, [output_file] ends neither on a free name nor on a duplicate:
    the loop fails the assertion [num_char <= 32], which its comment says
    cannot happen, and [output_file] raises [AssertionError]. *)
Theorem rename_loop_overflows :
  exists st,
    for_each taken_names (fun name => output_file_model "x" name "" ;; ret tt)
             (run_start fields_json) = Ret tt st
    /\ List.length (outputfiles st) = 29
    /\ output_file_model "" "a.txt" "" st = Raise AssertionError st.
Proof.
eexists. split; [vm_compute; reflexivity |].
split; [reflexivity |].
vm_compute. reflexivity.
Qed.

(** the reporter after a file was recorded under the name a.txt *)
Definition one_file : Reporter :=
match output_file_model "x" "a.txt" "" (run_start fields_json) with
| Ret _ st => st
| _ => run_start fields_json
end.

(** a second content under the same name is renamed with five characters
    of its hash *)
Lemma rename_loop_terminates_witness :
  29 <= 32
  /\ rename_loop to_unicode_model level_char_model 32 "a.txt" (Hashlib.md5 "y") "a.txt" 5
                 one_file
     = rename_loop to_unicode_model level_char_model 29 "a.txt" (Hashlib.md5 "y") "a.txt" 5
                   one_file
  /\ rename_loop to_unicode_model level_char_model 29 "a.txt" (Hashlib.md5 "y") "a.txt" 5
                 one_file
     = Ret (Some "a.txt_41529") one_file.
Proof.
assert (H : 29 <= 32) by (repeat constructor).
split; [exact H |]. split.
- exact (proj1 (proj2 (rename_loop_terminates to_unicode_model level_char_model
                         to_unicode_model_str "y" "a.txt" one_file 32 H))).
- vm_compute. reflexivity.
Defined.

(** ** The sections of the report text *)









(** The layout of the report: what each section holds, written without
    reference to the loops of [get_output_text], to compare the function
    with. *)

Section Layout.

Variable convert_to_unicode : value -> option string.

















End Layout.

Section Layout_properties.

Variable convert_to_unicode : value -> option string.













(** *** The order of the store *)


Section SameEntries.

Variables md md' : Dict.t value.
Hypothesis same : forall k, Dict.get k md' = Dict.get k md.







End SameEntries.



End Layout_properties.






(** * Further properties

    Termination and frame of the cascade, the exceptions of a report, the
    shape of the store and the text of a store in shape. *)

(** ** The fuel of the cascade is no limit *)

(** [m'] does all that [m] does, and may go on where [m] runs out of fuel *)
Definition refines {A : Type} (m m' : M A) : Prop :=
forall st, m st <> OutOfFuel -> m' st = m st.

Lemma refines_refl : forall {A : Type} (m : M A), refines m m.
Proof. intros A m st _. reflexivity. Qed.

Lemma refines_trans : forall {A : Type} (a b c : M A),
    refines a b -> refines b c -> refines a c.
Proof.
intros A a b c Hab Hbc st H.
rewrite <- (Hab st H). apply Hbc. rewrite (Hab st H). exact H.
Qed.

Lemma refines_bind : forall {A B : Type} (m m' : M A) (f f' : A -> M B),
    refines m m' -> (forall a, refines (f a) (f' a)) -> refines (bind m f) (bind m' f').
Proof.
intros A B m m' f f' Hm Hf st H. unfold bind in *.
destruct (m st) as [a s|e s|] eqn:E.
- rewrite (Hm st) by (rewrite E; discriminate). rewrite E. apply Hf. exact H.
- rewrite (Hm st) by (rewrite E; discriminate). rewrite E. reflexivity.
- contradiction.
Qed.

Lemma refines_try : forall {A : Type} (m m' : M A) (h h' : exn -> M A),
    refines m m' -> (forall e, refines (h e) (h' e)) ->
    refines (try_except m h) (try_except m' h').
Proof.
intros A m m' h h' Hm Hh st H. unfold try_except in *.
destruct (m st) as [a s|e s|] eqn:E.
- rewrite (Hm st) by (rewrite E; discriminate). rewrite E. reflexivity.
- rewrite (Hm st) by (rewrite E; discriminate). rewrite E. apply Hh. exact H.
- contradiction.
Qed.

Lemma refines_when : forall (b : bool) (m m' : M unit),
    refines m m' -> refines (when b m) (when b m').
Proof. intros [|] m m' H; [exact H | apply refines_refl]. Qed.

Lemma refines_for_each : forall {A : Type} (l : list A) (f f' : A -> M unit),
    (forall x, refines (f x) (f' x)) -> refines (for_each l f) (for_each l f').
Proof.
intros A l f f' H. induction l as [|x l IH]; simpl.
- apply refines_refl.
- apply refines_bind; [apply H | intros _; exact IH].
Qed.

Ltac refines_step H :=
  lazymatch goal with
  | |- refines ?m ?m => apply refines_refl
  | |- refines (bind _ _) (bind _ _) => apply refines_bind; [| intros ?]
  | |- refines (try_except _ _) (try_except _ _) => apply refines_try; [| intros ?]
  | |- refines (when _ _) (when _ _) => apply refines_when
  | |- refines (for_each _ _) (for_each _ _) => apply refines_for_each; intros ?
  | |- refines (if ?b then _ else _) (if ?b then _ else _) => destruct b
  | |- refines (match ?x with _ => _ end) (match ?x with _ => _ end) => destruct x
  | |- refines (let '(_, _) := ?x in _) (let '(_, _) := ?x in _) => destruct x
  | |- refines (_ _ _) (_ _ _) => apply H
  end.

Section FuelIndependence.

Variable convert_to_unicode : value -> option string.
Variable level_char : Z -> string.

Variables f g : intake.
Hypothesis Hfg : forall k v, refines (f k v) (g k v).

Lemma refines_log_record : forall level message exc,
    refines (log_record level_char f level message exc)
            (log_record level_char g level message exc).
Proof.
intros level message exc. unfold log_record, emit.
repeat refines_step Hfg.
Qed.

Lemma refines_derive_url : forall key value,
    refines (derive_url level_char f key value) (derive_url level_char g key value).
Proof.
intros key value. unfold derive_url, log_error.
repeat first [apply refines_log_record | refines_step Hfg].
Qed.

Lemma refines_derive_listofstrings : forall key value,
    refines (derive_listofstrings level_char f key value)
            (derive_listofstrings level_char g key value).
Proof.
intros key value. unfold derive_listofstrings, log_error.
repeat first [apply refines_log_record | apply refines_derive_url | refines_step Hfg].
Qed.

Lemma refines_check_port : forall key values,
    refines (check_port level_char f key values) (check_port level_char g key values).
Proof.
intros key values. unfold check_port, log_warn.
repeat first [apply refines_log_record | refines_step Hfg].
Qed.

Lemma refines_derive_listofstringtuples : forall key values,
    refines (derive_listofstringtuples level_char f key values)
            (derive_listofstringtuples level_char g key values).
Proof.
intros key values. unfold derive_listofstringtuples, log_warn.
repeat first [apply refines_log_record | apply refines_check_port | refines_step Hfg].
Qed.

Lemma refines_body : forall key value,
    refines (add_metadata_body convert_to_unicode level_char f key value)
            (add_metadata_body convert_to_unicode level_char g key value).
Proof.
intros key value.
unfold add_metadata_body, _add_metatadata_listofstrings, _add_metadata_listofstringtuples,
  _add_metadata_dictofstrings, log_warn, log_info, log_exception.
repeat first [ apply refines_log_record | apply refines_derive_listofstrings
             | apply refines_derive_listofstringtuples | refines_step Hfg ].
Qed.

End FuelIndependence.

Section CascadeFuel.

Variable convert_to_unicode : value -> option string.
Variable level_char : Z -> string.
Hypothesis convert_str : forall s, convert_to_unicode (VStr s) = Some s.

Let rec : nat -> intake := add_metadata_rec convert_to_unicode level_char.

Lemma rec_refines_succ : forall n k v, refines (rec n k v) (rec (S n) k v).
Proof.
induction n as [|n IH]; intros k v.
- intros st H. exfalso. apply H. reflexivity.
- apply (refines_body convert_to_unicode level_char (rec n) (rec (S n)) IH).
Qed.

Lemma rec_refines_more : forall extra n k v, refines (rec n k v) (rec (n + extra) k v).
Proof.
induction extra as [|extra IH]; intros n k v.
- rewrite Nat.add_0_r. apply refines_refl.
- rewrite Nat.add_succ_r. eapply refines_trans; [apply IH | apply rec_refines_succ].
Qed.

(** X1.  The derivation cascade ends: a report needs no more than five
    nested calls of [add_metadata], whatever the field and the value, and
    what it does is what the unbounded recursion of the source does: any
    larger bound on the depth of the calls gives the same outcome. *)
Theorem cascade_terminates : forall n key value st,
    cascade_depth <= n ->
    add_metadata convert_to_unicode level_char key value st <> OutOfFuel
    /\ add_metadata_rec convert_to_unicode level_char n key value st
       = add_metadata convert_to_unicode level_char key value st.
Proof.
intros n key value st Hn.
assert (H : add_metadata convert_to_unicode level_char key value st <> OutOfFuel).
{ pose proof (add_metadata_sat convert_to_unicode level_char convert_str key value st) as S.
  intros E. rewrite E in S. exact S. }
split; [exact H |].
replace n with (cascade_depth + (n - cascade_depth)) by lia.
apply (rec_refines_more (n - cascade_depth) cascade_depth key value st). exact H.
Qed.

End CascadeFuel.

(** five calls are needed: an [ftp] entry whose URL has a port out of range
    goes through [url], [socketaddress] and [port] to the [debug] entry of
    the warning *)
Lemma cascade_depth_reached :
  add_metadata_rec to_unicode_model level_char_model 4 "ftp"
                   (strs ["user"; "pass"; "ftp://host:99999/x"]) (run_start fields_json)
  = OutOfFuel.
Proof. vm_compute. reflexivity. Qed.

Lemma cascade_terminates_witness :
  cascade_depth <= 7
  /\ add_metadata_rec to_unicode_model level_char_model 7 "ftp"
                      (strs ["user"; "pass"; "ftp://host:99999/x"]) (run_start fields_json)
     = report_model "ftp" (strs ["user"; "pass"; "ftp://host:99999/x"])
                    (run_start fields_json).
Proof.
assert (H : cascade_depth <= 7) by (unfold cascade_depth; repeat constructor).
split; [exact H |].
exact (proj2 (cascade_terminates to_unicode_model level_char_model to_unicode_model_str
                7 "ftp" (strs ["user"; "pass"; "ftp://host:99999/x"])
                (run_start fields_json) H)).
Defined.

(** ** What a report can write: the derivation graph *)

(** [m] relates the state it starts in to the state it ends in, when it
    ends *)
Definition relates {A : Type} (R : Reporter -> Reporter -> Prop) (m : M A) : Prop :=
forall st,
  match m st with
  | Ret _ st' | Raise _ st' => R st st'
  | OutOfFuel => True
  end.

Section RelatesRules.

Variable R : Reporter -> Reporter -> Prop.
Hypothesis R_refl : forall st, R st st.
Hypothesis R_trans : forall a b c, R a b -> R b c -> R a c.

Lemma relates_ret : forall {A : Type} (a : A), relates R (ret a).
Proof. intros A a st. apply R_refl. Qed.

Lemma relates_raise : forall {A : Type} e, relates R (@raise A e).
Proof. intros A e st. apply R_refl. Qed.

Lemma relates_gets : forall {A : Type} (f : Reporter -> A), relates R (gets f).
Proof. intros A f st. apply R_refl. Qed.

Lemma relates_bind : forall {A B : Type} (m : M A) (f : A -> M B),
    relates R m -> (forall a, relates R (f a)) -> relates R (bind m f).
Proof.
intros A B m f Hm Hf st. unfold bind. specialize (Hm st).
destruct (m st) as [a s|e s|]; [| exact Hm | exact I].
specialize (Hf a s). destruct (f a s); try exact I; eapply R_trans; eassumption.
Qed.

Lemma relates_try : forall {A : Type} (m : M A) (h : exn -> M A),
    relates R m -> (forall e, relates R (h e)) -> relates R (try_except m h).
Proof.
intros A m h Hm Hh st. unfold try_except. specialize (Hm st).
destruct (m st) as [a s|e s|]; [exact Hm | | exact I].
specialize (Hh e s). destruct (h e s); try exact I; eapply R_trans; eassumption.
Qed.

Lemma relates_when : forall (b : bool) (m : M unit),
    (b = true -> relates R m) -> relates R (when b m).
Proof. intros [|] m H; [apply H; reflexivity | apply relates_ret]. Qed.

Lemma relates_for_each : forall {A : Type} (l : list A) (f : A -> M unit),
    (forall x, In x l -> relates R (f x)) -> relates R (for_each l f).
Proof.
intros A l f H. induction l as [|x l IH]; simpl.
- apply relates_ret.
- apply relates_bind; [apply H; left; reflexivity | intros _].
  apply IH. intros y Hy. apply H. right. exact Hy.
Qed.

(** an operation that reads the state and leaves it as it is *)
Lemma relates_pure : forall {A : Type} (m : M A),
    (forall st, match m st with Ret _ st' | Raise _ st' => st' = st | OutOfFuel => True end) ->
    relates R m.
Proof.
intros A m H st. specialize (H st).
destruct (m st); try exact I; subst; apply R_refl.
Qed.

End RelatesRules.

Lemma pure_iter : forall v st,
    match iter v st with Ret _ st' | Raise _ st' => st' = st | OutOfFuel => True end.
Proof. intros v st. unfold iter. destruct (iterate v); reflexivity. Qed.

Lemma pure_item : forall i values st,
    match item i values st with Ret _ st' | Raise _ st' => st' = st | OutOfFuel => True end.
Proof. intros i values st. unfold item. destruct (nth_error values i); reflexivity. Qed.

Lemma pure_py_int : forall s st,
    match py_int s st with Ret _ st' | Raise _ st' => st' = st | OutOfFuel => True end.
Proof.
intros s st. unfold py_int.
set (p := match Str.chars (Str.strip s) with
          | "-"%char :: r => (true, r)
          | "+"%char :: r => (false, r)
          | _ => (false, Str.chars (Str.strip s))
          end).
destruct p as [neg digits].
destruct (Str.grouped false digits); reflexivity.
Qed.

Lemma pure_py_in : forall v obj st,
    match py_in v obj st with Ret _ st' | Raise _ st' => st' = st | OutOfFuel => True end.
Proof. intros v obj st. unfold py_in. destruct obj; destruct v; reflexivity. Qed.

Lemma pure_no_values : forall v st,
    match no_values v st with Ret _ st' | Raise _ st' => st' = st | OutOfFuel => True end.
Proof.
intros v st. unfold no_values, iter, bind.
destruct v; try reflexivity; simpl; reflexivity.
Qed.

Lemma pure_pad_values : forall key v st,
    match pad_values key v st with Ret _ st' | Raise _ st' => st' = st | OutOfFuel => True end.
Proof.
intros key v st. unfold pad_values, iter, bind.
destruct (expected_size key); [| reflexivity].
destruct (iterate v); reflexivity.
Qed.

Lemma pure_type_of_subscript : forall v k st,
    match type_of_subscript v k st with
    | Ret _ st' | Raise _ st' => st' = st
    | OutOfFuel => True
    end.
Proof.
intros v k st. unfold type_of_subscript.
destruct v; try reflexivity. destruct (Dict.get k d); reflexivity.
Qed.

Section PureConvert.

Variable convert_to_unicode : value -> option string.

Lemma pure_convert : forall v st,
    match convert convert_to_unicode v st with
    | Ret _ st' | Raise _ st' => st' = st
    | OutOfFuel => True
    end.
Proof. intros v st. unfold convert. destruct (convert_to_unicode v); reflexivity. Qed.

Lemma pure_convert_all : forall l st,
    match convert_all convert_to_unicode l st with
    | Ret _ st' | Raise _ st' => st' = st
    | OutOfFuel => True
    end.
Proof.
induction l as [|v l IH]; intros st; simpl.
- reflexivity.
- unfold bind. pose proof (pure_convert v st) as H.
  destruct (convert convert_to_unicode v st) as [s s1|e s1|]; try exact H. subst s1.
  specialize (IH st).
  destruct (convert_all convert_to_unicode l st) as [ss s2|e s2|]; exact IH.
Qed.

End PureConvert.

(** The fields to which the rules of the two mergers report a value of
    the field [key]. *)
Definition derivations : Dict.t (list string) :=
[("filepath", ["filename"; "directory"]);
 ("c2_url", ["url"; "urlpath"; "c2_socketaddress"; "c2_address"]);
 ("url", ["urlpath"; "socketaddress"; "address"]);
 ("c2_address", ["address"]);
 ("proxy_address", ["address"]);
 ("serviceimage", ["filepath"]);
 ("servicedll", ["filepath"]);
 ("registrypathdata", ["registrypath"; "registrydata"]);
 ("service", ["servicename"; "servicedisplayname"; "servicedescription";
              "serviceimage"; "servicedll"]);
 ("credential", ["username"; "password"]);
 ("c2_socketaddress", ["socketaddress"; "c2_address"]);
 ("proxy_socketaddress", ["socketaddress"; "proxy_address"]);
 ("socketaddress", ["address"; "port"]);
 ("proxy", ["credential"; "proxy_address"; "proxy_socketaddress"]);
 ("ftp", ["credential"; "url"])].

Definition derived (key : string) : list string :=
match Dict.get key derivations with
| Some targets => targets
| None => []
end.

(** the fields reached from [key] by at most [n] rules in a row *)
Fixpoint descendants_upto (n : nat) (key : string) : list string :=
match n with
| O => []
| S n' => flat_map (fun k => k :: descendants_upto n' k) (derived key)
end.

(** all the fields reached from [key]: no chain of rules has more than
    three links *)
Definition descendants (key : string) : list string := descendants_upto 4 key.

Inductive reaches : string -> string -> Prop :=
| reaches_self : forall key, reaches key key
| reaches_step : forall key k x, In k (derived key) -> reaches k x -> reaches key x.

(** what a report to [key] may write *)
Definition touched (key : string) : string -> Prop :=
fun x => x = "debug" \/ reaches key x.

(** the fields outside [W] are as they were *)
Definition only (W : string -> Prop) (st st' : Reporter) : Prop :=
forall k, ~ W k -> Dict.get k (metadata st') = Dict.get k (metadata st).

Lemma only_refl : forall W st, only W st st.
Proof. intros W st k _. reflexivity. Qed.

Lemma only_trans : forall W a b c, only W a b -> only W b c -> only W a c.
Proof. intros W a b c Hab Hbc k Hk. rewrite (Hbc k Hk). apply Hab. exact Hk. Qed.

Lemma relates_only_weaken : forall {A : Type} (W W' : string -> Prop) (m : M A),
    (forall k, W k -> W' k) -> relates (only W) m -> relates (only W') m.
Proof.
intros A W W' m HW Hm st. specialize (Hm st).
destruct (m st); try exact I; intros k Hk; apply Hm; intros H; apply Hk, HW, H.
Qed.

Lemma only_set_metadata : forall (W : string -> Prop) key v st,
    W key -> only W st (set_metadata (Dict.set key v (metadata st)) st).
Proof.
intros W key v st HW k Hk. simpl.
apply DictFacts.get_set_other. intros ->. exact (Hk HW).
Qed.

Lemma only_same_metadata : forall W st st', metadata st' = metadata st -> only W st st'.
Proof. intros W st st' H k _. rewrite H. reflexivity. Qed.

Lemma derived_rank : forall key k, In k (derived key) -> rank k < rank key.
Proof.
intros key k. unfold derived, derivations. cbn [Dict.get].
repeat match goal with
       | |- In _ (match (if ?b then _ else _) with _ => _ end) -> _ =>
         let E := fresh "E" in
         destruct b eqn:E;
           [apply String.eqb_eq in E; subst key; simpl;
            intuition (subst; vm_compute; lia) |]
       end.
intros [].
Qed.

Lemma subfield_map_derived : forall key subfields,
    subfield_map key = Some subfields -> forall sf, In sf subfields -> In sf (derived key).
Proof.
intros key subfields H sf Hin. unfold subfield_map in H.
repeat match type of H with
       | (if ?b then _ else _) = _ =>
         let E := fresh "E" in
         destruct b eqn:E;
           [apply String.eqb_eq in E; subst key; injection H as <-; exact Hin |]
       end.
discriminate.
Qed.

Lemma touched_debug : forall x, touched "debug" x -> x = "debug".
Proof.
intros x [H|H]; [exact H |].
inversion H as [|key k y Hin _]; subst; [reflexivity | destruct Hin].
Qed.

Lemma touched_self : forall key, touched key key.
Proof. intros key. right. apply reaches_self. Qed.

Lemma touched_step : forall key k x, In k (derived key) -> touched k x -> touched key x.
Proof.
intros key k x Hin [H|H]; [left; exact H | right].
eapply reaches_step; eassumption.
Qed.

Lemma reaches_descendants : forall n key x,
    rank key <= n -> reaches key x -> x = key \/ In x (descendants_upto n key).
Proof.
induction n as [|n IH]; intros key x Hrank H.
- pose proof (rank_pos key). lia.
- destruct H as [key|key k x Hin H]; [left; reflexivity | right].
  pose proof (derived_rank key k Hin) as Hlt.
  cbn [descendants_upto]. apply in_flat_map. exists k. split; [exact Hin |].
  destruct (IH k x ltac:(lia) H) as [->|Hx]; [left; reflexivity | right; exact Hx].
Qed.

Lemma relates_modify : forall (R : Reporter -> Reporter -> Prop) (f : Reporter -> Reporter),
    (forall st, R st (f st)) -> relates R (modify f).
Proof. intros R f H st. apply H. Qed.

Section OnlyRules.

Variable W : string -> Prop.

Lemma only_ret : forall {A : Type} (a : A), relates (only W) (ret a).
Proof. intros. apply relates_ret, only_refl. Qed.

Lemma only_raise : forall {A : Type} e, relates (only W) (@raise A e).
Proof. intros. apply relates_raise, only_refl. Qed.

Lemma only_gets : forall {A : Type} (f : Reporter -> A), relates (only W) (gets f).
Proof. intros. apply relates_gets, only_refl. Qed.

Lemma only_pure : forall {A : Type} (m : M A),
    (forall st, match m st with Ret _ st' | Raise _ st' => st' = st | OutOfFuel => True end) ->
    relates (only W) m.
Proof. intros. apply relates_pure; [apply only_refl | assumption]. Qed.

Lemma only_bind : forall {A B : Type} (m : M A) (f : A -> M B),
    relates (only W) m -> (forall a, relates (only W) (f a)) -> relates (only W) (bind m f).
Proof. intros. apply relates_bind; [apply only_trans | assumption | assumption]. Qed.

Lemma only_try : forall {A : Type} (m : M A) (h : exn -> M A),
    relates (only W) m -> (forall e, relates (only W) (h e)) ->
    relates (only W) (try_except m h).
Proof. intros. apply relates_try; [apply only_trans | assumption | assumption]. Qed.

Lemma only_when : forall (b : bool) (m : M unit),
    (b = true -> relates (only W) m) -> relates (only W) (when b m).
Proof. intros. apply relates_when; [apply only_refl | assumption]. Qed.

Lemma only_for_each : forall {A : Type} (l : list A) (f : A -> M unit),
    (forall x, In x l -> relates (only W) (f x)) -> relates (only W) (for_each l f).
Proof.
intros. apply relates_for_each; [apply only_refl | apply only_trans | assumption].
Qed.

Lemma only_append_unique : forall key v always,
    W key -> relates (only W) (append_unique key v always).
Proof.
intros key v always HW. unfold append_unique.
apply only_bind.
- intros st. unfold setdefault. destruct (Dict.get key (metadata st)).
  + apply only_refl.
  + apply only_set_metadata. exact HW.
- intros obj. apply only_bind.
  + destruct always; [apply only_ret |].
    apply only_bind; [apply only_pure, pure_py_in | intros p; apply only_ret].
  + intros wanted. apply only_when. intros _.
    unfold append_to. destruct obj; try apply only_raise.
    apply relates_modify. intros st. apply only_set_metadata. exact HW.
Qed.

End OnlyRules.

Section GraphFrame.

Variable convert_to_unicode : value -> option string.
Variable level_char : Z -> string.

Variable self : intake.
Hypothesis Hself : forall k v, relates (only (touched k)) (self k v).

Lemma only_log_record : forall (W : string -> Prop) level message exc,
    W "debug" -> relates (only W) (log_record level_char self level message exc).
Proof.
intros W level message exc HW. unfold log_record.
apply only_bind; [apply relates_modify; intros st; apply only_same_metadata; reflexivity |].
intros _. apply only_bind; [apply only_gets | intros attached].
apply only_bind; [apply only_gets | intros threshold].
apply only_when. intros _. unfold emit.
destruct (WARNING <? level)%Z.
- apply relates_modify. intros st. apply only_same_metadata. reflexivity.
- destruct ((INFO <=? level) && (level <=? WARNING))%Z; [| apply only_ret].
  eapply relates_only_weaken; [| apply Hself].
  intros k Hk. apply touched_debug in Hk. subst k. exact HW.
Qed.

Ltac only_call :=
  eapply relates_only_weaken; [| apply Hself];
  let x := fresh "x" in
  let H := fresh "H" in
  intros x H; eapply touched_step; [| exact H]; simpl; auto 12.

Ltac only_step :=
  lazymatch goal with
  | |- relates _ (bind _ _) => apply only_bind; [| intros ?]
  | |- relates _ (ret _) => apply only_ret
  | |- relates _ (raise _) => apply only_raise
  | |- relates _ (gets _) => apply only_gets
  | |- relates _ (item _ _) => apply only_pure, pure_item
  | |- relates _ (py_int _) => apply only_pure, pure_py_int
  | |- relates _ (iter _) => apply only_pure, pure_iter
  | |- relates _ (when _ _) =>
    let H := fresh "Hc" in
    apply only_when; intros H; first [closed_false H | key_cases H]
  | |- relates _ (log_record _ _ _ _ _) => apply only_log_record; left; reflexivity
  | |- relates _ (log_info _ _ _) => unfold log_info
  | |- relates _ (log_warn _ _ _) => unfold log_warn
  | |- relates _ (log_error _ _ _) => unfold log_error
  | |- relates _ (log_exception _ _ _ _) => unfold log_exception
  | |- relates ?W (if ?b then ?x else ?y) =>
    let b' := eval hnf in b in
    lazymatch b' with
    | true => change (relates W x)
    | false => change (relates W y)
    | _ => destruct b eqn:?
    end
  | |- relates _ (match ?x with _ => _ end) => destruct x eqn:?
  | |- relates _ (self _ _) => only_call
  end.

Lemma only_derive_url : forall key value,
    key = "url" \/ key = "c2_url" ->
    relates (only (touched key)) (derive_url level_char self key value).
Proof.
intros key value Hkey. unfold derive_url.
destruct Hkey; subst key; repeat only_step.
Qed.

Lemma only_derive_listofstrings : forall key value,
    relates (only (touched key)) (derive_listofstrings level_char self key value).
Proof.
intros key value. unfold derive_listofstrings.
repeat only_step; apply only_derive_url; auto.
Qed.

Lemma only_check_port : forall (W : string -> Prop) key values,
    W "debug" -> relates (only W) (check_port level_char self key values).
Proof.
intros W key values HW. unfold check_port, log_warn.
repeat first [ apply only_log_record; exact HW | only_step ].
Qed.

Lemma only_derive_listofstringtuples : forall key values,
    relates (only (touched key)) (derive_listofstringtuples level_char self key values).
Proof.
intros key values. unfold derive_listofstringtuples.
apply only_bind.
- destruct (subfield_map key) as [subfields|] eqn:Hsub; [| apply only_ret].
  apply only_bind.
  + apply only_for_each. intros [sf v] Hin. apply only_when. intros _. simpl.
    eapply relates_only_weaken; [| apply Hself].
    intros x Hx. eapply touched_step; [| exact Hx].
    eapply subfield_map_derived; [exact Hsub |].
    eapply in_combine_l. exact Hin.
  + intros _. repeat only_step.
- intros _. repeat first [ apply only_check_port; left; reflexivity | only_step ].
Qed.

Lemma only_merge_entry : forall (W : string -> Prop) key subkey subvalue,
    W key -> relates (only W) (merge_entry convert_to_unicode key subkey subvalue).
Proof.
intros W key subkey subvalue HW. unfold merge_entry.
apply only_bind; [apply only_pure, pure_convert | intros sk].
apply only_bind; [apply only_pure, pure_convert | intros sv].
apply only_bind.
- intros st. unfold setdefault. destruct (Dict.get key (metadata st)).
  + apply only_refl.
  + apply only_set_metadata. exact HW.
- intros obj. unfold store_subkey.
  repeat first [ apply relates_modify; intros st; apply only_set_metadata; exact HW
               | only_step ].
Qed.

Hypothesis convert_str : forall s, convert_to_unicode (VStr s) = Some s.

Lemma only_body : forall key value,
    relates (only (touched key))
            (add_metadata_body convert_to_unicode level_char self key value).
Proof.
intros key value. unfold add_metadata_body, convert.
rewrite convert_str, bind_ret.
apply only_bind; [apply only_pure, pure_no_values | intros skip].
destruct skip; [unfold log_warn; apply only_log_record; left; reflexivity |].
apply only_bind; [apply only_gets | intros known].
destruct known as [fieldtype|]; [| apply only_raise].
apply only_try; [| intros e; unfold log_exception; apply only_log_record; left; reflexivity].
apply only_bind; [| intros _; apply only_bind; [| intros _]]; apply only_when; intros _.
- unfold _add_metatadata_listofstrings.
  destruct (negb (truthy value));
    [unfold log_info; apply only_log_record; left; reflexivity |].
  apply only_bind; [apply only_pure, pure_convert | intros s].
  apply only_bind; [apply only_append_unique, touched_self | intros _].
  apply only_derive_listofstrings.
- unfold _add_metadata_listofstringtuples.
  apply only_bind; [apply only_pure, pure_pad_values | intros padded].
  apply only_bind; [apply only_pure, pure_iter | intros items].
  apply only_bind; [apply only_pure, pure_convert_all | intros vs].
  apply only_bind; [apply only_append_unique, touched_self | intros _].
  apply only_derive_listofstringtuples.
- unfold _add_metadata_dictofstrings.
  destruct value; try apply only_raise.
  apply only_for_each. intros [subkey subvalue] _.
  destruct subvalue; try (apply only_merge_entry, touched_self);
    (apply only_bind; [apply only_pure, pure_type_of_subscript | intros t];
     unfold log_warn; apply only_log_record; left; reflexivity).
Qed.

End GraphFrame.

Section ReportFrame.

Variable convert_to_unicode : value -> option string.
Variable level_char : Z -> string.
Hypothesis convert_str : forall s, convert_to_unicode (VStr s) = Some s.

Lemma only_rec : forall n key value,
    relates (only (touched key)) (add_metadata_rec convert_to_unicode level_char n key value).
Proof.
induction n as [|n IH]; intros key value.
- intros st. exact I.
- apply only_body; assumption.
Qed.

(** X2.  A report leaves alone every field of the store but the field
    reported, [debug], and the fields that the derivation rules reach from
    the field reported; the lists it finds in the store are only extended
    at their end; the table of output files and the settings of the
    reporter are as they were. *)
Theorem report_frame : forall key value st st',
    final (add_metadata convert_to_unicode level_char key value st) = Some st' ->
    (forall k, k <> "debug" -> k <> key -> ~ In k (descendants key) ->
               Dict.get k (metadata st') = Dict.get k (metadata st))
    /\ (forall k l, Dict.get k (metadata st) = Some (VList l) ->
                    exists l', Dict.get k (metadata st') = Some (VList (l ++ l')%list))
    /\ (exists extra, errors st' = (errors st ++ extra)%list)
    /\ outputfiles st' = outputfiles st
    /\ fields st' = fields st.
Proof.
intros key value st st' Hfinal.
pose proof (add_metadata_sat convert_to_unicode level_char convert_str key value st) as S.
pose proof (only_rec cascade_depth key value st) as O.
fold (add_metadata convert_to_unicode level_char) in O.
assert (F : framed (writes key) st st' /\ only (touched key) st st').
{ destruct (add_metadata convert_to_unicode level_char key value st) as [[] s|e s|];
    try discriminate; injection Hfinal as <-; split; assumption. }
clear S O Hfinal. destruct F as [S O].
split; [| split; [exact (fr_grows S) | split; [exact (fr_errors S) | split]]].
- intros k Hd Hk Hdesc. apply O. intros [H|H]; [exact (Hd H) |].
  destruct (reaches_descendants 4 key k (rank_le_4 key) H) as [E|E]; auto.
- eapply framed_outputfiles; exact S.
- eapply framed_fields; exact S.
Qed.

End ReportFrame.

Lemma not_in_eqb : forall (k : string) l, existsb (String.eqb k) l = false -> ~ In k l.
Proof.
intros k l H Hin.
assert (E : existsb (String.eqb k) l = true).
{ apply existsb_exists. exists k. split; [exact Hin | apply String.eqb_refl]. }
rewrite E in H. discriminate H.
Qed.

(** a report to [proxy] leaves [c2_address] alone *)
Lemma report_frame_witness :
  exists st',
    final (report_model "proxy" (strs ["admin"; "pass"; "192.168.1.1"])
                        (run_start fields_json)) = Some st'
    /\ Dict.get "c2_address" (metadata st')
       = Dict.get "c2_address" (metadata (run_start fields_json)).
Proof.
eexists. split; [vm_compute; reflexivity |].
refine (proj1 (report_frame to_unicode_model level_char_model to_unicode_model_str
                 "proxy" (strs ["admin"; "pass"; "192.168.1.1"])
                 (run_start fields_json) _ _) "c2_address" _ _ _).
- vm_compute. reflexivity.
- discriminate.
- discriminate.
- apply not_in_eqb. vm_compute. reflexivity.
Defined.

(** ** The exceptions that a report lets out *)

Section ReportOutcomes.

Variable convert_to_unicode : value -> option string.
Variable level_char : Z -> string.
Hypothesis convert_str : forall s, convert_to_unicode (VStr s) = Some s.

Let report : intake := add_metadata convert_to_unicode level_char.

(** the warning for a value without content is logged, and the report
    returns *)
Lemma report_empty_returns : forall key value st,
    Dict.mem "debug" (fields st) = true ->
    empty_value value = Some true ->
    exists st', report key value st = Ret tt st'.
Proof.
intros key value st Hdebug Hempty.
unfold report. rewrite (report_empty convert_to_unicode level_char convert_str key value st Hempty).
unfold log_warn.
assert (Hfuel : log_record level_char (add_metadata_rec convert_to_unicode level_char 4)
                           WARNING (skip_message key) None st <> OutOfFuel).
{ pose proof (sat_log_record level_char (fun _ => True)
                (add_metadata_rec convert_to_unicode level_char 4)
                WARNING (skip_message key) None) as S.
  intros E. specialize (S (fun msg Hmsg =>
                             good_debug 4 _ (fun _ => True) msg
                                        (good_4 convert_to_unicode level_char convert_str)
                                        ltac:(lia) I Hmsg) st).
  rewrite E in S. exact S. }
rewrite <- (refines_log_record level_char
              (add_metadata_rec convert_to_unicode level_char 4)
              (add_metadata_rec convert_to_unicode level_char 5)
              (rec_refines_succ convert_to_unicode level_char 4)
              WARNING (skip_message key) None st Hfuel).
destruct (log_returns convert_to_unicode level_char convert_str
            WARNING (skip_message key) None st Hdebug) as [st' [H _]].
exists st'. exact H.
Qed.

(** X3.  A report raises in two cases only, and it has changed nothing
    then: [TypeError] when the value is neither [None] nor iterable, and
    [KeyError] when the value has content and the field is not in the
    schema.  In every other case it returns: what a merger raises is logged
    as an error and not raised.  (The schema has [debug], to which the log
    handler reports.) *)
Theorem report_raises_only : forall key value st,
    Dict.mem "debug" (fields st) = true ->
    match empty_value value with
    | None => exists msg, report key value st = Raise (TypeError msg) st
    | Some true => exists st', report key value st = Ret tt st'
    | Some false =>
      match Dict.get key (fields st) with
      | None => report key value st = Raise (KeyError ("Invalid field name: " ++ key)) st
      | Some _ => exists st', report key value st = Ret tt st'
      end
    end.
Proof.
intros key value st Hdebug.
destruct (empty_value value) as [[|]|] eqn:Hvalue.
- apply report_empty_returns; assumption.
- destruct (Dict.get key (fields st)) as [fieldtype|] eqn:Hkey.
  + destruct (report_known_returns convert_to_unicode level_char convert_str key value st)
      as [st' [H _]]; [unfold Dict.mem; rewrite Hkey; reflexivity | exact Hvalue |].
    exists st'. exact H.
  + apply report_unknown; assumption.
- unfold report, add_metadata, cascade_depth. simpl add_metadata_rec.
  unfold add_metadata_body at 1. unfold convert. rewrite convert_str, bind_ret.
  unfold empty_value in Hvalue.
  destruct value as [| s | n | l | d]; try discriminate Hvalue.
  eexists. reflexivity.
Qed.

End ReportOutcomes.

Lemma report_raises_only_witness :
  Dict.mem "debug" (fields (run_start fields_json)) = true
  /\ (exists msg,
         report_model "port" (VInt 80) (run_start fields_json)
         = Raise (TypeError msg) (run_start fields_json))
  /\ report_model "nosuchfield" (strs ["80"; "tcp"]) (run_start fields_json)
     = Raise (KeyError "Invalid field name: nosuchfield") (run_start fields_json)
  /\ (exists st', report_model "port" (strs ["80a"; "tcp"]) (run_start fields_json)
                  = Ret tt st').
Proof.
split; [reflexivity |]. split; [| split].
- exact (report_raises_only to_unicode_model level_char_model to_unicode_model_str
           "port" (VInt 80) (run_start fields_json) eq_refl).
- exact (report_raises_only to_unicode_model level_char_model to_unicode_model_str
           "nosuchfield" (strs ["80"; "tcp"]) (run_start fields_json) eq_refl).
- exact (report_raises_only to_unicode_model level_char_model to_unicode_model_str
           "port" (strs ["80a"; "tcp"]) (run_start fields_json) eq_refl).
Defined.

(** ** The shape of the store *)

Definition is_str (v : value) : bool :=
match v with VStr _ => true | _ => false end.

(** a sequence of strings *)
Definition is_strs (v : value) : bool :=
match v with VList l => forallb is_str l | _ => false end.

(** what a field of type [fieldtype] holds: a list of strings, a list of
    sequences of strings, or a dictionary of strings and lists of strings *)
Definition shape_ok (fieldtype : string) (v : value) : bool :=
if fieldtype =? "listofstrings" then
  match v with VList l => forallb is_str l | _ => false end
else if fieldtype =? "listofstringtuples" then
  match v with VList l => forallb is_strs l | _ => false end
else if fieldtype =? "dictofstrings" then
  match v with
  | VDict d => forallb (fun kv => is_str (snd kv) || is_strs (snd kv)) d
  | _ => false
  end
else false.

(** every field of the store is in the schema and holds what its type
    says *)
Definition well_shaped (st : Reporter) : Prop :=
forall key v, In (key, v) (metadata st) ->
              exists t, Dict.get key (fields st) = Some t /\ shape_ok t v = true.

Lemma in_dict_set : forall {A : Type} (d : Dict.t A) key a k x,
    In (k, x) (Dict.set key a d) -> (k, x) = (key, a) \/ In (k, x) d.
Proof.
intros A d key a k x. induction d as [|[j b] d IH]; simpl.
- intros [H|[]]. left. symmetry. exact H.
- destruct (key =? j) eqn:E; simpl.
  + apply String.eqb_eq in E. subst j. intros [H|H]; [left; symmetry; exact H | right; right; exact H].
  + intros [H|H]; [right; left; exact H |].
    destruct (IH H) as [Heq|Hin]; [left; exact Heq | right; right; exact Hin].
Qed.

Lemma is_strs_strs : forall vals, is_strs (strs vals) = true.
Proof.
intros vals. unfold strs. simpl. induction vals as [|s vals IH]; [reflexivity | exact IH].
Qed.

Lemma well_shaped_set : forall key t v st,
    Dict.get key (fields st) = Some t ->
    shape_ok t v = true ->
    well_shaped st ->
    well_shaped (set_metadata (Dict.set key v (metadata st)) st).
Proof.
intros key t v st Ht Hv Hw k x Hin. simpl in Hin.
destruct (in_dict_set _ _ _ _ _ Hin) as [Heq|Hold].
- injection Heq as -> ->. exists t. split; assumption.
- apply Hw. exact Hold.
Qed.

Lemma well_shaped_same : forall st st',
    metadata st' = metadata st -> fields st' = fields st ->
    well_shaped st -> well_shaped st'.
Proof. intros st st' Hm Hf Hw k x. rewrite Hm, Hf. apply Hw. Qed.

Lemma well_shaped_get : forall st key v,
    well_shaped st ->
    Dict.get key (metadata st) = Some v ->
    exists t, Dict.get key (fields st) = Some t /\ shape_ok t v = true.
Proof. intros st key v Hw Hget. apply Hw. apply DictFacts.get_In. exact Hget. Qed.

(** the list that a field of strings or of tuples holds *)
Lemma well_shaped_entries : forall key t st,
    well_shaped st ->
    Dict.get key (fields st) = Some t ->
    t = "listofstrings" \/ t = "listofstringtuples" ->
    exists l, entries key st = Some l /\ shape_ok t (VList l) = true.
Proof.
intros key t st Hw Ht Hkind. unfold entries.
destruct (Dict.get key (metadata st)) as [v|] eqn:Hget.
- destruct (well_shaped_get st key v Hw Hget) as [t' [Ht' Hv]].
  rewrite Ht in Ht'. injection Ht' as <-.
  destruct Hkind; subst t; destruct v; try discriminate Hv; eexists; split;
    try reflexivity; exact Hv.
- exists []. split; [reflexivity |]. destruct Hkind; subst t; reflexivity.
Qed.

Lemma shape_ok_strings : forall l,
    shape_ok "listofstrings" (VList l) = forallb is_str l.
Proof. reflexivity. Qed.

Lemma shape_ok_tuples : forall l,
    shape_ok "listofstringtuples" (VList l) = forallb is_strs l.
Proof. reflexivity. Qed.

Lemma shape_ok_add_unique : forall t always v l,
    t = "listofstrings" /\ is_str v = true \/ t = "listofstringtuples" /\ is_strs v = true ->
    shape_ok t (VList l) = true ->
    shape_ok t (VList (add_unique always v l)) = true.
Proof.
intros t always v l Hv Hl. unfold add_unique.
destruct (always || negb (existsb (value_eqb v) l)); [| exact Hl].
destruct Hv as [[-> Hv]|[-> Hv]].
- rewrite shape_ok_strings in *. rewrite forallb_app, Hl. simpl. rewrite Hv. reflexivity.
- rewrite shape_ok_tuples in *. rewrite forallb_app, Hl. simpl. rewrite Hv. reflexivity.
Qed.

Section Shape.

(** the schema of the reporter, which no operation changes *)
Variable flds : Dict.t string.

Definition shaped (st : Reporter) : Prop := fields st = flds /\ well_shaped st.

(** an operation that keeps the store in shape *)
Definition keeps (st st' : Reporter) : Prop := shaped st -> shaped st'.

Lemma keeps_refl : forall st, keeps st st.
Proof. intros st H. exact H. Qed.

Lemma keeps_trans : forall a b c, keeps a b -> keeps b c -> keeps a c.
Proof. intros a b c Hab Hbc H. apply Hbc, Hab, H. Qed.

Lemma relates_keeps_from : forall {A : Type} (m : M A),
    (forall st, shaped st ->
                match m st with
                | Ret _ st' | Raise _ st' => shaped st'
                | OutOfFuel => True
                end) ->
    relates keeps m.
Proof.
intros A m H st. specialize (H st).
destruct (m st); try exact I; intros Hs; apply H; exact Hs.
Qed.

Lemma keeps_same : forall st st',
    metadata st' = metadata st -> fields st' = fields st -> keeps st st'.
Proof.
intros st st' Hm Hf [Hfl Hw]. split; [congruence |].
eapply well_shaped_same; eassumption.
Qed.

Lemma keeps_append_unique : forall key t v always,
    Dict.get key flds = Some t ->
    t = "listofstrings" /\ is_str v = true \/ t = "listofstringtuples" /\ is_strs v = true ->
    relates keeps (append_unique key v always).
Proof.
intros key t v always Ht Hv. apply relates_keeps_from. intros st [Hf Hw].
assert (Ht' : Dict.get key (fields st) = Some t) by (rewrite Hf; exact Ht).
destruct (well_shaped_entries key t st Hw Ht') as [l [Hl Hok]].
{ destruct Hv as [[-> _]|[-> _]]; [left | right]; reflexivity. }
rewrite (append_unique_exact key v always st l Hl).
split; [exact Hf |]. unfold store.
eapply well_shaped_set; [exact Ht' | | exact Hw].
apply shape_ok_add_unique; assumption.
Qed.

End Shape.

Ltac rel_step refl trans logtac calltac :=
  lazymatch goal with
  | |- relates _ (bind _ _) => apply (relates_bind _ trans); [| intros ?]
  | |- relates _ (ret _) => apply (relates_ret _ refl)
  | |- relates _ (raise _) => apply (relates_raise _ refl)
  | |- relates _ (gets _) => apply (relates_gets _ refl)
  | |- relates _ (item _ _) => apply (relates_pure _ refl), pure_item
  | |- relates _ (py_int _) => apply (relates_pure _ refl), pure_py_int
  | |- relates _ (iter _) => apply (relates_pure _ refl), pure_iter
  | |- relates _ (when _ _) =>
    let H := fresh "Hc" in
    apply (relates_when _ refl); intros H; first [closed_false H | key_cases H]
  | |- relates _ (log_record _ _ _ _ _) => logtac
  | |- relates _ (log_info _ _ _) => unfold log_info
  | |- relates _ (log_warn _ _ _) => unfold log_warn
  | |- relates _ (log_error _ _ _) => unfold log_error
  | |- relates _ (log_exception _ _ _ _) => unfold log_exception
  | |- relates ?R (if ?b then ?x else ?y) =>
    let b' := eval hnf in b in
    lazymatch b' with
    | true => change (relates R x)
    | false => change (relates R y)
    | _ => destruct b eqn:?
    end
  | |- relates _ (match ?x with _ => _ end) => destruct x eqn:?
  | |- relates _ (_ _ (VStr _)) => calltac
  | |- relates _ (_ _ (strs _)) => calltac
  end.

Lemma forallb_dict_set : forall (P : value -> bool) (d : Dict.t value) k v,
    forallb (fun kv => P (snd kv)) d = true ->
    P v = true ->
    forallb (fun kv => P (snd kv)) (Dict.set k v d) = true.
Proof.
intros P d k v Hd Hv. induction d as [|[j w] d IH]; simpl in *.
- rewrite Hv. reflexivity.
- apply andb_true_iff in Hd. destruct Hd as [Hw Hd].
  destruct (k =? j); simpl.
  + rewrite Hv, Hd. reflexivity.
  + rewrite Hw, (IH Hd). reflexivity.
Qed.

Lemma forallb_dict_get : forall (P : value -> bool) (d : Dict.t value) k v,
    forallb (fun kv => P (snd kv)) d = true ->
    Dict.get k d = Some v ->
    P v = true.
Proof.
intros P d k v Hd Hget. induction d as [|[j w] d IH]; simpl in *.
- discriminate.
- apply andb_true_iff in Hd. destruct Hd as [Hw Hd].
  destruct (k =? j).
  + injection Hget as <-. exact Hw.
  + apply IH; assumption.
Qed.

Section ShapeCascade.

Variable flds : Dict.t string.
Variable convert_to_unicode : value -> option string.
Variable level_char : Z -> string.
Hypothesis convert_str : forall s, convert_to_unicode (VStr s) = Some s.

Variable self : intake.
Hypothesis Hself : forall k v, relates (keeps flds) (self k v).

Lemma keeps_log_record : forall level message exc,
    relates (keeps flds) (log_record level_char self level message exc).
Proof.
intros level message exc. unfold log_record.
apply (relates_bind _ (keeps_trans flds)).
{ apply relates_modify. intros st. apply keeps_same; reflexivity. }
intros _. apply (relates_bind _ (keeps_trans flds));
  [apply (relates_gets _ (keeps_refl flds)) | intros attached].
apply (relates_bind _ (keeps_trans flds));
  [apply (relates_gets _ (keeps_refl flds)) | intros threshold].
apply (relates_when _ (keeps_refl flds)). intros _. unfold emit.
destruct (WARNING <? level)%Z.
- apply relates_modify. intros st. apply keeps_same; reflexivity.
- destruct ((INFO <=? level) && (level <=? WARNING))%Z;
    [apply Hself | apply (relates_ret _ (keeps_refl flds))].
Qed.

Ltac keeps_step :=
  rel_step (keeps_refl flds) (keeps_trans flds)
           ltac:(apply keeps_log_record) ltac:(apply Hself).

Lemma keeps_derive_url : forall key value,
    relates (keeps flds) (derive_url level_char self key value).
Proof. intros key value. unfold derive_url. repeat keeps_step. Qed.

Lemma keeps_derive_listofstrings : forall key value,
    relates (keeps flds) (derive_listofstrings level_char self key value).
Proof.
intros key value. unfold derive_listofstrings.
repeat first [apply keeps_derive_url | keeps_step].
Qed.

Lemma keeps_check_port : forall key values,
    relates (keeps flds) (check_port level_char self key values).
Proof. intros key values. unfold check_port. repeat keeps_step. Qed.

Lemma keeps_derive_listofstringtuples : forall key values,
    relates (keeps flds) (derive_listofstringtuples level_char self key values).
Proof.
intros key values. unfold derive_listofstringtuples.
apply (relates_bind _ (keeps_trans flds)).
- destruct (subfield_map key) as [subfields|]; [| apply (relates_ret _ (keeps_refl flds))].
  apply (relates_bind _ (keeps_trans flds)).
  + apply (relates_for_each _ (keeps_refl flds) (keeps_trans flds)).
    intros [sf v] _. apply (relates_when _ (keeps_refl flds)). intros _. apply Hself.
  + intros _. repeat keeps_step.
- intros _. repeat first [apply keeps_check_port | keeps_step].
Qed.

Lemma keeps_listofstrings : forall key value,
    Dict.get key flds = Some "listofstrings" ->
    relates (keeps flds)
            (_add_metatadata_listofstrings convert_to_unicode level_char self key value).
Proof.
intros key value Ht. unfold _add_metatadata_listofstrings.
destruct (negb (truthy value)); [unfold log_info; apply keeps_log_record |].
apply (relates_bind _ (keeps_trans flds));
  [apply (relates_pure _ (keeps_refl flds)), pure_convert | intros s].
apply (relates_bind _ (keeps_trans flds)).
- eapply keeps_append_unique; [exact Ht | left; split; reflexivity].
- intros _. apply keeps_derive_listofstrings.
Qed.

Lemma keeps_listofstringtuples : forall key values,
    Dict.get key flds = Some "listofstringtuples" ->
    relates (keeps flds)
            (_add_metadata_listofstringtuples convert_to_unicode level_char self key values).
Proof.
intros key values Ht. unfold _add_metadata_listofstringtuples.
apply (relates_bind _ (keeps_trans flds));
  [apply (relates_pure _ (keeps_refl flds)), pure_pad_values | intros padded].
apply (relates_bind _ (keeps_trans flds));
  [apply (relates_pure _ (keeps_refl flds)), pure_iter | intros items].
apply (relates_bind _ (keeps_trans flds));
  [apply (relates_pure _ (keeps_refl flds)), pure_convert_all | intros vs].
apply (relates_bind _ (keeps_trans flds)).
- eapply keeps_append_unique; [exact Ht | right; split; [reflexivity | apply is_strs_strs]].
- intros _. apply keeps_derive_listofstringtuples.
Qed.

(** the dictionary that a field of type [dictofstrings] holds *)
Lemma shaped_dict : forall key st v,
    shaped flds st ->
    Dict.get key flds = Some "dictofstrings" ->
    Dict.get key (metadata st) = Some v ->
    exists d, v = VDict d
              /\ forallb (fun kv => is_str (snd kv) || is_strs (snd kv)) d = true.
Proof.
intros key st v [Hf Hw] Ht Hget.
destruct (well_shaped_get st key v Hw Hget) as [t [Ht' Hv]].
rewrite Hf, Ht in Ht'. injection Ht' as <-.
destruct v; try discriminate Hv. exists d. split; [reflexivity | exact Hv].
Qed.

Lemma shaped_store_subkey : forall key d subkey v st,
    shaped flds st ->
    Dict.get key flds = Some "dictofstrings" ->
    forallb (fun kv => is_str (snd kv) || is_strs (snd kv)) d = true ->
    is_str v || is_strs v = true ->
    shaped flds (set_metadata (Dict.set key (VDict (Dict.set subkey v d)) (metadata st)) st).
Proof.
intros key d subkey v st [Hf Hw] Ht Hd Hv. split; [exact Hf |].
eapply well_shaped_set; [rewrite Hf; exact Ht | | exact Hw].
change (forallb (fun kv => is_str (snd kv) || is_strs (snd kv)) (Dict.set subkey v d) = true).
apply (forallb_dict_set (fun x => is_str x || is_strs x)); assumption.
Qed.

Lemma keeps_merge_entry : forall key subkey subvalue,
    Dict.get key flds = Some "dictofstrings" ->
    relates (keeps flds) (merge_entry convert_to_unicode key subkey subvalue).
Proof.
intros key subkey subvalue Ht. apply relates_keeps_from. intros st Hs.
unfold merge_entry, convert. rewrite !convert_str.
unfold bind, ret, setdefault.
destruct (Dict.get key (metadata st)) as [obj|] eqn:Hget.
- destruct (shaped_dict key st obj Hs Ht Hget) as [d [-> Hd]].
  destruct (Dict.get subkey d) as [existing|] eqn:Hsub.
  + pose proof (forallb_dict_get (fun x => is_str x || is_strs x) d subkey existing Hd Hsub)
      as Hex.
    destruct existing as [| s | n | l | e]; try discriminate Hex.
    * match goal with |- context [when ?b _] => destruct b end; simpl; [| exact Hs].
      apply shaped_store_subkey; try assumption; reflexivity.
    * match goal with |- context [when ?b _] => destruct b end; simpl; [| exact Hs].
      apply shaped_store_subkey; try assumption.
      simpl in Hex. simpl. rewrite forallb_app, Hex. reflexivity.
  + apply shaped_store_subkey; try assumption; reflexivity.
- simpl.
  assert (Hs1 : shaped flds (set_metadata (Dict.set key (VDict []) (metadata st)) st)).
  { destruct Hs as [Hf Hw]. split; [exact Hf |].
    eapply well_shaped_set; [rewrite Hf; exact Ht | reflexivity | exact Hw]. }
  apply (shaped_store_subkey key [] subkey (VStr subvalue) _ Hs1 Ht); reflexivity.
Qed.

Lemma keeps_dictofstrings : forall key value,
    Dict.get key flds = Some "dictofstrings" ->
    relates (keeps flds)
            (_add_metadata_dictofstrings convert_to_unicode level_char self key value).
Proof.
intros key value Ht. unfold _add_metadata_dictofstrings.
destruct value; try apply (relates_raise _ (keeps_refl flds)).
apply (relates_for_each _ (keeps_refl flds) (keeps_trans flds)).
intros [subkey subvalue] _.
destruct subvalue; try (apply keeps_merge_entry; exact Ht);
  (apply (relates_bind _ (keeps_trans flds));
   [apply (relates_pure _ (keeps_refl flds)), pure_type_of_subscript
   | intros t; unfold log_warn; apply keeps_log_record]).
Qed.

Lemma keeps_body : forall key value,
    relates (keeps flds) (add_metadata_body convert_to_unicode level_char self key value).
Proof.
intros key value. unfold add_metadata_body, convert.
rewrite convert_str, bind_ret.
apply (relates_bind _ (keeps_trans flds));
  [apply (relates_pure _ (keeps_refl flds)), pure_no_values | intros skip].
destruct skip; [unfold log_warn; apply keeps_log_record |].
apply relates_keeps_from. intros st Hs.
unfold bind at 1. unfold gets at 1.
destruct Hs as [Hf Hw]. rewrite Hf.
destruct (Dict.get key flds) as [fieldtype|] eqn:Ht; [| split; assumption].
assert (Hm : relates (keeps flds)
               (try_except
                  (when (fieldtype =? "listofstrings")
                        (_add_metatadata_listofstrings convert_to_unicode level_char self
                                                       key value) ;;
                   when (fieldtype =? "listofstringtuples")
                        (_add_metadata_listofstringtuples convert_to_unicode level_char self
                                                          key value) ;;
                   when (fieldtype =? "dictofstrings")
                        (_add_metadata_dictofstrings convert_to_unicode level_char self
                                                     key value))
                  (fun e => log_exception level_char self
                                          ("Error adding metadata for key: " ++ key) e))).
{ apply (relates_try _ (keeps_trans flds));
    [| intros e; unfold log_exception; apply keeps_log_record].
  apply (relates_bind _ (keeps_trans flds));
    [| intros _; apply (relates_bind _ (keeps_trans flds)); [| intros _]];
    apply (relates_when _ (keeps_refl flds)); intros Hc;
      apply String.eqb_eq in Hc; subst fieldtype.
  - apply keeps_listofstrings. exact Ht.
  - apply keeps_listofstringtuples. exact Ht.
  - apply keeps_dictofstrings. exact Ht. }
specialize (Hm st).
match goal with
| |- match ?x with _ => _ end =>
  match type of Hm with
  | match ?y with _ => _ end => change x with y; destruct y
  end
end; try exact I; apply Hm; split; assumption.
Qed.

End ShapeCascade.

Section ShapeKept.

Variable convert_to_unicode : value -> option string.
Variable level_char : Z -> string.
Hypothesis convert_str : forall s, convert_to_unicode (VStr s) = Some s.

Lemma keeps_rec : forall flds n key value,
    relates (keeps flds) (add_metadata_rec convert_to_unicode level_char n key value).
Proof.
intros flds. induction n as [|n IH]; intros key value.
- intros st. exact I.
- apply keeps_body; assumption.
Qed.

(** X4.  A report keeps the store in shape: if every field of the store
    is in the schema and holds what the type of the field says (a list of
    strings, a list of sequences of strings, a dictionary of strings and
    lists of strings), the same is true after the report, whatever the
    field and the value and whether the report returns or raises. *)
Theorem report_keeps_shape : forall key value st st',
    well_shaped st ->
    final (add_metadata convert_to_unicode level_char key value st) = Some st' ->
    well_shaped st' /\ fields st' = fields st.
Proof.
intros key value st st' Hw Hfinal.
pose proof (keeps_rec (fields st) cascade_depth key value st) as K.
fold (add_metadata convert_to_unicode level_char) in K.
assert (Hs : shaped (fields st) st') .
{ destruct (add_metadata convert_to_unicode level_char key value st) as [[] s|e s|];
    try discriminate; injection Hfinal as <-; apply K; split; auto. }
destruct Hs as [Hf Hw']. split; assumption.
Qed.

End ShapeKept.

Lemma well_shaped_start : forall flds, well_shaped (run_start flds).
Proof. intros flds key v H. destruct H. Qed.

Lemma report_keeps_shape_witness :
  well_shaped (run_start fields_json)
  /\ exists st',
      final (report_model "c2_url" (VStr "http://bad.com:80/x") (run_start fields_json))
      = Some st'
      /\ well_shaped st'.
Proof.
split; [apply well_shaped_start |].
eexists. split; [vm_compute; reflexivity |].
refine (proj1 (report_keeps_shape to_unicode_model level_char_model to_unicode_model_str
                 "c2_url" (VStr "http://bad.com:80/x") (run_start fields_json) _
                 (well_shaped_start fields_json) _)).
vm_compute. reflexivity.
Defined.

(** ** The text of a store in shape *)

Lemma all_strs_from_strs : forall vals i, all_strs_from i (map VStr vals) = inr vals.
Proof.
induction vals as [|s vals IH]; intros i; simpl.
- reflexivity.
- rewrite IH. reflexivity.
Qed.

Lemma py_join_strs : forall sep vals, py_join sep (strs vals) = inr (Str.join sep vals).
Proof.
intros sep vals. unfold py_join, strs, all_strs. simpl.
rewrite all_strs_from_strs. reflexivity.
Qed.

(** X5.  [format_list] returns a text for every key and every sequence of
    strings: no component is read that the test on the length has not
    shown to be there. *)
Theorem format_list_total : forall key vals,
    exists text, format_list (strs vals) (VStr key) = inr text.
Proof.
intros key vals. unfold format_list, key_and_len. cbn [existsb value_eqb orb].
repeat match goal with
       | |- context [if (?k =? ?c)%string then _ else _] =>
         destruct (k =? c)%string
       | |- context [if (?a || ?b)%bool then _ else _] => destruct a; cbn [orb]
       end;
  cbn [py_len strs]; rewrite ?length_map;
  destruct vals as [|a [|b [|c [|d [|e [|f vals]]]]]]; cbn;
  try (eexists; reflexivity);
  rewrite ?all_strs_from_strs; try (eexists; reflexivity).
Qed.

(** a value that [get_printable_key_value] can print: a string, a
    dictionary, or a list of strings and of sequences of strings *)
Definition printable_ok (v : value) : bool :=
match v with
| VStr _ | VDict _ => true
| VList l => forallb (fun x => is_str x || is_strs x) l
| VNone | VInt _ => false
end.

Lemma is_strs_inv : forall v, is_strs v = true -> exists vals, v = strs vals.
Proof.
intros v H. destruct v as [| | | l |]; try discriminate H. simpl in H.
induction l as [|x l IH].
- exists []. reflexivity.
- simpl in H. apply andb_true_iff in H. destruct H as [Hx Hl].
  destruct x; try discriminate Hx.
  destruct (IH Hl) as [vals Hvals]. exists (s :: vals).
  unfold strs in *. simpl. injection Hvals as ->. reflexivity.
Qed.

Lemma forallb_weaken : forall {A : Type} (P Q : A -> bool) l,
    (forall x, P x = true -> Q x = true) -> forallb P l = true -> forallb Q l = true.
Proof.
intros A P Q l H. induction l as [|x l IH]; simpl; [reflexivity |].
intros Hl. apply andb_true_iff in Hl. destruct Hl as [Hx Hl].
rewrite (H x Hx), (IH Hl). reflexivity.
Qed.

Lemma shape_ok_printable : forall t v, shape_ok t v = true -> printable_ok v = true.
Proof.
intros t v. unfold shape_ok.
destruct (t =? "listofstrings"); [| destruct (t =? "listofstringtuples");
                                    [| destruct (t =? "dictofstrings"); [| discriminate]]];
  destruct v; try discriminate; simpl; try reflexivity;
    apply forallb_weaken; intros x Hx; rewrite Hx; auto using orb_true_r.
Qed.

Section TextTotal.

Variable convert_to_unicode : value -> option string.
Hypothesis convert_str : forall s, convert_to_unicode (VStr s) = Some s.

Lemma item_lines_total : forall key items printkey output,
    forallb (fun x => is_str x || is_strs x) items = true ->
    exists text,
      item_lines convert_to_unicode (VStr key) (VStr printkey) items output = inr text.
Proof.
intros key items. induction items as [|item rest IH]; intros printkey output H.
- exists output. reflexivity.
- simpl in H. apply andb_true_iff in H. destruct H as [Hitem Hrest].
  cbn [item_lines].
  assert (Htext : exists text,
             match item with
             | VStr _ => to_unicode convert_to_unicode item
             | _ => format_list item (VStr key)
             end = inr text).
  { destruct item as [| s | n | l | d]; try discriminate Hitem.
    - unfold to_unicode. rewrite convert_str. eexists. reflexivity.
    - simpl in Hitem. destruct (is_strs_inv (VList l) Hitem) as [vals ->].
      apply format_list_total. }
  destruct Htext as [text ->]. cbn [line fmt20].
  apply IH. exact Hrest.
Qed.

Lemma printable_total : forall key v,
    printable_ok v = true ->
    exists text, get_printable_key_value convert_to_unicode (VStr key) v = inr text.
Proof.
intros key v H. unfold get_printable_key_value.
destruct v as [| s | n | l | d]; try discriminate H.
- unfold to_unicode. rewrite convert_str. cbn [line fmt20]. eexists. reflexivity.
- cbn [iterate]. apply item_lines_total. exact H.
- cbn [iterate]. apply item_lines_total. clear H.
  induction d as [|kv d IH]; [reflexivity | simpl; exact IH].
Qed.

Section Store.

Variable md : Dict.t value.
Hypothesis md_ok : forall key v, Dict.get key md = Some v -> printable_ok v = true.

Lemma print_present_total : forall keys output,
    exists text, print_present convert_to_unicode md keys output = inr text.
Proof.
induction keys as [|key rest IH]; intros output; cbn [print_present].
- exists output. reflexivity.
- destruct (Dict.get key md) as [v|] eqn:Hget; [| apply IH].
  destruct (printable_total key v (md_ok key v Hget)) as [s ->]. apply IH.
Qed.

End Store.

Lemma print_remaining_total : forall flds entries output,
    (forall key v, In (key, v) entries -> printable_ok v = true) ->
    exists text, print_remaining convert_to_unicode flds entries output = inr text.
Proof.
intros flds entries. induction entries as [|[key v] rest IH]; intros output H;
  cbn [print_remaining].
- exists output. reflexivity.
- assert (Hrest : forall k w, In (k, w) rest -> printable_ok w = true)
    by (intros k w Hin; apply (H k w); right; exact Hin).
  destruct (is_remaining flds key); [| apply IH; exact Hrest].
  destruct (printable_total key v (H key v (or_introl eq_refl))) as [s ->].
  apply IH. exact Hrest.
Qed.

Lemma insert_sorted_in : forall s l x, In x (insert_sorted s l) -> x = s \/ In x l.
Proof.
intros s l x. induction l as [|y l IH]; simpl.
- intros [<-|[]]. left. reflexivity.
- destruct (String.leb s y); simpl.
  + intros [<-|H]; [left; reflexivity | right; exact H].
  + intros [<-|H]; [right; left; reflexivity |].
    destruct (IH H) as [->|Hin]; [left; reflexivity | right; right; exact Hin].
Qed.

Lemma sorted_in : forall l x, In x (sorted l) -> In x l.
Proof.
induction l as [|y l IH]; intros x; unfold sorted; simpl.
- intros [].
- intros H. apply insert_sorted_in in H. destruct H as [->|H]; [left; reflexivity |].
  right. apply IH. exact H.
Qed.

Lemma dict_get_key : forall (d : Dict.t value) k,
    In k (Dict.keys d) -> exists v, Dict.get k d = Some v.
Proof.
induction d as [|[j w] d IH]; intros k; simpl.
- intros [].
- destruct (k =? j) eqn:E; [eexists; reflexivity |].
  intros [H|H]; [subst j; rewrite String.eqb_refl in E; discriminate | apply IH; exact H].
Qed.

Lemma print_other_total : forall d keys output,
    forallb (fun kv => is_str (snd kv) || is_strs (snd kv)) d = true ->
    (forall k, In k keys -> In k (Dict.keys d)) ->
    exists text, print_other convert_to_unicode d keys output = inr text.
Proof.
intros d keys. induction keys as [|key rest IH]; intros output Hd Hkeys;
  cbn [print_other].
- exists output. reflexivity.
- destruct (dict_get_key d key (Hkeys key (or_introl eq_refl))) as [v Hv]. rewrite Hv.
  pose proof (forallb_dict_get (fun x => is_str x || is_strs x) d key v Hd Hv) as Hok.
  assert (Hp : printable_ok v = true).
  { destruct v as [| s | n | l | e]; try discriminate Hok; [reflexivity |].
    simpl in *. eapply forallb_weaken; [| exact Hok]. intros x Hx. rewrite Hx. reflexivity. }
  destruct (printable_total key v Hp) as [s ->].
  apply IH; [exact Hd |]. intros k Hk. apply Hkeys. right. exact Hk.
Qed.

(** the tuples of [outputfile] have a name, a description and a hash *)
Definition file_ok (v : value) : bool :=
is_strs v && match v with VList x => (3 <=? List.length x)%nat | _ => false end.

Lemma print_outputfiles_total : forall values output,
    forallb file_ok values = true ->
    exists text, print_outputfiles convert_to_unicode values output = inr text.
Proof.
induction values as [|value rest IH]; intros output H; cbn [print_outputfiles].
- exists output. reflexivity.
- simpl in H. apply andb_true_iff in H. destruct H as [Hv Hrest].
  unfold file_ok in Hv. apply andb_true_iff in Hv. destruct Hv as [Hs Hlen].
  destruct (is_strs_inv value Hs) as [vals ->].
  destruct vals as [|a [|b [|c vals]]]; try discriminate Hlen.
  cbn [py_index strs map nth_error].
  destruct (printable_total a (VList [VStr b; VStr c]) eq_refl) as [s Hs'].
  change (get_printable_key_value convert_to_unicode (VStr a) (VList [VStr b; VStr c]))
    with (get_printable_key_value convert_to_unicode (VStr a) (VList [VStr b; VStr c]))
    in Hs'.
  rewrite Hs'. apply IH. exact Hrest.
Qed.

(** every value of a dictionary of [other] is a string or a list of
    strings *)
Definition other_ok (v : value) : bool :=
match v with
| VDict d => forallb (fun kv => is_str (snd kv) || is_strs (snd kv)) d
| _ => false
end.

Definition files_ok (v : value) : bool :=
match v with
| VList l => forallb file_ok l
| _ => false
end.

(** X6.  [get_output_text] returns a text, and no section raises, when
    every value of the store is a string, a dictionary, or a list of
    strings and of sequences of strings, when [other], if it is there, is
    a dictionary of strings and lists of strings, and when the tuples of
    [outputfile] have three components at least (as have those that
    [output_file] reports). *)
Theorem report_text_total : forall st,
    (forall key v, In (key, v) (metadata st) -> printable_ok v = true) ->
    (forall v, Dict.get "other" (metadata st) = Some v -> other_ok v = true) ->
    (forall v, Dict.get "outputfile" (metadata st) = Some v -> files_ok v = true) ->
    exists text, get_output_text convert_to_unicode st = inr text.
Proof.
intros st Hin Hother Hfiles.
assert (Hmd : forall key v, Dict.get key (metadata st) = Some v -> printable_ok v = true).
{ intros key v Hget. apply (Hin key). apply DictFacts.get_In. exact Hget. }
unfold get_output_text. cbv zeta.
assert (Hinfo : exists text, print_info_section convert_to_unicode (metadata st) "" = inr text).
{ unfold print_info_section. destruct (Dict.mem "inputfilename" (metadata st)).
  - apply print_present_total. exact Hmd.
  - eexists. reflexivity. }
destruct Hinfo as [info ->].
destruct (print_present_total (metadata st) Hmd STANDARD_FIELD_ORDER
            (info ++ Str.nl ++ "----Standard Metadata----" ++ Str.nl ++ Str.nl))
  as [std ->].
destruct (print_remaining_total (fields st) (metadata st) std Hin) as [rest ->].
assert (Ho : exists text, print_other_section convert_to_unicode (metadata st) rest = inr text).
{ unfold print_other_section.
  destruct (Dict.get "other" (metadata st)) as [other|] eqn:Hget; [| eexists; reflexivity].
  pose proof (Hother other eq_refl) as Hok.
  destruct other as [| | | | d]; try discriminate Hok. cbv zeta.
  apply print_other_total; [exact Hok | intros k; apply sorted_in]. }
destruct Ho as [other ->].
assert (Hd : exists text, print_debug_section (metadata st) other = inr text).
{ unfold print_debug_section.
  destruct (Dict.get "debug" (metadata st)) as [debug|] eqn:Hget; [| eexists; reflexivity].
  cbv zeta. pose proof (Hmd "debug" debug Hget) as Hp.
  destruct debug; try discriminate Hp; eexists; reflexivity. }
destruct Hd as [debug ->].
assert (Hf : exists text,
           print_outputfile_section convert_to_unicode (metadata st) debug = inr text).
{ unfold print_outputfile_section.
  destruct (Dict.get "outputfile" (metadata st)) as [files|] eqn:Hget;
    [| eexists; reflexivity].
  pose proof (Hfiles files eq_refl) as Hok.
  destruct files as [| | | l |]; try discriminate Hok. cbv zeta. cbn [iterate].
  apply print_outputfiles_total. exact Hok. }
destruct Hf as [files ->].
eexists. reflexivity.
Qed.

Lemma print_outputfiles_short : forall values vals output,
    In (strs vals) values ->
    List.length vals < 3 ->
    exists e, print_outputfiles convert_to_unicode values output = inl e.
Proof.
induction values as [|value rest IH]; intros vals output Hin Hlen; [destruct Hin |].
cbn [print_outputfiles].
destruct Hin as [->|Hin].
- destruct vals as [|a [|b [|c vals]]]; simpl in Hlen; try lia;
    cbn [py_index strs map nth_error]; eexists; reflexivity.
- destruct (py_index value 0) as [e|v0]; [eexists; reflexivity |].
  destruct (py_index value 1) as [e|v1]; [eexists; reflexivity |].
  destruct (py_index value 2) as [e|v2]; [eexists; reflexivity |].
  destruct (get_printable_key_value convert_to_unicode v0 (VList [v1; v2])) as [e|s];
    [eexists; reflexivity |].
  eapply IH; eassumption.
Qed.

(** X7.  A tuple of [outputfile] with fewer than three components, which
    [add_metadata] accepts, makes [get_output_text] raise: the section of
    the output files reads the components 0, 1 and 2 of every tuple. *)
Theorem short_outputfile_breaks_text : forall st l vals,
    Dict.get "outputfile" (metadata st) = Some (VList l) ->
    In (strs vals) l ->
    List.length vals < 3 ->
    exists e, get_output_text convert_to_unicode st = inl e.
Proof.
intros st l vals Hget Hin Hlen. unfold get_output_text. cbv zeta.
destruct (print_info_section convert_to_unicode (metadata st) "") as [e|o1];
  [eexists; reflexivity |].
match goal with |- context [print_present ?c ?m ?k ?o] =>
  destruct (print_present c m k o) as [e|o2]; [eexists; reflexivity |] end.
destruct (print_remaining convert_to_unicode (fields st) (metadata st) o2) as [e|o3];
  [eexists; reflexivity |].
destruct (print_other_section convert_to_unicode (metadata st) o3) as [e|o4];
  [eexists; reflexivity |].
destruct (print_debug_section (metadata st) o4) as [e|o5]; [eexists; reflexivity |].
unfold print_outputfile_section. rewrite Hget. cbv zeta. cbn [iterate].
match goal with |- context [print_outputfiles ?c ?v ?o] =>
  destruct (print_outputfiles_short v vals o Hin Hlen) as [e ->] end.
eexists. reflexivity.
Qed.

End TextTotal.

(** a store with the file information that the caller has set, a field
    of tuples, a dictionary and an output file *)
Definition store_c : Reporter :=
set_metadata [("inputfilename", VStr "sample.bin");
              ("socketaddress", VList [strs ["10.0.0.1"; "80"; "tcp"]]);
              ("other", VDict [("b", VStr "x"); ("a", VList [VStr "y"; VStr "z"])]);
              ("outputfile", VList [strs ["a.txt"; "note";
                                          "d41d8cd98f00b204e9800998ecf8427e"]])]
             (new_reporter fields_json).

Lemma report_text_total_witness :
  exists text, get_output_text to_unicode_model store_c = inr text.
Proof.
apply (report_text_total to_unicode_model to_unicode_model_str store_c).
- intros key v Hin. simpl in Hin.
  repeat (destruct Hin as [Heq|Hin]; [injection Heq as <- <-; reflexivity |]).
  destruct Hin.
- intros v Hget. vm_compute in Hget. injection Hget as <-. reflexivity.
- intros v Hget. vm_compute in Hget. injection Hget as <-. reflexivity.
Defined.

Lemma short_outputfile_breaks_text_witness :
  exists st,
    report_model "outputfile" (strs ["a.txt"; "note"]) (run_start fields_json) = Ret tt st
    /\ Dict.get "outputfile" (metadata st) = Some (VList [strs ["a.txt"; "note"]])
    /\ exists e, get_output_text to_unicode_model st = inl e.
Proof.
eexists. split; [vm_compute; reflexivity |]. split; [reflexivity |].
refine (short_outputfile_breaks_text to_unicode_model _
          [strs ["a.txt"; "note"]] ["a.txt"; "note"] _ _ _).
- reflexivity.
- left. reflexivity.
- repeat constructor.
Defined.

(** ** What the rules derive *)

(** the list of the field [k] has the value [v] *)
Definition has (k : string) (v : value) (st : Reporter) : Prop :=
exists l, Dict.get k (metadata st) = Some (VList l) /\ In v l.

(** a fact that no report undoes *)
Definition stable (H : Reporter -> Prop) : Prop :=
forall (W : string -> Prop) st st', framed W st st' -> H st -> H st'.

Lemma has_stable : forall k v, stable (has k v).
Proof.
intros k v W st st' F [l [Hget Hin]].
destruct (fr_grows F k l Hget) as [l' Hget']. exists (l ++ l')%list.
split; [exact Hget' | apply in_or_app; left; exact Hin].
Qed.

Lemma stable_and : forall (H G : Reporter -> Prop),
    stable H -> stable G -> stable (fun st => H st /\ G st).
Proof. intros H G SH SG W st st' F [HH HG]. split; [eapply SH | eapply SG]; eassumption. Qed.

Lemma stable_true : stable (fun _ => True).
Proof. intros W st st' _ _. exact I. Qed.

Lemma stable_impl : forall (c : Prop) (H : Reporter -> Prop),
    stable H -> stable (fun st => c -> H st).
Proof. intros c H SH W st st' F HH Hc. eapply SH; [exact F | apply HH; exact Hc]. Qed.

Lemma has_entries : forall k v st l,
    entries k st = Some l -> In v l -> has k v st.
Proof.
intros k v st l He Hin. unfold entries in He.
destruct (Dict.get k (metadata st)) as [x|] eqn:Hget.
- destruct x; try discriminate He. injection He as ->. exists l. split; [exact Hget | exact Hin].
- injection He as <-. destruct Hin.
Qed.

Lemma in_add_unique : forall always v l, In v (add_unique always v l).
Proof.
intros always v l. unfold add_unique.
destruct (existsb (value_eqb v) l) eqn:E; destruct always; simpl;
  try (apply in_or_app; right; left; reflexivity).
apply existsb_value_eqb_In. exact E.
Qed.

(** from a state in [P], [m] returns, in a state in [Q] *)
Definition ensures {A : Type} (P : Reporter -> Prop) (m : M A) (Q : Reporter -> Prop) : Prop :=
forall st, P st -> exists a st', m st = Ret a st' /\ Q st'.

Lemma ensures_ret : forall {A : Type} (P Q : Reporter -> Prop) (a : A),
    (forall st, P st -> Q st) -> ensures P (ret a) Q.
Proof. intros A P Q a H st HP. exists a, st. split; [reflexivity | apply H; exact HP]. Qed.

Lemma ensures_bind : forall {A B : Type} (P Q R : Reporter -> Prop) (m : M A) (f : A -> M B),
    ensures P m Q -> (forall a, ensures Q (f a) R) -> ensures P (bind m f) R.
Proof.
intros A B P Q R m f Hm Hf st HP.
destruct (Hm st HP) as [a [s [E HQ]]]. destruct (Hf a s HQ) as [b [s' [E' HR]]].
exists b, s'. split; [| exact HR]. unfold bind. rewrite E. exact E'.
Qed.

Lemma ensures_conseq : forall {A : Type} (P P' Q Q' : Reporter -> Prop) (m : M A),
    (forall st, P' st -> P st) -> (forall st, Q st -> Q' st) ->
    ensures P m Q -> ensures P' m Q'.
Proof.
intros A P P' Q Q' m HP HQ Hm st H.
destruct (Hm st (HP st H)) as [a [s [E HQs]]]. exists a, s. split; [exact E | apply HQ, HQs].
Qed.

Lemma ensures_same : forall {A : Type} (P Q : Reporter -> Prop) (m m' : M A),
    (forall st, P st -> m st = m' st) -> ensures P m' Q -> ensures P m Q.
Proof.
intros A P Q m m' H Hm st HP. rewrite (H st HP). apply Hm. exact HP.
Qed.

Lemma ensures_when : forall (P Q : Reporter -> Prop) (b : bool) (m : M unit),
    (b = true -> ensures P m Q) -> (b = false -> forall st, P st -> Q st) ->
    ensures P (when b m) Q.
Proof.
intros P Q [|] m Ht Hf; [apply Ht; reflexivity | apply ensures_ret, Hf; reflexivity].
Qed.

Lemma ensures_try : forall {A : Type} (P Q : Reporter -> Prop) (m : M A) (h : exn -> M A),
    ensures P m Q -> ensures P (try_except m h) Q.
Proof.
intros A P Q m h Hm st HP. destruct (Hm st HP) as [a [s [E HQ]]].
exists a, s. split; [| exact HQ]. unfold try_except. rewrite E. reflexivity.
Qed.

(** a step that is skipped *)
Lemma ensures_skip : forall {B : Type} (P Q : Reporter -> Prop) (b : bool) (m : M unit)
                            (k : M B),
    b = false -> ensures P k Q -> ensures P (when b m ;; k) Q.
Proof. intros B P Q b m k -> H. exact H. Qed.

Lemma ensures_skip_last : forall (P : Reporter -> Prop) (b : bool) (m : M unit),
    b = false -> ensures P (when b m) P.
Proof. intros P b m ->. apply ensures_ret. auto. Qed.

Section Derived.

Variable flds : Dict.t string.
Variable convert_to_unicode : value -> option string.
Variable level_char : Z -> string.
Hypothesis convert_str : forall s, convert_to_unicode (VStr s) = Some s.
Hypothesis debug_field : Dict.get "debug" flds = Some "listofstrings".

Let report : intake := add_metadata convert_to_unicode level_char.
Let rec : nat -> intake := add_metadata_rec convert_to_unicode level_char.

(** the store is in shape, with the schema [flds], and [H] holds *)
Definition inv (H : Reporter -> Prop) (st : Reporter) : Prop := shaped flds st /\ H st.

(** a nested call does what a report does *)
Lemma nested_report : forall m k v st, depth k v < m -> rec m k v st = report k v st.
Proof.
intros m k v st Hd.
assert (Hm : rec m k v st <> OutOfFuel).
{ pose proof (add_metadata_rec_good convert_to_unicode level_char convert_str m k v Hd st)
    as S.
  intros E. unfold rec in E. rewrite E in S. exact S. }
destruct (Nat.le_gt_cases m cascade_depth) as [Hle|Hgt].
- unfold report, add_metadata.
  replace cascade_depth with (m + (cascade_depth - m)) by lia.
  symmetry.
  apply (rec_refines_more convert_to_unicode level_char (cascade_depth - m) m k v st Hm).
- unfold report, add_metadata.
  replace m with (cascade_depth + (m - cascade_depth)) by lia.
  apply (rec_refines_more convert_to_unicode level_char (m - cascade_depth) cascade_depth
                          k v st).
  pose proof (add_metadata_sat convert_to_unicode level_char convert_str k v st) as S.
  intros E. unfold add_metadata in S. rewrite E in S. exact S.
Qed.

Lemma shaped_debug : forall st, shaped flds st -> Dict.mem "debug" (fields st) = true.
Proof. intros st [Hf _]. rewrite Hf. unfold Dict.mem. rewrite debug_field. reflexivity. Qed.

(** a report, however it ends, keeps the store in shape and every stable
    fact *)
Lemma inv_final : forall (H : Reporter -> Prop) k v st st',
    stable H -> inv H st -> final (report k v st) = Some st' -> inv H st'.
Proof.
intros H k v st st' SH [Hs HH] Hfin.
pose proof (add_metadata_sat convert_to_unicode level_char convert_str k v st) as S.
pose proof (keeps_rec convert_to_unicode level_char convert_str flds cascade_depth k v st)
  as K.
unfold report in Hfin. unfold add_metadata in *.
destruct (add_metadata_rec convert_to_unicode level_char cascade_depth k v st)
  as [[] s|e s|]; try discriminate; injection Hfin as <-;
  (split; [apply K; exact Hs | eapply SH; [exact S | exact HH]]).
Qed.

Lemma ensures_string : forall (H : Reporter -> Prop) key s,
    stable H -> key <> "debug" -> s <> "" ->
    Dict.get key flds = Some "listofstrings" ->
    ensures (inv H) (report key (VStr s)) (inv (fun st => H st /\ has key (VStr s) st)).
Proof.
intros H key s SH Hkey Hs Hfield st [[Hf Hw] HH].
assert (Hfield' : Dict.get key (fields st) = Some "listofstrings")
  by (rewrite Hf; exact Hfield).
destruct (well_shaped_entries key _ st Hw Hfield' (or_introl eq_refl)) as [l [Hl _]].
destruct (report_string_entry convert_to_unicode level_char convert_str key s st l
            Hkey Hs Hfield' Hl) as [st' [Hrun [He _]]].
exists tt, st'. split; [exact Hrun |].
assert (I : inv H st').
{ apply (inv_final H key (VStr s) st st' SH); [split; [split |]; assumption |].
  unfold report in *. rewrite Hrun. reflexivity. }
destruct I as [Hs' HH']. split; [exact Hs' | split; [exact HH' |]].
apply (has_entries key (VStr s) st' _ He). apply in_add_unique.
Qed.

Lemma ensures_tuple : forall (H : Reporter -> Prop) key vals,
    stable H -> key <> "debug" -> some_text vals = true ->
    Dict.get key flds = Some "listofstringtuples" ->
    ensures (inv H) (report key (strs vals))
            (inv (fun st => H st /\ has key (strs (padded key vals)) st)).
Proof.
intros H key vals SH Hkey Hs Hfield st [[Hf Hw] HH].
assert (Hfield' : Dict.get key (fields st) = Some "listofstringtuples")
  by (rewrite Hf; exact Hfield).
destruct (well_shaped_entries key _ st Hw Hfield' (or_intror eq_refl)) as [l [Hl _]].
destruct (report_tuple_entry convert_to_unicode level_char convert_str key vals st l
            Hkey Hs Hfield' Hl) as [st' [Hrun [He _]]].
exists tt, st'. split; [exact Hrun |].
assert (I : inv H st').
{ apply (inv_final H key (strs vals) st st' SH); [split; [split |]; assumption |].
  unfold report in *. rewrite Hrun. reflexivity. }
destruct I as [Hs' HH']. split; [exact Hs' | split; [exact HH' |]].
apply (has_entries key _ st' _ He). apply in_add_unique.
Qed.

(** a report on a field of the schema returns, whatever the value, if the
    value can be iterated *)
Lemma ensures_known : forall (H : Reporter -> Prop) key v b,
    stable H -> Dict.mem key flds = true -> empty_value v = Some b ->
    ensures (inv H) (report key v) (inv H).
Proof.
intros H key v b SH Hkey Hv st I.
assert (Hrun : exists st', report key v st = Ret tt st').
{ destruct I as [[Hf Hw] _]. destruct b.
  - apply (report_empty_returns convert_to_unicode level_char convert_str key v st);
      [apply shaped_debug; split; assumption | exact Hv].
  - destruct (report_known_returns convert_to_unicode level_char convert_str key v st)
      as [st' [Hrun _]]; [rewrite Hf; exact Hkey | exact Hv |].
    exists st'. exact Hrun. }
destruct Hrun as [st' Hrun]. exists tt, st'. split; [exact Hrun |].
apply (inv_final H key v st st' SH I). rewrite Hrun. reflexivity.
Qed.

Lemma empty_value_str : forall s, empty_value (VStr s) = Some (s =? "").
Proof. intros [|c s]; reflexivity. Qed.

Lemma empty_value_some_text : forall vals,
    empty_value (strs vals) = Some (negb (some_text vals)).
Proof.
intros vals. unfold empty_value, strs. simpl. f_equal.
induction vals as [|s vals IH]; simpl.
- reflexivity.
- rewrite IH. destruct (s =? ""); reflexivity.
Qed.

(** the log handler of a nested call reports as the one of the report *)
Lemma log_rec_report : forall n level message exc st,
    1 <= n ->
    log_record level_char (rec n) level message exc st
    = log_record level_char report level message exc st.
Proof.
intros n level message exc st Hn. unfold log_record, bind, modify, gets, when.
match goal with |- context [if ?b then _ else _] => destruct b end; [| reflexivity].
unfold emit. destruct (WARNING <? level)%Z; [reflexivity |].
destruct ((INFO <=? level) && (level <=? WARNING))%Z; [| reflexivity].
apply nested_report. unfold depth, format_record. simpl. exact Hn.
Qed.

Lemma ensures_log : forall (H : Reporter -> Prop) level message exc,
    stable H ->
    ensures (inv H) (log_record level_char (rec 4) level message exc) (inv H).
Proof.
intros H level message exc SH st [Hs HH].
destruct (log_returns convert_to_unicode level_char convert_str level message exc st
            (shaped_debug st Hs)) as [st' [Hrun Hfr]].
exists tt, st'. rewrite log_rec_report by lia. split; [exact Hrun |].
pose proof (keeps_log_record flds level_char report
              (keeps_rec convert_to_unicode level_char convert_str flds cascade_depth)
              level message exc st) as K.
unfold report in *. rewrite Hrun in K.
split; [apply K; exact Hs | eapply SH; [exact Hfr | exact HH]].
Qed.

(** a nested report, from the rule of a field of rank four or less *)
Lemma ensures_nested : forall (P Q : Reporter -> Prop) k v,
    depth k v < 4 -> ensures P (report k v) Q -> ensures P (rec 4 k v) Q.
Proof.
intros P Q k v Hd. apply ensures_same. intros st _. apply nested_report. exact Hd.
Qed.


(** from a state in [P], [m] ends, by returning or by raising, in a state
    in [Q] *)
Definition settles {A : Type} (P : Reporter -> Prop) (m : M A) (Q : Reporter -> Prop) : Prop :=
forall st, P st ->
           match m st with
           | Ret _ st' | Raise _ st' => Q st'
           | OutOfFuel => False
           end.

Lemma settles_ensures : forall {A : Type} (P Q : Reporter -> Prop) (m : M A),
    ensures P m Q -> settles P m Q.
Proof. intros A P Q m Hm st HP. destruct (Hm st HP) as [a [s [E HQ]]]. rewrite E. exact HQ. Qed.

Lemma settles_bind : forall {A B : Type} (P Q R : Reporter -> Prop) (m : M A) (f : A -> M B),
    ensures P m Q -> (forall a, settles Q (f a) R) -> settles P (bind m f) R.
Proof.
intros A B P Q R m f Hm Hf st HP. destruct (Hm st HP) as [a [s [E HQ]]].
unfold bind. rewrite E. apply Hf. exact HQ.
Qed.

Lemma settles_conseq : forall {A : Type} (P P' Q Q' : Reporter -> Prop) (m : M A),
    (forall st, P' st -> P st) -> (forall st, Q st -> Q' st) ->
    settles P m Q -> settles P' m Q'.
Proof.
intros A P P' Q Q' m HP HQ Hm st H. specialize (Hm st (HP st H)).
destruct (m st); try exact Hm; apply HQ; exact Hm.
Qed.

Lemma settles_same : forall {A : Type} (P Q : Reporter -> Prop) (m m' : M A),
    (forall st, P st -> m st = m' st) -> settles P m' Q -> settles P m Q.
Proof. intros A P Q m m' H Hm st HP. rewrite (H st HP). apply Hm. exact HP. Qed.

(** [try: m except Exception: h] returns when [h] does *)
Lemma ensures_try_settles : forall (P Q : Reporter -> Prop) (m : M unit) (h : exn -> M unit),
    settles P m Q -> (forall e, ensures Q (h e) Q) -> ensures P (try_except m h) Q.
Proof.
intros P Q m h Hm Hh st HP. specialize (Hm st HP). unfold try_except.
destruct (m st) as [[] s|e s|]; [| | contradiction].
- exists tt, s. split; [reflexivity | exact Hm].
- destruct (Hh e s Hm) as [[] [s' [E HQ]]]. exists tt, s'. split; [exact E | exact HQ].
Qed.

Lemma get_mem : forall k t, Dict.get k flds = Some t -> Dict.mem k flds = true.
Proof. intros k t H. unfold Dict.mem. rewrite H. reflexivity. Qed.

(** a nested report ends, whatever the field and the value *)
Lemma settles_report : forall (H : Reporter -> Prop) k v,
    stable H -> settles (inv H) (report k v) (inv H).
Proof.
intros H k v SH st I.
pose proof (inv_final H k v st) as F.
pose proof (add_metadata_sat convert_to_unicode level_char convert_str k v st) as S.
unfold report in *. destruct (add_metadata convert_to_unicode level_char k v st) as [[] s|e s|];
  [apply F; [exact SH | exact I | reflexivity]
  | apply F; [exact SH | exact I | reflexivity] | exact S].
Qed.

Lemma settles_nested : forall (H : Reporter -> Prop) k v,
    stable H -> depth k v < 4 -> settles (inv H) (rec 4 k v) (inv H).
Proof.
intros H k v SH Hd. apply settles_same with (m' := report k v).
- intros st _. apply nested_report. exact Hd.
- apply settles_report. exact SH.
Qed.

Lemma ensures_string_if : forall (H : Reporter -> Prop) key s,
    stable H -> key <> "debug" ->
    Dict.get key flds = Some "listofstrings" ->
    ensures (inv H) (report key (VStr s))
            (inv (fun st => H st /\ (s <> "" -> has key (VStr s) st))).
Proof.
intros H key s SH Hkey Hfield. destruct (String.eqb_spec s "") as [->|Hs].
- eapply ensures_conseq;
    [| | apply (ensures_known
                   H key (VStr "") true SH (get_mem _ _ Hfield) eq_refl)].
  + intros st I. exact I.
  + intros st [Hsh HH]. split; [exact Hsh | split; [exact HH | intros C; contradiction C; reflexivity]].
- eapply ensures_conseq;
    [| | apply (ensures_string
                   H key s SH Hkey Hs Hfield)].
  + intros st I. exact I.
  + intros st [Hsh [HH Hhas]]. split; [exact Hsh | split; [exact HH | intros _; exact Hhas]].
Qed.

Lemma ensures_tuple_if : forall (H : Reporter -> Prop) key vals,
    stable H -> key <> "debug" ->
    Dict.get key flds = Some "listofstringtuples" ->
    ensures (inv H) (report key (strs vals))
            (inv (fun st => H st /\ (some_text vals = true
                                     -> has key (strs (padded key vals)) st))).
Proof.
intros H key vals SH Hkey Hfield. destruct (some_text vals) eqn:Hs.
- eapply ensures_conseq;
    [| | apply (ensures_tuple
                   H key vals SH Hkey Hs Hfield)].
  + intros st I. exact I.
  + intros st [Hsh [HH Hhas]]. split; [exact Hsh | split; [exact HH | intros _; exact Hhas]].
- eapply ensures_conseq;
    [| | apply (ensures_known
                   H key (strs vals) true SH (get_mem _ _ Hfield))].
  + intros st I. exact I.
  + intros st [Hsh HH]. split; [exact Hsh | split; [exact HH | intros C; discriminate C]].
  + rewrite empty_value_some_text, Hs. reflexivity.
Qed.

(** the element of a sequence is added to the list of its field *)
Lemma ensures_append : forall (H : Reporter -> Prop) key t v always,
    stable H ->
    Dict.get key flds = Some t ->
    t = "listofstrings" /\ is_str v = true \/ t = "listofstringtuples" /\ is_strs v = true ->
    ensures (inv H) (append_unique key v always) (inv (fun st => H st /\ has key v st)).
Proof.
intros H key t v always SH Hfield Hv st [[Hf Hw] HH].
assert (Hfield' : Dict.get key (fields st) = Some t) by (rewrite Hf; exact Hfield).
destruct (well_shaped_entries key t st Hw Hfield') as [l [Hl _]].
{ destruct Hv as [[-> _]|[-> _]]; [left | right]; reflexivity. }
pose proof (keeps_append_unique flds key t v always Hfield Hv st) as K.
pose proof (sat_append_unique (fun _ => True) key v always I st) as S.
rewrite (append_unique_exact key v always st l Hl) in *.
exists tt, (store key (add_unique always v l) st). split; [reflexivity |].
split; [apply K; split; assumption |].
split; [eapply SH; [exact S | exact HH] |].
apply (has_entries key v _ (add_unique always v l)); [apply entries_store | apply in_add_unique].
Qed.

(** the handler of [add_metadata] *)
Lemma ensures_handler : forall (Q : Reporter -> Prop) message e,
    stable Q -> ensures (inv Q) (log_exception level_char (rec 4) message e) (inv Q).
Proof.
intros Q message e SQ. unfold log_exception.
apply ensures_log. exact SQ.
Qed.

(** The report of a non-empty string on a field of strings: the string
    is added to the list of the field, then the rules of the field are
    applied, and what they raise is logged. *)
Lemma report_strings_rules : forall (H Q : Reporter -> Prop) key s,
    stable H -> stable Q -> key <> "debug" -> s <> "" ->
    Dict.get key flds = Some "listofstrings" ->
    settles (inv (fun st => H st /\ has key (VStr s) st))
            (derive_listofstrings level_char (rec 4) key s) (inv Q) ->
    ensures (inv H) (report key (VStr s)) (inv Q).
Proof.
intros H Q key s SH SQ Hkey Hs Hfield Hrules st I.
assert (Hfield' : Dict.get key (fields st) = Some "listofstrings").
{ destruct I as [[Hf _] _]. rewrite Hf. exact Hfield. }
unfold report, add_metadata, cascade_depth.
change (add_metadata_rec convert_to_unicode level_char 5)
  with (add_metadata_body convert_to_unicode level_char (rec 4)).
rewrite (body_listofstrings convert_to_unicode level_char convert_str (rec 4) key (VStr s) st);
  [| rewrite empty_value_str; apply String.eqb_neq in Hs; rewrite Hs; reflexivity
   | exact Hfield'].
revert st I Hfield'. intros st I _. revert st I.
apply ensures_try_settles; [| intros e; apply ensures_handler; exact SQ].
unfold _add_metatadata_listofstrings.
assert (Ht : negb (truthy (VStr s)) = false).
{ simpl. apply String.eqb_neq in Hs. rewrite Hs. reflexivity. }
rewrite Ht. unfold convert. rewrite convert_str, bind_ret.
intros st I. unfold bind at 1.
destruct (ensures_append H key "listofstrings" (VStr s) (key =? "debug") SH Hfield
            (or_introl (conj eq_refl eq_refl)) st I) as [[] [s1 [E1 I1]]].
unfold bind at 1. rewrite E1. specialize (Hrules s1 I1).
destruct (derive_listofstrings level_char (rec 4) key s s1) as [[] s2|e s2|];
  [exact Hrules | exact Hrules | contradiction].
Qed.

(** The same for a sequence of strings on a field of tuples, which is
    padded first. *)
Lemma report_tuples_rules : forall (H Q : Reporter -> Prop) key vals,
    stable H -> stable Q -> some_text vals = true ->
    Dict.get key flds = Some "listofstringtuples" ->
    settles (inv (fun st => H st /\ has key (strs (padded key vals)) st))
            (derive_listofstringtuples level_char (rec 4) key (padded key vals)) (inv Q) ->
    ensures (inv H) (report key (strs vals)) (inv Q).
Proof.
intros H Q key vals SH SQ Hs Hfield Hrules st I.
assert (Hfield' : Dict.get key (fields st) = Some "listofstringtuples").
{ destruct I as [[Hf _] _]. rewrite Hf. exact Hfield. }
unfold report, add_metadata, cascade_depth.
change (add_metadata_rec convert_to_unicode level_char 5)
  with (add_metadata_body convert_to_unicode level_char (rec 4)).
rewrite (body_listofstringtuples convert_to_unicode level_char convert_str (rec 4) key
           (strs vals) st (empty_value_strs vals Hs) Hfield').
revert st I Hfield'. intros st I _. revert st I.
apply ensures_try_settles; [| intros e; apply ensures_handler; exact SQ].
rewrite bind_ret. unfold _add_metadata_listofstringtuples.
rewrite pad_values_strs, bind_ret, iter_strs, bind_ret.
rewrite (convert_all_strs convert_to_unicode convert_str), bind_ret.
intros st I. unfold bind at 1.
destruct (ensures_append H key "listofstringtuples" (strs (padded key vals)) false SH Hfield
            (or_intror (conj eq_refl (is_strs_strs _))) st I) as [[] [s1 [E1 I1]]].
unfold bind at 1. rewrite E1. specialize (Hrules s1 I1).
destruct (derive_listofstringtuples level_char (rec 4) key (padded key vals) s1)
  as [[] s2|e s2|]; [exact Hrules | exact Hrules | contradiction].
Qed.


Lemma stable_forall : forall {X : Type} (P : X -> Reporter -> Prop),
    (forall x, stable (P x)) -> stable (fun st => forall x, P x st).
Proof. intros X P HP W st st' F H x. eapply HP; [exact F | apply H]. Qed.

(** *** The components of a tuple *)

(** the values of a sequence that have a subfield, and are not empty, are
    in the lists of their subfields *)
Definition components (subfields vals : list string) (st : Reporter) : Prop :=
forall i f s, nth_error subfields i = Some f -> nth_error vals i = Some s -> s <> "" ->
              has f (VStr s) st.

Lemma stable_components : forall subfields vals, stable (components subfields vals).
Proof.
intros subfields vals W st st' F H i f s Hf Hs Hne.
eapply has_stable; [exact F | eapply H; eassumption].
Qed.

Lemma ensures_subfields : forall subfields vals (H : Reporter -> Prop),
    stable H ->
    (forall f, In f subfields ->
               Dict.get f flds = Some "listofstrings" /\ f <> "debug" /\ rank f < 4) ->
    ensures (inv H)
            (for_each (combine subfields vals)
                      (fun sv => when (negb (snd sv =? ""))
                                      (rec 4 (fst sv) (VStr (snd sv)))))
            (inv (fun st => H st /\ components subfields vals st)).
Proof.
induction subfields as [|f fs IH]; intros vals H SH Hsub.
- simpl. apply ensures_ret. intros st [Hs HH]. split; [exact Hs | split; [exact HH |]].
  intros [|i] f s Hf; discriminate Hf.
- destruct vals as [|s ss].
  + simpl. apply ensures_ret. intros st [Hs HH]. split; [exact Hs | split; [exact HH |]].
    intros [|i] f' s' _ Hs'; discriminate Hs'.
  + simpl.
    destruct (Hsub f (or_introl eq_refl)) as [Hfield [Hdebug Hrank]].
    apply ensures_bind
      with (Q := inv (fun st => H st /\ (s <> "" -> has f (VStr s) st))).
    * destruct (String.eqb_spec s "") as [->|Hs]; simpl.
      -- apply ensures_ret. intros st [Hsh HH].
         split; [exact Hsh | split; [exact HH | intros C; contradiction C; reflexivity]].
      -- apply ensures_nested.
         { pose proof (depth_le_rank f (VStr s)). lia. }
         apply ensures_string_if; assumption.
    * intros _. eapply ensures_conseq; [| | apply (IH ss)].
      -- intros st I. exact I.
      -- intros st [Hsh [[HH Hhas] Hrest]].
         split; [exact Hsh | split; [exact HH |]].
         intros [|i] f' s' Hf' Hs' Hne; simpl in Hf', Hs'.
         ++ injection Hf' as <-. injection Hs' as <-. apply Hhas. exact Hne.
         ++ eapply Hrest; eassumption.
      -- apply stable_and; [exact SH | apply stable_impl, has_stable].
      -- intros f' Hin. apply Hsub. right. exact Hin.
Qed.

(** the rules of a field with subfields *)
Lemma derive_subfields : forall self key subfields values,
    subfield_map key = Some subfields ->
    derive_listofstringtuples level_char self key values
    = ((for_each (combine subfields values)
                 (fun sv => when (negb (snd sv =? "")) (self (fst sv) (VStr (snd sv)))) ;;
        when (negb (List.length values =? List.length subfields)%nat)
             (log_warn level_char self
                       ("Expected " ++ len_str subfields ++ " values in type " ++ key
                        ++ ", received " ++ len_str values))) ;;
       ret tt).
Proof.
intros self key subfields values H. unfold subfield_map in H.
destruct (String.eqb_spec key "registrypathdata") as [->|_];
  [injection H as <-; reflexivity |].
destruct (String.eqb_spec key "service") as [->|_];
  [injection H as <-; reflexivity |].
destruct (String.eqb_spec key "credential") as [->|_];
  [injection H as <-; reflexivity | discriminate H].
Qed.

Lemma subfields_ranks : forall key subfields f,
    subfield_map key = Some subfields -> In f subfields ->
    f <> "debug" /\ rank f < 4 /\ key <> "debug" /\ expected_size key = None.
Proof.
intros key subfields f H Hin. unfold subfield_map in H.
destruct (String.eqb_spec key "registrypathdata") as [->|_];
  [injection H as <-; simpl in Hin;
   repeat (destruct Hin as [<-|Hin]; [repeat split; try discriminate; vm_compute; lia |]);
   destruct Hin |].
destruct (String.eqb_spec key "service") as [->|_];
  [injection H as <-; simpl in Hin;
   repeat (destruct Hin as [<-|Hin]; [repeat split; try discriminate; vm_compute; lia |]);
   destruct Hin |].
destruct (String.eqb_spec key "credential") as [->|_];
  [injection H as <-; simpl in Hin;
   repeat (destruct Hin as [<-|Hin]; [repeat split; try discriminate; vm_compute; lia |]);
   destruct Hin | discriminate H].
Qed.

Lemma ensures_with_subfields : forall (H : Reporter -> Prop) key subfields vals,
    stable H ->
    subfield_map key = Some subfields ->
    Dict.get key flds = Some "listofstringtuples" ->
    (forall f, In f subfields -> Dict.get f flds = Some "listofstrings") ->
    some_text vals = true ->
    ensures (inv H) (report key (strs vals))
            (inv (fun st => (H st /\ has key (strs vals) st) /\ components subfields vals st)).
Proof.
intros H key subfields vals SH Hmap Hfield Hsub Hvals.
assert (Hpad : padded key vals = vals).
{ unfold padded. unfold subfield_map in Hmap. unfold expected_size.
  destruct (String.eqb_spec key "registrypathdata") as [->|_]; [reflexivity |].
  destruct (String.eqb_spec key "service") as [->|_]; [reflexivity |].
  destruct (String.eqb_spec key "credential") as [->|_]; [reflexivity | discriminate]. }
apply report_tuples_rules; try assumption.
{ apply stable_and; [apply stable_and; [exact SH | apply has_stable]
                    | apply stable_components]. }
rewrite Hpad, (derive_subfields _ key subfields vals Hmap).
apply settles_ensures.
eapply ensures_bind; [| intros _; apply ensures_ret; intros st I; exact I].
eapply ensures_bind.
- apply ensures_subfields.
  + apply stable_and; [exact SH | apply has_stable].
  + intros f Hin. destruct (subfields_ranks key subfields f Hmap Hin) as [Hd [Hr _]].
    split; [apply Hsub; exact Hin | split; assumption].
- intros _. apply ensures_when.
  + intros _. apply ensures_log.
    apply stable_and; [apply stable_and; [exact SH | apply has_stable]
                      | apply stable_components].
  + intros _ st I. exact I.
Qed.

(** X8.  The components of a tuple reach their own fields.  A sequence of
    strings reported on [credential], [registrypathdata] or [service], on
    a store in shape whose schema has the field as a field of tuples, its
    subfields as fields of strings and [debug] as a field of strings, is
    added to the list of the field, and every value of the sequence that
    is not empty and has a subfield is in the list of that subfield when
    the report returns; the store is still in shape. *)
Theorem subfields_filled : forall key subfields vals st,
    subfield_map key = Some subfields ->
    Dict.get key flds = Some "listofstringtuples" ->
    (forall f, In f subfields -> Dict.get f flds = Some "listofstrings") ->
    some_text vals = true ->
    shaped flds st ->
    exists st',
      report key (strs vals) st = Ret tt st'
      /\ shaped flds st'
      /\ has key (strs vals) st'
      /\ forall i f s, nth_error subfields i = Some f -> nth_error vals i = Some s ->
                       s <> "" -> has f (VStr s) st'.
Proof.
intros key subfields vals st Hmap Hfield Hsub Hvals Hshaped.
destruct (ensures_with_subfields (fun _ => True) key subfields vals stable_true
            Hmap Hfield Hsub Hvals st (conj Hshaped I))
  as [[] [st' [Hrun [Hsh [[_ Hhas] Hcomp]]]]].
exists st'. split; [exact Hrun | split; [exact Hsh | split; [exact Hhas | exact Hcomp]]].
Qed.


(** *** The rules of the fields of strings *)

Ltac nested_depth :=
  eapply Nat.le_lt_trans; [apply depth_le_rank | vm_compute; lia].

Ltac same_inv := let st := fresh "st" in let I := fresh "I" in intros st I; exact I.

Ltac inv_follows :=
  let st := fresh "st" in
  let Hsh := fresh "Hsh" in
  let HH := fresh "HH" in
  intros st [Hsh HH]; split; [exact Hsh | cbv beta in *; tauto].

Lemma derive_filepath : forall self s,
    derive_listofstrings level_char self "filepath" s
    = ((self "filename" (VStr (Ntpath.basename s)) ;;
        self "directory" (VStr (Ntpath.dirname s))) ;;
       ret tt).
Proof. reflexivity. Qed.

Lemma ensures_filepath : forall (H : Reporter -> Prop) s,
    stable H -> s <> "" ->
    Dict.get "filepath" flds = Some "listofstrings" ->
    Dict.get "filename" flds = Some "listofstrings" ->
    Dict.get "directory" flds = Some "listofstrings" ->
    ensures (inv H) (report "filepath" (VStr s))
            (inv (fun st =>
                    H st /\ has "filepath" (VStr s) st
                    /\ (Ntpath.basename s <> "" -> has "filename" (VStr (Ntpath.basename s)) st)
                    /\ (Ntpath.dirname s <> ""
                        -> has "directory" (VStr (Ntpath.dirname s)) st))).
Proof.
intros H s SH Hs Hpath Hname Hdir.
apply report_strings_rules with (H := H); try assumption; try discriminate.
{ repeat apply stable_and; try apply stable_impl; try apply has_stable; exact SH. }
rewrite derive_filepath. apply settles_ensures.
eapply ensures_bind; [| intros _; apply ensures_ret; same_inv].
eapply ensures_bind.
- apply ensures_nested; [nested_depth |].
  apply ensures_string_if; [| discriminate | exact Hname].
  apply stable_and; [exact SH | apply has_stable].
- intros _. apply ensures_nested; [nested_depth |].
  eapply ensures_conseq; [same_inv | | apply ensures_string_if; [| discriminate | exact Hdir]].
  + inv_follows.
  + apply stable_and; [apply stable_and; [exact SH | apply has_stable] |].
    apply stable_impl, has_stable.
Qed.

(** X9.  A path reaches the fields of its parts.  A non-empty string
    reported on [filepath], on a store in shape whose schema has
    [filepath], [filename], [directory] and [debug] as fields of strings,
    is in the list of [filepath] when the report returns, its base name
    is in the list of [filename] and its directory in the list of
    [directory], each unless it is empty. *)
Theorem filepath_filled : forall s st,
    s <> "" ->
    Forall (fun k => Dict.get k flds = Some "listofstrings")
           ["filepath"; "filename"; "directory"] ->
    shaped flds st ->
    exists st',
      report "filepath" (VStr s) st = Ret tt st'
      /\ shaped flds st'
      /\ has "filepath" (VStr s) st'
      /\ (Ntpath.basename s <> "" -> has "filename" (VStr (Ntpath.basename s)) st')
      /\ (Ntpath.dirname s <> "" -> has "directory" (VStr (Ntpath.dirname s)) st').
Proof.
intros s st Hs Hflds Hshaped.
inversion Hflds as [|? ? Hpath Hrest]; subst.
inversion Hrest as [|? ? Hname Hrest']; subst.
inversion Hrest' as [|? ? Hdir _]; subst.
destruct (ensures_filepath (fun _ => True) s stable_true Hs Hpath Hname Hdir st
            (conj Hshaped I)) as [[] [st' [Hrun [Hsh [_ Hall]]]]].
exists st'. split; [exact Hrun | split; [exact Hsh | exact Hall]].
Qed.

(** the fields whose values are reported again on another field *)
Definition alias (key target : string) : Prop :=
key = "c2_url" /\ target = "url"
\/ key = "c2_address" /\ target = "address"
\/ key = "proxy_address" /\ target = "address"
\/ key = "servicedll" /\ target = "filepath".

Lemma derive_c2_url : forall self s,
    derive_listofstrings level_char self "c2_url" s
    = (self "url" (VStr s) ;; derive_url level_char self "c2_url" s).
Proof. reflexivity. Qed.

Lemma derive_c2_address : forall self s,
    derive_listofstrings level_char self "c2_address" s
    = (self "address" (VStr s) ;; ret tt).
Proof. reflexivity. Qed.

Lemma derive_proxy_address : forall self s,
    derive_listofstrings level_char self "proxy_address" s
    = (self "address" (VStr s) ;; ret tt).
Proof. reflexivity. Qed.

Lemma derive_servicedll : forall self s,
    derive_listofstrings level_char self "servicedll" s
    = (self "filepath" (VStr s) ;; ret tt).
Proof. reflexivity. Qed.

Lemma settles_log : forall (H : Reporter -> Prop) level message exc,
    stable H -> settles (inv H) (log_record level_char (rec 4) level message exc) (inv H).
Proof. intros H level message exc SH. apply settles_ensures, ensures_log. exact SH. Qed.

Lemma settles_ret : forall {A : Type} (H : Reporter -> Prop) (a : A),
    settles (inv H) (ret a) (inv H).
Proof. intros A H a st I. exact I. Qed.

(** the URL rule ends, whatever the string *)
Lemma settles_derive_url : forall (H : Reporter -> Prop) key s,
    stable H -> settles (inv H) (derive_url level_char (rec 4) key s) (inv H).
Proof.
intros H key s SH. unfold derive_url.
destruct (Re.search URL_RE s) as [m|]; [| apply settles_log; exact SH].
intros st I. unfold bind at 1.
assert (Hfirst : settles (inv H)
                   (when (match Re.group "path" m with
                          | Some p => negb (p =? "")
                          | None => false
                          end)
                         (rec 4 "urlpath"
                              (VStr (match Re.group "path" m with Some p => p | None => "" end))))
                   (inv H)).
{ destruct (Re.group "path" m) as [p|]; [| apply settles_ret].
  destruct (negb (p =? "")); [| apply settles_ret].
  apply settles_nested; [exact SH | nested_depth]. }
specialize (Hfirst st I).
destruct (when _ _ st) as [[] s1|e s1|]; [| exact Hfirst | contradiction].
revert s1 Hfirst. change (settles (inv H)
  (match Re.group "address" m with
   | None => ret tt
   | Some a =>
     when (negb (a =? ""))
       (let address := Str.rstrip ": " a in
        let '(domain, found, port) :=
          if Str.startswith "[" address
          then Str.partition "]:" (Str.drop 1 address)
          else Str.partition ":" address in
        if found then
          if negb (port =? "") then
            if key =? "c2_url"
            then rec 4 "c2_socketaddress" (strs [domain; port; "tcp"])
            else rec 4 "socketaddress" (strs [domain; port; "tcp"])
          else
            log_error level_char (rec 4)
                      ("Invalid URL " ++ repr_str address
                       ++ " found ':' at end without a port.")
        else
          if key =? "c2_url"
          then rec 4 "c2_address" (VStr address)
          else rec 4 "address" (VStr address))
   end) (inv H)).
destruct (Re.group "address" m) as [a|]; [| apply settles_ret].
destruct (negb (a =? "")); [| apply settles_ret].
simpl.
destruct (if Str.startswith "[" (Str.rstrip ": " a)
          then Str.partition "]:" (Str.drop 1 (Str.rstrip ": " a))
          else Str.partition ":" (Str.rstrip ": " a)) as [[domain found] port].
destruct found.
- destruct (negb (port =? "")).
  + destruct (key =? "c2_url"); (apply settles_nested; [exact SH | nested_depth]).
  + apply settles_log. exact SH.
- destruct (key =? "c2_url"); (apply settles_nested; [exact SH | nested_depth]).
Qed.

Lemma ensures_alias : forall (H : Reporter -> Prop) key target s,
    stable H -> alias key target -> s <> "" ->
    Dict.get key flds = Some "listofstrings" ->
    Dict.get target flds = Some "listofstrings" ->
    ensures (inv H) (report key (VStr s))
            (inv (fun st => H st /\ has key (VStr s) st /\ has target (VStr s) st)).
Proof.
intros H key target s SH Halias Hs Hkey Htarget.
assert (SQ : stable (fun st => H st /\ has key (VStr s) st /\ has target (VStr s) st)).
{ repeat apply stable_and; try apply has_stable; exact SH. }
assert (Hcall : forall k,
           k = target -> rank k < 4 -> k <> "debug" ->
           ensures (inv (fun st => H st /\ has key (VStr s) st))
                   (rec 4 k (VStr s))
                   (inv (fun st => H st /\ has key (VStr s) st /\ has target (VStr s) st))).
{ intros k -> Hrank Hdebug. apply ensures_nested.
  { pose proof (depth_le_rank target (VStr s)). lia. }
  eapply ensures_conseq; [same_inv | | apply ensures_string; [| exact Hdebug | exact Hs | exact Htarget]].
  - inv_follows.
  - apply stable_and; [exact SH | apply has_stable]. }
destruct Halias as [[-> ->]|[[-> ->]|[[-> ->]|[-> ->]]]];
  (apply report_strings_rules with (H := H); try assumption; try discriminate).
- rewrite derive_c2_url.
  eapply settles_bind; [apply Hcall; [reflexivity | vm_compute; lia | discriminate] |].
  intros _. apply settles_derive_url. exact SQ.
- rewrite derive_c2_address. apply settles_ensures.
  eapply ensures_bind; [apply Hcall; [reflexivity | vm_compute; lia | discriminate] |].
  intros _. apply ensures_ret. same_inv.
- rewrite derive_proxy_address. apply settles_ensures.
  eapply ensures_bind; [apply Hcall; [reflexivity | vm_compute; lia | discriminate] |].
  intros _. apply ensures_ret. same_inv.
- rewrite derive_servicedll. apply settles_ensures.
  eapply ensures_bind; [apply Hcall; [reflexivity | vm_compute; lia | discriminate] |].
  intros _. apply ensures_ret. same_inv.
Qed.

(** X10.  The fields that feed another field.  A non-empty string
    reported on [c2_url], [c2_address], [proxy_address] or [servicedll],
    on a store in shape whose schema has the field, the field it feeds
    ([url], [address], [address], [filepath]) and [debug] as fields of
    strings, is in the list of the field and in the list of the field it
    feeds when the report returns, whatever else the rules of the two
    fields do with the string. *)
Theorem alias_filled : forall key target s st,
    alias key target ->
    s <> "" ->
    Dict.get key flds = Some "listofstrings" ->
    Dict.get target flds = Some "listofstrings" ->
    shaped flds st ->
    exists st',
      report key (VStr s) st = Ret tt st'
      /\ shaped flds st'
      /\ has key (VStr s) st'
      /\ has target (VStr s) st'.
Proof.
intros key target s st Halias Hs Hkey Htarget Hshaped.
destruct (ensures_alias (fun _ => True) key target s stable_true Halias Hs Hkey Htarget st
            (conj Hshaped I)) as [[] [st' [Hrun [Hsh [_ [Hk Ht]]]]]].
exists st'. split; [exact Hrun | split; [exact Hsh | split; [exact Hk | exact Ht]]].
Qed.


(** *** The rules of the fields of tuples *)

Lemma derive_socketaddress : forall self a rest,
    derive_listofstringtuples level_char self "socketaddress" (a :: rest)
    = ((when (negb (List.length (a :: rest) =? 3)%nat)
             (log_warn level_char self
                       ("Expected three values in type socketaddress, received "
                        ++ len_str (a :: rest))) ;;
        self "address" (VStr a) ;;
        self "port" (strs rest)) ;;
       ret tt).
Proof. reflexivity. Qed.

Lemma derive_c2_socketaddress : forall self a rest,
    derive_listofstringtuples level_char self "c2_socketaddress" (a :: rest)
    = ((self "socketaddress" (strs (a :: rest)) ;; self "c2_address" (VStr a)) ;; ret tt).
Proof. reflexivity. Qed.

Lemma derive_proxy_socketaddress : forall self a rest,
    derive_listofstringtuples level_char self "proxy_socketaddress" (a :: rest)
    = ((self "socketaddress" (strs (a :: rest)) ;; self "proxy_address" (VStr a)) ;; ret tt).
Proof. reflexivity. Qed.

Lemma some_text_cons : forall a rest, a <> "" -> some_text (a :: rest) = true.
Proof.
intros a rest Ha. unfold some_text. simpl. apply String.eqb_neq in Ha. rewrite Ha. reflexivity.
Qed.

(** what a report on [socketaddress] leaves in the store *)
Definition socket_parts (a : string) (rest : list string) (st : Reporter) : Prop :=
has "socketaddress" (strs (a :: rest)) st
/\ has "address" (VStr a) st
/\ (some_text rest = true -> has "port" (strs rest) st).

Lemma stable_socket_parts : forall a rest, stable (socket_parts a rest).
Proof.
intros a rest. unfold socket_parts.
repeat apply stable_and; try apply stable_impl; apply has_stable.
Qed.

Section Sockets.

Hypothesis socketaddress_field : Dict.get "socketaddress" flds = Some "listofstringtuples".
Hypothesis port_field : Dict.get "port" flds = Some "listofstringtuples".
Hypothesis address_field : Dict.get "address" flds = Some "listofstrings".

Lemma ensures_socketaddress : forall (H : Reporter -> Prop) a rest,
    stable H -> a <> "" ->
    ensures (inv H) (report "socketaddress" (strs (a :: rest)))
            (inv (fun st => H st /\ socket_parts a rest st)).
Proof.
intros H a rest SH Ha.
apply report_tuples_rules with (H := H); try assumption.
{ apply stable_and; [exact SH | apply stable_socket_parts]. }
{ apply some_text_cons. exact Ha. }
change (padded "socketaddress" (a :: rest)) with (a :: rest).
rewrite derive_socketaddress. apply settles_ensures.
eapply ensures_bind; [| intros _; apply ensures_ret; same_inv].
eapply ensures_bind.
{ apply ensures_when; [intros _; apply ensures_log | intros _; same_inv].
  apply stable_and; [exact SH | apply has_stable]. }
intros _. eapply ensures_bind.
{ apply ensures_nested; [nested_depth |].
  apply ensures_string; [| discriminate | exact Ha | exact address_field].
  apply stable_and; [exact SH | apply has_stable]. }
intros _. apply ensures_nested; [nested_depth |].
eapply ensures_conseq; [same_inv | | apply ensures_tuple_if; [| discriminate | exact port_field]].
- unfold socket_parts. change (padded "port" rest) with rest. inv_follows.
- apply stable_and; [apply stable_and; [exact SH | apply has_stable] | apply has_stable].
Qed.

(** the three fields of socket addresses, with the field of the address
    alone that each of them feeds *)
Definition socket_field (key target : string) : Prop :=
key = "socketaddress" /\ target = "address"
\/ key = "c2_socketaddress" /\ target = "c2_address"
\/ key = "proxy_socketaddress" /\ target = "proxy_address".

Lemma ensures_socket_field : forall (H : Reporter -> Prop) key target a rest,
    stable H -> socket_field key target -> a <> "" ->
    Dict.get key flds = Some "listofstringtuples" ->
    Dict.get target flds = Some "listofstrings" ->
    ensures (inv H) (report key (strs (a :: rest)))
            (inv (fun st => H st /\ has key (strs (a :: rest)) st
                            /\ has target (VStr a) st /\ socket_parts a rest st)).
Proof.
intros H key target a rest SH Hkind Ha Hkey Htarget.
assert (Hfed : forall k,
           k = "c2_address" \/ k = "proxy_address" ->
           Dict.get k flds = Some "listofstrings" ->
           settles (inv (fun st => H st /\ has (if k =? "c2_address"
                                                then "c2_socketaddress"
                                                else "proxy_socketaddress")
                                               (strs (a :: rest)) st))
                   ((rec 4 "socketaddress" (strs (a :: rest)) ;; rec 4 k (VStr a)) ;; ret tt)
                   (inv (fun st => H st /\ has (if k =? "c2_address"
                                                then "c2_socketaddress"
                                                else "proxy_socketaddress")
                                               (strs (a :: rest)) st
                                   /\ has k (VStr a) st /\ socket_parts a rest st))).
{ intros k Hk Hfield. apply settles_ensures.
  eapply ensures_bind; [| intros _; apply ensures_ret; same_inv].
  eapply ensures_bind.
  - apply ensures_nested; [nested_depth |].
    apply ensures_socketaddress; [| exact Ha].
    apply stable_and; [exact SH | apply has_stable].
  - intros _. apply ensures_nested.
    { destruct Hk as [->| ->]; nested_depth. }
    eapply ensures_conseq;
      [same_inv | | apply (ensures_alias _ k "address" a); [| | exact Ha | exact Hfield
                                                              | exact address_field]].
    + inv_follows.
    + apply stable_and; [apply stable_and; [exact SH | apply has_stable]
                        | apply stable_socket_parts].
    + destruct Hk as [->| ->]; [right; left | right; right; left]; split; reflexivity. }
destruct Hkind as [[-> ->]|[[-> ->]|[-> ->]]].
- eapply ensures_conseq; [same_inv | | apply ensures_socketaddress; [exact SH | exact Ha]].
  unfold socket_parts. inv_follows.
- apply report_tuples_rules with (H := H); try assumption.
  { apply stable_and; [exact SH |].
    apply stable_and; [apply has_stable |].
    apply stable_and; [apply has_stable | apply stable_socket_parts]. }
  { apply some_text_cons. exact Ha. }
  change (padded "c2_socketaddress" (a :: rest)) with (a :: rest).
  rewrite derive_c2_socketaddress.
  exact (Hfed "c2_address" (or_introl eq_refl) Htarget).
- apply report_tuples_rules with (H := H); try assumption.
  { apply stable_and; [exact SH |].
    apply stable_and; [apply has_stable |].
    apply stable_and; [apply has_stable | apply stable_socket_parts]. }
  { apply some_text_cons. exact Ha. }
  change (padded "proxy_socketaddress" (a :: rest)) with (a :: rest).
  rewrite derive_proxy_socketaddress.
  exact (Hfed "proxy_address" (or_intror eq_refl) Htarget).
Qed.

(** X11.  A socket address reaches the fields of its parts.  A sequence
    of strings that starts with a non-empty address, reported on
    [socketaddress], [c2_socketaddress] or [proxy_socketaddress], on a
    store in shape whose schema has the fields involved with the types
    the mergers expect, is in the list of the field and in the list of
    [socketaddress] when the report returns; the address is in the list
    of [address] and in the list of the field of addresses that goes
    with the reported field; the rest of the sequence is in the list of
    [port], unless all its strings are empty. *)
Theorem socketaddress_filled : forall key target a rest st,
    socket_field key target ->
    a <> "" ->
    Dict.get key flds = Some "listofstringtuples" ->
    Dict.get target flds = Some "listofstrings" ->
    shaped flds st ->
    exists st',
      report key (strs (a :: rest)) st = Ret tt st'
      /\ shaped flds st'
      /\ has key (strs (a :: rest)) st'
      /\ has "socketaddress" (strs (a :: rest)) st'
      /\ has target (VStr a) st'
      /\ has "address" (VStr a) st'
      /\ (some_text rest = true -> has "port" (strs rest) st').
Proof.
intros key target a rest st Hkind Ha Hkey Htarget Hshaped.
destruct (ensures_socket_field (fun _ => True) key target a rest stable_true Hkind Ha
            Hkey Htarget st (conj Hshaped I))
  as [[] [st' [Hrun [Hsh [_ [Hk [Ht [Hs [Haddr Hport]]]]]]]]].
exists st'. repeat (split; [assumption |]). assumption.
Qed.

Lemma derive_proxy : forall self u p a tail,
    derive_listofstringtuples level_char self "proxy" (u :: p :: a :: tail)
    = ((when (negb (List.length (u :: p :: a :: tail) =? 5)%nat)
             (log_warn level_char self
                       ("Expected 5 values in type " ++ "proxy" ++ ", received "
                        ++ len_str (u :: p :: a :: tail))) ;;
        self "credential" (strs [u; p]) ;;
        if (List.length (a :: tail) =? 1)%nat
        then self "proxy_address" (VStr a)
        else self "proxy_socketaddress" (strs (a :: tail))) ;;
       ret tt).
Proof. reflexivity. Qed.

Lemma ensures_credential : forall (H : Reporter -> Prop) u p,
    stable H -> u <> "" ->
    Dict.get "credential" flds = Some "listofstringtuples" ->
    Dict.get "username" flds = Some "listofstrings" ->
    Dict.get "password" flds = Some "listofstrings" ->
    ensures (inv H) (report "credential" (strs [u; p]))
            (inv (fun st => H st /\ has "credential" (strs [u; p]) st
                            /\ has "username" (VStr u) st
                            /\ (p <> "" -> has "password" (VStr p) st))).
Proof.
intros H u p SH Hu Hcred Huser Hpass.
eapply ensures_conseq;
  [same_inv | | apply (ensures_with_subfields H "credential" ["username"; "password"] [u; p]);
                [exact SH | reflexivity | exact Hcred | | apply some_text_cons; exact Hu]].
- intros st [Hsh [[HH Hhas] Hcomp]].
  split; [exact Hsh | split; [exact HH | split; [exact Hhas | split]]].
  + apply (Hcomp 0 "username" u); [reflexivity | reflexivity | exact Hu].
  + intros Hp. apply (Hcomp 1 "password" p); [reflexivity | reflexivity | exact Hp].
- intros f [<-|[<-|[]]]; assumption.
Qed.

(** X12.  A proxy reaches the fields of its parts.  A sequence of a
    non-empty user name, a password, a non-empty address and what follows
    them, reported on [proxy], is padded with empty strings to five
    values and added to the list of [proxy]; when the report returns, the
    pair of the user name and the password is in the list of
    [credential], the user name in the list of [username], the password,
    unless it is empty, in the list of [password], the address with the
    padded rest in the lists of [proxy_socketaddress] and
    [socketaddress], the address in the lists of [proxy_address] and
    [address], and the padded rest, unless all its strings are empty, in
    the list of [port].  The store is in shape before and after, and its
    schema has the fields involved with the types the mergers expect. *)
Theorem proxy_filled : forall u p a rest st,
    u <> "" -> a <> "" ->
    Forall (fun k => Dict.get k flds = Some "listofstringtuples")
           ["proxy"; "credential"; "proxy_socketaddress"] ->
    Forall (fun k => Dict.get k flds = Some "listofstrings")
           ["username"; "password"; "proxy_address"] ->
    shaped flds st ->
    let tail := (rest ++ repeat "" (2 - List.length rest))%list in
    exists st',
      report "proxy" (strs (u :: p :: a :: rest)) st = Ret tt st'
      /\ shaped flds st'
      /\ has "proxy" (strs (u :: p :: a :: tail)) st'
      /\ has "credential" (strs [u; p]) st'
      /\ has "username" (VStr u) st'
      /\ (p <> "" -> has "password" (VStr p) st')
      /\ has "proxy_socketaddress" (strs (a :: tail)) st'
      /\ has "proxy_address" (VStr a) st'
      /\ has "socketaddress" (strs (a :: tail)) st'
      /\ has "address" (VStr a) st'
      /\ (some_text tail = true -> has "port" (strs tail) st').
Proof.
intros u p a rest st Hu Ha Htuples Hstrings Hshaped tail.
inversion Htuples as [|? ? Hproxy Ht1]; subst.
inversion Ht1 as [|? ? Hcred Ht2]; subst.
inversion Ht2 as [|? ? Hpsock _]; subst.
inversion Hstrings as [|? ? Huser Hs1]; subst.
inversion Hs1 as [|? ? Hpass Hs2]; subst.
inversion Hs2 as [|? ? Hpaddr _]; subst.
set (Q := fun st' =>
            (((True /\ has "proxy" (strs (u :: p :: a :: tail)) st')
              /\ has "credential" (strs [u; p]) st'
              /\ has "username" (VStr u) st'
              /\ (p <> "" -> has "password" (VStr p) st'))
             /\ has "proxy_socketaddress" (strs (a :: tail)) st'
             /\ has "proxy_address" (VStr a) st'
             /\ socket_parts a tail st')).
assert (S1 : stable (fun st' => True /\ has "proxy" (strs (u :: p :: a :: tail)) st')).
{ apply stable_and; [apply stable_true | apply has_stable]. }
assert (S2 : stable (fun st' =>
                       (True /\ has "proxy" (strs (u :: p :: a :: tail)) st')
                       /\ has "credential" (strs [u; p]) st'
                       /\ has "username" (VStr u) st'
                       /\ (p <> "" -> has "password" (VStr p) st'))).
{ apply stable_and; [exact S1 |].
  apply stable_and; [apply has_stable |].
  apply stable_and; [apply has_stable | apply stable_impl, has_stable]. }
assert (SQ : stable Q).
{ unfold Q. apply stable_and; [exact S2 |].
  apply stable_and; [apply has_stable |].
  apply stable_and; [apply has_stable | apply stable_socket_parts]. }
assert (Hrun : ensures (inv (fun _ => True)) (report "proxy" (strs (u :: p :: a :: rest)))
                       (inv Q)).
{ apply report_tuples_rules with (H := fun _ => True);
    [apply stable_true | exact SQ | apply some_text_cons; exact Hu | exact Hproxy |].
  change (padded "proxy" (u :: p :: a :: rest)) with (u :: p :: a :: tail).
  rewrite derive_proxy. apply settles_ensures.
  eapply ensures_bind; [| intros _; apply ensures_ret; same_inv].
  eapply ensures_bind.
  { apply ensures_when; [intros _; apply ensures_log; exact S1 | intros _; same_inv]. }
  intros _. eapply ensures_bind.
  { apply ensures_nested; [nested_depth |].
    apply ensures_credential; [exact S1 | exact Hu | exact Hcred | exact Huser | exact Hpass]. }
  intros _.
  assert (Hlen : (List.length (a :: tail) =? 1)%nat = false).
  { apply Nat.eqb_neq. unfold tail. cbn [List.length].
    rewrite length_app, repeat_length. lia. }
  rewrite Hlen. apply ensures_nested; [nested_depth |].
  apply (ensures_socket_field _ "proxy_socketaddress" "proxy_address" a tail);
    [exact S2 | right; right; split; reflexivity | exact Ha | exact Hpsock | exact Hpaddr]. }
destruct (Hrun st (conj Hshaped I)) as [[] [st' [Hret [Hsh HQ]]]].
unfold Q, socket_parts in HQ.
exists st'. split; [exact Hret |]. split; [exact Hsh |]. tauto.
Qed.

End Sockets.

Lemma derive_ftp : forall self u p w more,
    derive_listofstringtuples level_char self "ftp" (u :: p :: w :: more)
    = ((when (negb (List.length (u :: p :: w :: more) =? 3)%nat)
             (log_warn level_char self
                       ("Expected 3 values in type " ++ "ftp" ++ ", received "
                        ++ len_str (u :: p :: w :: more))) ;;
        self "credential" (strs [u; p]) ;;
        self "url" (VStr w)) ;;
       ret tt).
Proof. reflexivity. Qed.

(** X13.  An FTP entry reaches the fields of its parts.  A sequence of a
    non-empty user name, a password, a URL and what follows them,
    reported on [ftp], is added to the list of [ftp] as it is; when the
    report returns, the pair of the user name and the password is in the
    list of [credential], the user name in the list of [username], and
    the password and the URL, each unless it is empty, in the lists of
    [password] and [url].  The store is in shape before and after, and
    its schema has the fields involved with the types the mergers
    expect. *)
Theorem ftp_filled : forall u p w more st,
    u <> "" ->
    Forall (fun k => Dict.get k flds = Some "listofstringtuples") ["ftp"; "credential"] ->
    Forall (fun k => Dict.get k flds = Some "listofstrings") ["username"; "password"; "url"] ->
    shaped flds st ->
    exists st',
      report "ftp" (strs (u :: p :: w :: more)) st = Ret tt st'
      /\ shaped flds st'
      /\ has "ftp" (strs (u :: p :: w :: more)) st'
      /\ has "credential" (strs [u; p]) st'
      /\ has "username" (VStr u) st'
      /\ (p <> "" -> has "password" (VStr p) st')
      /\ (w <> "" -> has "url" (VStr w) st').
Proof.
intros u p w more st Hu Htuples Hstrings Hshaped.
inversion Htuples as [|? ? Hftp Ht1]; subst.
inversion Ht1 as [|? ? Hcred _]; subst.
inversion Hstrings as [|? ? Huser Hs1]; subst.
inversion Hs1 as [|? ? Hpass Hs2]; subst.
inversion Hs2 as [|? ? Hurl _]; subst.
set (vals := u :: p :: w :: more).
set (Q := fun st' =>
            ((True /\ has "ftp" (strs vals) st')
             /\ has "credential" (strs [u; p]) st'
             /\ has "username" (VStr u) st'
             /\ (p <> "" -> has "password" (VStr p) st'))
            /\ (w <> "" -> has "url" (VStr w) st')).
assert (S1 : stable (fun st' => True /\ has "ftp" (strs vals) st')).
{ apply stable_and; [apply stable_true | apply has_stable]. }
assert (S2 : stable (fun st' =>
                       (True /\ has "ftp" (strs vals) st')
                       /\ has "credential" (strs [u; p]) st'
                       /\ has "username" (VStr u) st'
                       /\ (p <> "" -> has "password" (VStr p) st'))).
{ apply stable_and; [exact S1 |].
  apply stable_and; [apply has_stable |].
  apply stable_and; [apply has_stable | apply stable_impl, has_stable]. }
assert (SQ : stable Q).
{ unfold Q. apply stable_and; [exact S2 | apply stable_impl, has_stable]. }
assert (Hrun : ensures (inv (fun _ => True)) (report "ftp" (strs vals)) (inv Q)).
{ apply report_tuples_rules with (H := fun _ => True);
    [apply stable_true | exact SQ | apply some_text_cons; exact Hu | exact Hftp |].
  change (padded "ftp" vals) with vals. unfold vals.
  rewrite derive_ftp. apply settles_ensures.
  eapply ensures_bind; [| intros _; apply ensures_ret; same_inv].
  eapply ensures_bind.
  { apply ensures_when; [intros _; apply ensures_log; exact S1 | intros _; same_inv]. }
  intros _. eapply ensures_bind.
  { apply ensures_nested; [nested_depth |].
    apply ensures_credential; [exact S1 | exact Hu | exact Hcred | exact Huser | exact Hpass]. }
  intros _. apply ensures_nested; [nested_depth |].
  apply ensures_string_if; [exact S2 | discriminate | exact Hurl]. }
destruct (Hrun st (conj Hshaped I)) as [[] [st' [Hret [Hsh HQ]]]].
unfold Q in HQ.
exists st'. split; [exact Hret |]. split; [exact Hsh |]. tauto.
Qed.

End Derived.

Lemma shaped_start : forall flds, shaped flds (run_start flds).
Proof. intros flds. split; [reflexivity | apply well_shaped_start]. Qed.

Lemma subfields_filled_witness :
  exists st',
    report_model "service" (strs ["svc"; ""; "a service"; "C:\w\svc.exe -k"])
                 (run_start fields_json) = Ret tt st'
    /\ has "servicename" (VStr "svc") st'
    /\ has "serviceimage" (VStr "C:\w\svc.exe -k") st'.
Proof.
destruct (subfields_filled fields_json to_unicode_model level_char_model
            to_unicode_model_str eq_refl "service"
            ["servicename"; "servicedisplayname"; "servicedescription";
             "serviceimage"; "servicedll"]
            ["svc"; ""; "a service"; "C:\w\svc.exe -k"] (run_start fields_json)
            eq_refl eq_refl)
  as [st' [Hrun [_ [_ Hcomp]]]].
- intros f Hin. simpl in Hin.
  repeat (destruct Hin as [<-|Hin]; [reflexivity |]). destruct Hin.
- reflexivity.
- apply shaped_start.
- exists st'. split; [exact Hrun |]. split.
  + apply (Hcomp 0 "servicename" "svc"); [reflexivity | reflexivity | discriminate].
  + apply (Hcomp 3 "serviceimage" "C:\w\svc.exe -k");
      [reflexivity | reflexivity | discriminate].
Defined.

Lemma filepath_filled_witness :
  exists st',
    report_model "filepath" (VStr "C:\windows\temp\a.exe") (run_start fields_json)
    = Ret tt st'
    /\ has "filename" (VStr "a.exe") st'
    /\ has "directory" (VStr "C:\windows\temp") st'.
Proof.
destruct (filepath_filled fields_json to_unicode_model level_char_model
            to_unicode_model_str eq_refl "C:\windows\temp\a.exe" (run_start fields_json))
  as [st' [Hrun [_ [_ [Hname Hdir]]]]].
- discriminate.
- repeat constructor.
- apply shaped_start.
- exists st'. split; [exact Hrun |]. split.
  + apply Hname. vm_compute. discriminate.
  + apply Hdir. vm_compute. discriminate.
Defined.

Lemma alias_filled_witness :
  exists st',
    report_model "c2_url" (VStr "http://bad.com:80/x") (run_start fields_json) = Ret tt st'
    /\ has "url" (VStr "http://bad.com:80/x") st'.
Proof.
destruct (alias_filled fields_json to_unicode_model level_char_model
            to_unicode_model_str eq_refl "c2_url" "url" "http://bad.com:80/x"
            (run_start fields_json))
  as [st' [Hrun [_ [_ Hurl]]]].
- left. split; reflexivity.
- discriminate.
- reflexivity.
- reflexivity.
- apply shaped_start.
- exists st'. split; [exact Hrun | exact Hurl].
Defined.

Lemma socketaddress_filled_witness :
  exists st',
    report_model "c2_socketaddress" (strs ["10.0.0.1"; "443"; "tcp"]) (run_start fields_json)
    = Ret tt st'
    /\ has "c2_address" (VStr "10.0.0.1") st'
    /\ has "address" (VStr "10.0.0.1") st'
    /\ has "port" (strs ["443"; "tcp"]) st'.
Proof.
destruct (socketaddress_filled fields_json to_unicode_model level_char_model
            to_unicode_model_str eq_refl eq_refl eq_refl eq_refl
            "c2_socketaddress" "c2_address" "10.0.0.1" ["443"; "tcp"]
            (run_start fields_json))
  as [st' [Hrun [_ [_ [_ [Hc2 [Haddr Hport]]]]]]].
- right. left. split; reflexivity.
- discriminate.
- reflexivity.
- reflexivity.
- apply shaped_start.
- exists st'. split; [exact Hrun |]. split; [exact Hc2 |]. split; [exact Haddr |].
  apply Hport. reflexivity.
Defined.

Lemma proxy_filled_witness :
  exists st',
    report_model "proxy" (strs ["admin"; "pass"; "192.168.1.1"]) (run_start fields_json)
    = Ret tt st'
    /\ has "proxy" (strs ["admin"; "pass"; "192.168.1.1"; ""; ""]) st'
    /\ has "proxy_socketaddress" (strs ["192.168.1.1"; ""; ""]) st'
    /\ has "password" (VStr "pass") st'.
Proof.
destruct (proxy_filled fields_json to_unicode_model level_char_model
            to_unicode_model_str eq_refl eq_refl eq_refl eq_refl
            "admin" "pass" "192.168.1.1" [] (run_start fields_json))
  as [st' [Hrun [_ [Hproxy [_ [_ [Hpass [Hsock _]]]]]]]].
- discriminate.
- discriminate.
- repeat constructor.
- repeat constructor.
- apply shaped_start.
- exists st'. split; [exact Hrun |]. split; [exact Hproxy |]. split; [exact Hsock |].
  apply Hpass. discriminate.
Defined.

Lemma ftp_filled_witness :
  exists st',
    report_model "ftp" (strs ["user"; "pass"; "ftp://host:21/x"]) (run_start fields_json)
    = Ret tt st'
    /\ has "credential" (strs ["user"; "pass"]) st'
    /\ has "url" (VStr "ftp://host:21/x") st'.
Proof.
destruct (ftp_filled fields_json to_unicode_model level_char_model
            to_unicode_model_str eq_refl
            "user" "pass" "ftp://host:21/x" [] (run_start fields_json))
  as [st' [Hrun [_ [_ [Hcred [_ [_ Hurl]]]]]]].
- discriminate.
- repeat constructor.
- repeat constructor.
- apply shaped_start.
- exists st'. split; [exact Hrun |]. split; [exact Hcred |].
  apply Hurl. discriminate.
Defined.

(** ** The dictionaries of the store *)

(** the string [s] is what [x] is, or is an element of the list [x] *)
Definition held (x : value) (s : string) : Prop :=
x = VStr s \/ exists l, x = VList l /\ In (VStr s) l.

(** the string [s] is under [subkey] in the dictionary of the field
    [key], alone or in a list *)
Definition holds (key subkey s : string) (st : Reporter) : Prop :=
exists d x, Dict.get key (metadata st) = Some (VDict d)
            /\ Dict.get subkey d = Some x /\ held x s.

(** no string under a key of a dictionary of the store is lost *)
Definition retains (st st' : Reporter) : Prop :=
forall key subkey s, holds key subkey s st -> holds key subkey s st'.

Lemma retains_refl : forall st, retains st st.
Proof. intros st key subkey s H. exact H. Qed.

Lemma retains_trans : forall a b c, retains a b -> retains b c -> retains a c.
Proof. intros a b c Hab Hbc key subkey s H. apply Hbc, Hab, H. Qed.

Lemma retains_same : forall st st', metadata st' = metadata st -> retains st st'.
Proof. intros st st' Hm key subkey s H. unfold holds. rewrite Hm. exact H. Qed.

(** a field that holds no dictionary can be set to anything *)
Lemma retains_set : forall key v st,
    (forall d, Dict.get key (metadata st) <> Some (VDict d)) ->
    retains st (set_metadata (Dict.set key v (metadata st)) st).
Proof.
intros key v st Hno k subkey s [d [x [Hd Hx]]].
exists d, x. split; [| exact Hx]. simpl.
destruct (String.eqb_spec k key) as [->|Hne].
- contradiction (Hno d Hd).
- rewrite DictFacts.get_set_other by exact Hne. exact Hd.
Qed.

(** an entry of a dictionary can be replaced by one that holds what it
    held *)
Lemma retains_set_subkey : forall key d subkey v st,
    Dict.get key (metadata st) = Some (VDict d) ->
    (forall x s, Dict.get subkey d = Some x -> held x s -> held v s) ->
    retains st (set_metadata (Dict.set key (VDict (Dict.set subkey v d)) (metadata st)) st).
Proof.
intros key d subkey v st Hd Hv k j s [d' [x [Hd' [Hx Hheld]]]]. unfold holds. simpl.
destruct (String.eqb_spec k key) as [->|Hne].
- rewrite Hd in Hd'. injection Hd' as <-.
  rewrite DictFacts.get_set_same. exists (Dict.set subkey v d).
  destruct (String.eqb_spec j subkey) as [->|Hj].
  + exists v. rewrite DictFacts.get_set_same. split; [reflexivity |].
    split; [reflexivity |]. eapply Hv; eassumption.
  + exists x. rewrite DictFacts.get_set_other by exact Hj.
    split; [reflexivity |]. split; assumption.
- exists d', x. rewrite DictFacts.get_set_other by exact Hne.
  split; [exact Hd' |]. split; assumption.
Qed.

Lemma retains_append_unique : forall key v always,
    relates retains (append_unique key v always).
Proof.
intros key v always st. unfold append_unique, bind, setdefault.
destruct (Dict.get key (metadata st)) as [obj|] eqn:Hget.
- assert (Hwanted : forall (wanted : bool),
             match when wanted (append_to key obj v) st with
             | Ret _ st' | Raise _ st' => retains st st'
             | OutOfFuel => True
             end).
  { intros [|]; simpl; [| apply retains_refl].
    unfold append_to. destruct obj; try apply retains_refl.
    unfold modify. apply retains_set. intros d. rewrite Hget. discriminate. }
  destruct always; [apply Hwanted |].
  unfold py_in, ret, raise.
  destruct obj; try destruct v; try apply retains_refl; apply Hwanted.
- set (st1 := set_metadata (Dict.set key (VList []) (metadata st)) st).
  assert (H1 : retains st st1).
  { apply retains_set. intros d. rewrite Hget. discriminate. }
  assert (H2 : retains st1 (set_metadata (Dict.set key (VList [v]) (metadata st1)) st1)).
  { apply retains_set. intros d. unfold st1. simpl.
    rewrite DictFacts.get_set_same. discriminate. }
  destruct always; simpl; eapply retains_trans; eassumption.
Qed.

Section RetainsEntry.

Variable convert_to_unicode : value -> option string.

Lemma retains_merge_entry : forall key subkey subvalue,
    relates retains (merge_entry convert_to_unicode key subkey subvalue).
Proof.
intros key subkey subvalue st. unfold merge_entry, convert.
destruct (convert_to_unicode (VStr subkey)) as [k|]; [| apply retains_refl].
rewrite bind_ret.
destruct (convert_to_unicode (VStr subvalue)) as [s|]; [| apply retains_refl].
rewrite bind_ret. unfold bind, setdefault.
destruct (Dict.get key (metadata st)) as [obj|] eqn:Hget.
- destruct obj as [| t | n | l | d]; try apply retains_refl.
  destruct (Dict.get k d) as [existing|] eqn:Hk.
  + destruct existing as [| t | n | l | e];
      match goal with |- context [when ?b _] => destruct b end;
      try apply retains_refl; unfold when, store_subkey, modify;
        (apply retains_set_subkey; [exact Hget |]);
        intros x u Hx Hheld; rewrite Hk in Hx; injection Hx as <-;
          destruct Hheld as [Hu|[l' [Hl' Hin]]]; try discriminate.
    * injection Hu as <-. right. eexists. split; [reflexivity | left; reflexivity].
    * injection Hl' as <-. right. eexists. split; [reflexivity |].
      apply in_or_app. left. exact Hin.
  + unfold store_subkey, modify. apply retains_set_subkey; [exact Hget |].
    intros x u Hx. rewrite Hk in Hx. discriminate.
- set (st1 := set_metadata (Dict.set key (VDict []) (metadata st)) st).
  simpl. unfold store_subkey, modify.
  eapply retains_trans with (b := st1).
  + apply retains_set. intros d. rewrite Hget. discriminate.
  + apply (retains_set_subkey key [] k (VStr s) st1).
    * unfold st1. simpl. apply DictFacts.get_set_same.
    * intros x u Hx. discriminate.
Qed.

End RetainsEntry.

Section RetainsCascade.

Variable convert_to_unicode : value -> option string.
Variable level_char : Z -> string.

Variable self : intake.
Hypothesis Hself : forall k v, relates retains (self k v).

Lemma retains_log_record : forall level message exc,
    relates retains (log_record level_char self level message exc).
Proof.
intros level message exc. unfold log_record.
apply (relates_bind _ retains_trans).
{ apply relates_modify. intros st. apply retains_same. reflexivity. }
intros _. apply (relates_bind _ retains_trans);
  [apply (relates_gets _ retains_refl) | intros attached].
apply (relates_bind _ retains_trans);
  [apply (relates_gets _ retains_refl) | intros threshold].
apply (relates_when _ retains_refl). intros _. unfold emit.
destruct (WARNING <? level)%Z.
- apply relates_modify. intros st. apply retains_same. reflexivity.
- destruct ((INFO <=? level) && (level <=? WARNING))%Z;
    [apply Hself | apply (relates_ret _ retains_refl)].
Qed.

Ltac retains_step :=
  rel_step retains_refl retains_trans
           ltac:(apply retains_log_record) ltac:(apply Hself).

Lemma retains_derive_url : forall key value,
    relates retains (derive_url level_char self key value).
Proof. intros key value. unfold derive_url. repeat retains_step. Qed.

Lemma retains_derive_listofstrings : forall key value,
    relates retains (derive_listofstrings level_char self key value).
Proof.
intros key value. unfold derive_listofstrings.
repeat first [apply retains_derive_url | retains_step].
Qed.

Lemma retains_check_port : forall key values,
    relates retains (check_port level_char self key values).
Proof. intros key values. unfold check_port. repeat retains_step. Qed.

Lemma retains_derive_listofstringtuples : forall key values,
    relates retains (derive_listofstringtuples level_char self key values).
Proof.
intros key values. unfold derive_listofstringtuples.
apply (relates_bind _ retains_trans).
- destruct (subfield_map key) as [subfields|]; [| apply (relates_ret _ retains_refl)].
  apply (relates_bind _ retains_trans).
  + apply (relates_for_each _ retains_refl retains_trans).
    intros [sf v] _. apply (relates_when _ retains_refl). intros _. apply Hself.
  + intros _. repeat retains_step.
- intros _. repeat first [apply retains_check_port | retains_step].
Qed.

Lemma retains_body : forall key value,
    relates retains (add_metadata_body convert_to_unicode level_char self key value).
Proof.
intros key value. unfold add_metadata_body.
apply (relates_bind _ retains_trans);
  [apply (relates_pure _ retains_refl), pure_convert | intros keyu].
apply (relates_bind _ retains_trans);
  [apply (relates_pure _ retains_refl), pure_no_values | intros skip].
destruct skip; [unfold log_warn; apply retains_log_record |].
apply (relates_bind _ retains_trans); [apply (relates_gets _ retains_refl) | intros known].
destruct known as [fieldtype|]; [| apply (relates_raise _ retains_refl)].
apply (relates_try _ retains_trans);
  [| intros e; unfold log_exception; apply retains_log_record].
apply (relates_bind _ retains_trans);
  [| intros _; apply (relates_bind _ retains_trans); [| intros _]];
  apply (relates_when _ retains_refl); intros _.
- unfold _add_metatadata_listofstrings.
  destruct (negb (truthy value)); [unfold log_info; apply retains_log_record |].
  apply (relates_bind _ retains_trans);
    [apply (relates_pure _ retains_refl), pure_convert | intros s].
  apply (relates_bind _ retains_trans); [apply retains_append_unique | intros _].
  apply retains_derive_listofstrings.
- unfold _add_metadata_listofstringtuples.
  apply (relates_bind _ retains_trans);
    [apply (relates_pure _ retains_refl), pure_pad_values | intros padded].
  apply (relates_bind _ retains_trans);
    [apply (relates_pure _ retains_refl), pure_iter | intros items].
  apply (relates_bind _ retains_trans);
    [apply (relates_pure _ retains_refl), pure_convert_all | intros vs].
  apply (relates_bind _ retains_trans); [apply retains_append_unique | intros _].
  apply retains_derive_listofstringtuples.
- unfold _add_metadata_dictofstrings.
  destruct value; try apply (relates_raise _ retains_refl).
  apply (relates_for_each _ retains_refl retains_trans). intros [subkey subvalue] _.
  destruct subvalue; try apply retains_merge_entry;
    (apply (relates_bind _ retains_trans);
     [apply (relates_pure _ retains_refl), pure_type_of_subscript
     | intros t; unfold log_warn; apply retains_log_record]).
Qed.

End RetainsCascade.

Section DictKept.

Variable convert_to_unicode : value -> option string.
Variable level_char : Z -> string.

Lemma retains_rec : forall n key value,
    relates retains (add_metadata_rec convert_to_unicode level_char n key value).
Proof.
induction n as [|n IH]; intros key value.
- intros st. exact I.
- apply retains_body. exact IH.
Qed.

(** X14.  Nothing reported under a key of a dictionary is lost.  A
    string that is under a key of the dictionary of a field, alone or in
    a list, is under that key after any report, whatever the field and
    the value reported and whether the report returns or raises: an entry
    of a dictionary is only ever turned into a list that has the former
    value, or extended. *)
Theorem dictionary_values_kept : forall key value st st' field subkey s,
    final (add_metadata convert_to_unicode level_char key value st) = Some st' ->
    holds field subkey s st ->
    holds field subkey s st'.
Proof.
intros key value st st' field subkey s Hfinal Hholds.
pose proof (retains_rec cascade_depth key value st) as R.
fold (add_metadata convert_to_unicode level_char) in R.
destruct (add_metadata convert_to_unicode level_char key value st) as [[] s1|e s1|];
  try discriminate Hfinal; injection Hfinal as <-; apply R; exact Hholds.
Qed.

End DictKept.

Section DictAdded.

Variable convert_to_unicode : value -> option string.
Variable level_char : Z -> string.
Hypothesis convert_str : forall s, convert_to_unicode (VStr s) = Some s.

Let report : intake := add_metadata convert_to_unicode level_char.

(** the field [key] has no value yet, or has a dictionary *)
Definition dict_or_absent (key : string) (st : Reporter) : Prop :=
Dict.get key (metadata st) = None \/ exists d, Dict.get key (metadata st) = Some (VDict d).

Lemma merge_entry_adds : forall key k s st,
    dict_or_absent key st ->
    exists st1,
      merge_entry convert_to_unicode key k s st = Ret tt st1
      /\ (exists d1, Dict.get key (metadata st1) = Some (VDict d1))
      /\ holds key k s st1.
Proof.
intros key k s st Hst. unfold merge_entry, convert.
rewrite !convert_str, !bind_ret. unfold bind, setdefault.
assert (Hset : forall d v st0,
           held v s ->
           exists st1,
             store_subkey key d k v st0 = Ret tt st1
             /\ (exists d1, Dict.get key (metadata st1) = Some (VDict d1))
             /\ holds key k s st1).
{ intros d v st0 Hv. eexists. split; [reflexivity |]. simpl.
  rewrite DictFacts.get_set_same. split; [eexists; reflexivity |].
  exists (Dict.set k v d), v. simpl. rewrite !DictFacts.get_set_same.
  split; [reflexivity | split; [reflexivity | exact Hv]]. }
destruct Hst as [Hnone|[d Hd]].
- rewrite Hnone. simpl. apply Hset. left. reflexivity.
- rewrite Hd. destruct (Dict.get k d) as [existing|] eqn:Hk.
  + assert (Hkeep : held existing s ->
                    exists st1,
                      Ret tt st = Ret tt st1
                      /\ (exists d1, Dict.get key (metadata st1) = Some (VDict d1))
                      /\ holds key k s st1).
    { intros Hheld. exists st. split; [reflexivity |]. split; [exists d; exact Hd |].
      exists d, existing. split; [exact Hd | split; [exact Hk | exact Hheld]]. }
    destruct existing as [| t | n | l | e];
      match goal with |- context [when ?b _] => destruct b eqn:Hb end;
      simpl; try discriminate Hb;
        try (apply Hset; right; eexists; split;
             [reflexivity | first [right; left; reflexivity
                                  | apply in_or_app; right; left; reflexivity]]).
    * apply Hkeep. left. apply negb_false_iff in Hb. apply value_eqb_eq in Hb.
      symmetry. exact Hb.
    * apply Hkeep. right. exists l. split; [reflexivity |].
      apply negb_false_iff in Hb. apply existsb_value_eqb_In. exact Hb.
  + apply Hset. left. reflexivity.
Qed.

Lemma merge_entries_add : forall key es st,
    dict_or_absent key st ->
    forallb (fun kv => is_str (snd kv)) es = true ->
    exists st',
      for_each es (fun entry =>
                     let '(subkey, subvalue) := entry in
                     match subvalue with
                     | VStr s => merge_entry convert_to_unicode key subkey s
                     | _ =>
                       t <- type_of_subscript subvalue subkey ;;
                       log_warn level_char (add_metadata_rec convert_to_unicode level_char 4)
                                ("Could not add object of " ++ t
                                 ++ " to metadata under other using key " ++ subkey)
                     end) st = Ret tt st'
      /\ dict_or_absent key st'
      /\ forall k s, In (k, VStr s) es -> holds key k s st'.
Proof.
intros key es. induction es as [|[k v] es IH]; intros st Hst Hes.
- exists st. split; [reflexivity |]. split; [exact Hst |]. intros k s [].
- simpl in Hes. apply andb_true_iff in Hes. destruct Hes as [Hv Hes].
  destruct v as [| s | n | l | d]; try discriminate Hv.
  destruct (merge_entry_adds key k s st Hst) as [st1 [Hrun [Hd1 Hholds]]].
  destruct (IH st1 (or_intror Hd1) Hes) as [st' [Hrest [Hd' Hall]]].
  exists st'. split; [| split; [exact Hd' |]].
  + simpl. unfold bind at 1. rewrite Hrun. exact Hrest.
  + intros j u [E|Hin].
    * injection E as <- <-.
      assert (R : retains st1 st').
      { pose proof (relates_for_each retains retains_refl retains_trans es
                      (fun entry =>
                         let '(subkey, subvalue) := entry in
                         match subvalue with
                         | VStr s => merge_entry convert_to_unicode key subkey s
                         | _ =>
                           t <- type_of_subscript subvalue subkey ;;
                           log_warn level_char
                                    (add_metadata_rec convert_to_unicode level_char 4)
                                    ("Could not add object of " ++ t
                                     ++ " to metadata under other using key " ++ subkey)
                         end)) as F.
        assert (Hf : forall x, In x es -> relates retains
                       ((fun entry : string * value =>
                           let '(subkey, subvalue) := entry in
                           match subvalue with
                           | VStr s => merge_entry convert_to_unicode key subkey s
                           | _ =>
                             t <- type_of_subscript subvalue subkey ;;
                             log_warn level_char
                                      (add_metadata_rec convert_to_unicode level_char 4)
                                      ("Could not add object of " ++ t
                                       ++ " to metadata under other using key " ++ subkey)
                           end) x)).
        { intros [subkey subvalue] _.
          destruct subvalue; try apply retains_merge_entry;
            (apply (relates_bind _ retains_trans);
             [apply (relates_pure _ retains_refl), pure_type_of_subscript
             | intros t; unfold log_warn; apply retains_log_record;
               apply retains_rec]). }
        specialize (F Hf st1). rewrite Hrest in F. exact F. }
      apply R. exact Hholds.
    * apply Hall. exact Hin.
Qed.

Lemma empty_value_dict : forall es,
    existsb (fun kv => negb (fst kv =? "")) es = true ->
    empty_value (VDict es) = Some false.
Proof.
intros es H. unfold empty_value. simpl. f_equal.
induction es as [|[k v] es IH]; simpl in *.
- discriminate.
- destruct (negb (k =? "")); simpl in *; [reflexivity | apply IH; exact H].
Qed.

(** the three [if fieldtype == ...] of [add_metadata] for a field that
    holds a dictionary *)
Lemma body_dictofstrings : forall self key value st,
    empty_value value = Some false ->
    Dict.get key (fields st) = Some "dictofstrings" ->
    add_metadata_body convert_to_unicode level_char self key value st
    = try_except
        (ret tt ;; ret tt ;;
         _add_metadata_dictofstrings convert_to_unicode level_char self key value)
        (fun e => log_exception level_char self
                                ("Error adding metadata for key: " ++ key) e) st.
Proof.
intros self key value st Hvalue Hfield.
unfold add_metadata_body, convert.
rewrite convert_str, bind_ret, (no_values_empty value false Hvalue), bind_ret.
unfold bind at 1. unfold gets at 1. rewrite Hfield. reflexivity.
Qed.

(** X15.  A dictionary of strings reaches the dictionary of its field.
    A dictionary whose values are all strings and one of whose keys is
    not empty, reported on a field of type [dictofstrings] that has no
    value yet or has a dictionary, makes the report return, and every
    value of the dictionary is then under its key in the dictionary of
    the field, alone or in a list. *)
Theorem dictionary_values_added : forall key es st,
    Dict.get key (fields st) = Some "dictofstrings" ->
    dict_or_absent key st ->
    forallb (fun kv => is_str (snd kv)) es = true ->
    existsb (fun kv => negb (fst kv =? "")) es = true ->
    exists st',
      report key (VDict es) st = Ret tt st'
      /\ forall k s, In (k, VStr s) es -> holds key k s st'.
Proof.
intros key es st Hfield Hst Hes Hkeys.
destruct (merge_entries_add key es st Hst Hes) as [st' [Hrun [_ Hall]]].
exists st'. split; [| exact Hall].
unfold report, add_metadata, cascade_depth.
change (add_metadata_rec convert_to_unicode level_char 5)
  with (add_metadata_body convert_to_unicode level_char
          (add_metadata_rec convert_to_unicode level_char 4)).
rewrite (body_dictofstrings _ key (VDict es) st (empty_value_dict es Hkeys) Hfield).
unfold try_except. rewrite !bind_ret. unfold _add_metadata_dictofstrings.
rewrite Hrun. reflexivity.
Qed.

End DictAdded.

(** a store whose dictionary has one value *)
Definition store_d : Reporter :=
  set_metadata [("other", VDict [("campaign", VStr "a")])] (run_start fields_json).

Lemma dictionary_values_kept_witness :
  exists st',
    final (report_model "other" (VDict [("campaign", VStr "b"); ("n", VInt 3)]) store_d)
    = Some st'
    /\ holds "other" "campaign" "a" st'.
Proof.
eexists. split; [vm_compute; reflexivity |].
refine (dictionary_values_kept to_unicode_model level_char_model
          "other" (VDict [("campaign", VStr "b"); ("n", VInt 3)]) store_d _
          "other" "campaign" "a" _ _).
- vm_compute. reflexivity.
- exists [("campaign", VStr "a")], (VStr "a").
  split; [reflexivity | split; [reflexivity | left; reflexivity]].
Defined.

Lemma dictionary_values_added_witness :
  exists st',
    report_model "other" (VDict [("campaign", VStr "a"); ("campaign", VStr "b")])
                 (run_start fields_json) = Ret tt st'
    /\ holds "other" "campaign" "a" st'
    /\ holds "other" "campaign" "b" st'.
Proof.
destruct (dictionary_values_added to_unicode_model level_char_model to_unicode_model_str
            "other" [("campaign", VStr "a"); ("campaign", VStr "b")]
            (run_start fields_json))
  as [st' [Hrun Hall]].
- reflexivity.
- left. reflexivity.
- reflexivity.
- reflexivity.
- exists st'. split; [exact Hrun |]. split; apply Hall.
  + left. reflexivity.
  + right. left. reflexivity.
Defined.

(** ** The table of output files *)

(** every record of the table has the hash of its own data *)
Definition consistent (st : Reporter) : Prop :=
forall name r, Dict.get name (outputfiles st) = Some r -> of_md5 r = Hashlib.md5 (of_data r).

Lemma consistent_kept : forall st st', kept st st' -> consistent st -> consistent st'.
Proof.
intros st st' [[_ Hget] _] H name r Hr.
specialize (Hget name). rewrite Hr in Hget. simpl in Hget. symmetry in Hget.
destruct (unpath_get _ _ _ _ _ Hget) as [r0 [Hr0 [Hd [_ Hm]]]].
rewrite <- Hm, <- Hd. apply (H name r0 Hr0).
Qed.

Lemma consistent_entered : forall data description name st,
    consistent st ->
    consistent (set_outputfiles
                  (entered data description (Hashlib.md5 data) name (outputfiles st)) st).
Proof.
intros data description name st H other r. simpl. unfold entered.
destruct (String.eqb_spec other name) as [->|Hne].
- rewrite DictFacts.get_set_same. intros E. injection E as <-. reflexivity.
- rewrite DictFacts.get_set_other by exact Hne. apply H.
Qed.

Lemma consistent_start : forall flds, consistent (run_start flds).
Proof. intros flds name r H. discriminate H. Qed.

Section TableKept.

Variable convert_to_unicode : value -> option string.
Variable level_char : Z -> string.
Hypothesis convert_str : forall s, convert_to_unicode (VStr s) = Some s.

Let report : intake := add_metadata convert_to_unicode level_char.

Lemma consistent_log : forall level message exc st,
    consistent st ->
    match log_record level_char report level message exc st with
    | Ret _ st' | Raise _ st' => consistent st'
    | OutOfFuel => False
    end.
Proof.
intros level message exc st H.
pose proof (ends_report_log convert_to_unicode level_char convert_str level message exc st)
  as E.
unfold report.
destruct (log_record level_char (add_metadata convert_to_unicode level_char) level message
                     exc st); try exact E; eapply consistent_kept; eassumption.
Qed.

Lemma consistent_output_file : forall data filename description st st',
    consistent st ->
    final (output_file convert_to_unicode level_char data filename description st) = Some st' ->
    consistent st'.
Proof.
intros data filename description st st' H Hfinal.
unfold output_file, bind in Hfinal. rewrite rename_loop_resolve in Hfinal.
destruct (resolve 32 (outputfiles st) filename (Hashlib.md5 data) filename 5) as [name|name| |].
- rewrite save_output_unfold in Hfinal. unfold bind at 1 in Hfinal.
  assert (Hlog : match when (negb (filename =? name))
                            (log_info level_char report
                                      ("Renamed " ++ filename ++ " to " ++ name)) st with
                 | Ret _ s | Raise _ s => consistent s
                 | OutOfFuel => False
                 end).
  { destruct (negb (filename =? name)); [apply consistent_log; exact H | exact H]. }
  unfold report in Hlog.
  destruct (when (negb (filename =? name)) _ st) as [[] s1|e s1|];
    [| injection Hfinal as <-; exact Hlog | contradiction].
  unfold bind at 1 in Hfinal. unfold modify at 1 in Hfinal.
  pose proof (ends_after_entry convert_to_unicode level_char convert_str data description
                (Hashlib.md5 data) name
                (set_outputfiles
                   (entered data description (Hashlib.md5 data) name (outputfiles s1)) s1))
    as E.
  pose proof (consistent_entered data description name s1 Hlog) as H2.
  destruct (after_entry convert_to_unicode level_char data description (Hashlib.md5 data)
                        name _) as [v s3|e s3|];
    [| | contradiction]; injection Hfinal as <-; eapply consistent_kept; eassumption.
- unfold log_info, bind in Hfinal.
  pose proof (consistent_log INFO ("Ignoring duplicate output file: " ++ name) None st H)
    as Hlog.
  unfold report in Hlog.
  destruct (log_record level_char _ INFO _ None st) as [[] s1|e s1|];
    [| | contradiction]; injection Hfinal as <-; exact Hlog.
- injection Hfinal as <-. exact H.
- discriminate Hfinal.
Qed.

(** X16.  Every record of the table of output files has the hash of its
    own data, whatever is done with the reporter: the property holds at
    the start of a run, and a call of [output_file], of [report_tempfile]
    or of [add_metadata] that ends, by returning or by raising, keeps
    it. *)
Theorem table_consistent : forall st st',
    consistent st ->
    (exists data filename description,
        final (output_file convert_to_unicode level_char data filename description st)
        = Some st')
    \/ (exists filename description,
           final (report_tempfile convert_to_unicode level_char filename description st)
           = Some st')
    \/ (exists key value, final (report key value st) = Some st') ->
    consistent st'.
Proof.
intros st st' H [[data [filename [description Hf]]]
                |[[filename [description Hf]]|[key [value Hf]]]].
- eapply consistent_output_file; eassumption.
- unfold report_tempfile, bind, gets in Hf.
  destruct (Dict.get filename (disk st)) as [data|].
  + eapply consistent_output_file; eassumption.
  + unfold log_info in Hf.
    pose proof (consistent_log INFO
                  ("Could not output file because it could not be found: " ++ filename)
                  None st H) as Hlog.
    unfold report in Hlog.
    destruct (log_record level_char _ INFO _ None st) as [[] s1|e s1|];
      [| | contradiction]; injection Hf as <-; exact Hlog.
- pose proof (ends_report convert_to_unicode level_char convert_str key value st) as E.
  unfold report in Hf.
  destruct (add_metadata convert_to_unicode level_char key value st) as [[] s1|e s1|];
    try discriminate Hf; injection Hf as <-; eapply consistent_kept; eassumption.
Qed.

End TableKept.

(** a store with one file on disk *)
Definition store_e : Reporter :=
  set_disk [("/tmp/a.bin", "abc")] (run_start fields_json).

Lemma table_consistent_witness :
  exists st',
    final (report_tempfile to_unicode_model level_char_model "/tmp/a.bin" "dropped" store_e)
    = Some st'
    /\ consistent st'
    /\ Dict.keys (outputfiles st') = ["a.bin"].
Proof.
eexists. split; [vm_compute; reflexivity |]. split; [| vm_compute; reflexivity].
refine (table_consistent to_unicode_model level_char_model to_unicode_model_str
          store_e _ _ _).
- intros name r H. discriminate H.
- right. left. exists "/tmp/a.bin", "dropped". vm_compute. reflexivity.
Defined.

(** ** What [output_file] writes *)

(** the path that [output_file] writes a file of name [basename] to;
    [None] when the prefix is the hash of an input file that is not
    there *)
Definition path_of (prefix dir : string) (input : option string) (basename : string)
  : option string :=
if negb (prefix =? "") then
  if prefix =? "md5" then
    match input with
    | Some input_md5 => Some (Posixpath.join dir (input_md5 ++ "_" ++ basename))
    | None => None
    end
  else Some (Posixpath.join dir (prefix ++ "_" ++ basename))
else Some (Posixpath.join dir basename).

Definition output_path (st : Reporter) (basename : string) : option string :=
path_of (output_file_prefix st) (output_dir st) (input_file st) basename.

(** the row of [outputfile] for a file *)
Definition outputfile_row (st : Reporter) (data filename description : string) : list string :=
if base64_output_files st
then [Posixpath.basename filename; description; Hashlib.md5 data; Base64.b64encode data]
else [Posixpath.basename filename; description; Hashlib.md5 data].

Lemma framed_config : forall (W : string -> Prop) st st',
    framed W st st' ->
    fields st' = fields st /\ outputfiles st' = outputfiles st
    /\ input_file st' = input_file st /\ output_dir st' = output_dir st
    /\ output_file_prefix st' = output_file_prefix st
    /\ disable_output_files st' = disable_output_files st
    /\ base64_output_files st' = base64_output_files st
    /\ disk st' = disk st /\ read_only st' = read_only st.
Proof.
intros W st st' H. pose proof (fr_config H) as C. unfold config in C.
injection C. intros. repeat split; assumption.
Qed.

Section OutputWritten.

Variable convert_to_unicode : value -> option string.
Variable level_char : Z -> string.
Hypothesis convert_str : forall s, convert_to_unicode (VStr s) = Some s.

Let report : intake := add_metadata convert_to_unicode level_char.

Lemma path_run : forall prefix dir basename fullpath st,
    path_of prefix dir (input_file st) basename = Some fullpath ->
    (if negb (prefix =? "") then
       if prefix =? "md5" then
         input <- gets input_file ;;
         match input with
         | Some input_md5 => ret (Posixpath.join dir (input_md5 ++ "_" ++ basename))
         | None => raise (AttributeError "'NoneType' object has no attribute 'md5'")
         end
       else ret (Posixpath.join dir (prefix ++ "_" ++ basename))
     else ret (Posixpath.join dir basename)) st
    = Ret fullpath st.
Proof.
intros prefix dir basename fullpath st H. unfold path_of in H.
destruct (negb (prefix =? "")).
- destruct (prefix =? "md5").
  + unfold bind, gets. destruct (input_file st); [| discriminate H].
    injection H as <-. reflexivity.
  + injection H as <-. reflexivity.
- injection H as <-. reflexivity.
Qed.

(** a call on the logger is in the log *)
Lemma log_record_logged : forall level message exc st st',
    final (log_record level_char report level message exc st) = Some st' ->
    In (level, message) (logged st').
Proof.
intros level message exc st st' H.
unfold log_record, bind, modify, gets, when, ret in H. cbv beta iota in H.
set (s1 := set_logged (logged st ++ [(level, message)]) st) in *.
assert (H1 : In (level, message) (logged s1)).
{ unfold s1. simpl. apply in_or_app. right. left. reflexivity. }
destruct (log_handler s1 && (log_level s1 <=? level)%Z);
  [| injection H as <-; exact H1].
unfold emit, ret in H.
destruct (WARNING <? level)%Z.
- unfold modify in H. simpl in H. injection H as <-. exact H1.
- destruct ((INFO <=? level) && (level <=? WARNING))%Z.
  + pose proof (add_metadata_sat convert_to_unicode level_char convert_str "debug"
                  (VStr (format_record level_char level message exc)) s1) as S.
    unfold report in H.
    destruct (add_metadata convert_to_unicode level_char "debug" _ s1) as [[] s2|e s2|];
      try discriminate H; injection H as <-;
        destruct (fr_logged S) as [extra ->]; apply in_or_app; left; exact H1.
  + injection H as <-. exact H1.
Qed.

Lemma write_file_run : forall fullpath data st,
    write_file fullpath data st
    = if existsb (String.eqb fullpath) (read_only st)
      then Raise (OSError ("[Errno 13] Permission denied: " ++ repr_str fullpath)) st
      else Ret tt (set_disk (Dict.set fullpath data (disk st)) st).
Proof.
intros fullpath data st. unfold write_file, bind, gets.
destruct (existsb (String.eqb fullpath) (read_only st)); reflexivity.
Qed.

(** the [try] block of [output_file] *)
Lemma write_block : forall data filename fullpath st r,
    Dict.mem "debug" (fields st) = true ->
    Dict.get filename (outputfiles st) = Some r ->
    exists st',
      try_except
        (write_file fullpath data ;;
         log_info level_char report ("Output file: " ++ fullpath) ;;
         set_path filename fullpath)
        (fun e => log_error level_char report
                            ("Failed to write output file: " ++ fullpath ++ ", "
                             ++ exn_str e)) st = Ret tt st'
      /\ grows (metadata st) (metadata st')
      /\ if existsb (String.eqb fullpath) (read_only st)
         then disk st' = disk st
              /\ outputfiles st' = outputfiles st
              /\ exists reason,
                  In (ERROR, "Failed to write output file: " ++ fullpath ++ ", " ++ reason)
                     (logged st')
         else disk st' = Dict.set fullpath data (disk st)
              /\ outputfiles st'
                 = Dict.set filename
                            (mkOutputFile (of_data r) (of_description r) (of_md5 r)
                                          (Some fullpath))
                            (outputfiles st).
Proof.
intros data filename fullpath st r Hdebug Hr.
unfold try_except. unfold bind at 1. rewrite write_file_run.
destruct (existsb (String.eqb fullpath) (read_only st)) eqn:Hro; cbv beta iota.
- unfold log_error.
  destruct (log_returns convert_to_unicode level_char convert_str ERROR
              ("Failed to write output file: " ++ fullpath ++ ", "
               ++ exn_str (OSError ("[Errno 13] Permission denied: " ++ repr_str fullpath)))
              None st Hdebug) as [st' [Hrun Hfr]].
  exists st'. unfold report. split; [exact Hrun |].
  split; [exact (fr_grows Hfr) |].
  destruct (framed_config _ _ _ Hfr) as [_ [Hfiles [_ [_ [_ [_ [_ [Hdisk _]]]]]]]].
  split; [exact Hdisk | split; [exact Hfiles |]].
  eexists. apply (log_record_logged ERROR _ None st st'). unfold report. rewrite Hrun.
  reflexivity.
- set (s1 := set_disk (Dict.set fullpath data (disk st)) st).
  unfold bind at 1. unfold log_info.
  destruct (log_returns convert_to_unicode level_char convert_str INFO
              ("Output file: " ++ fullpath) None s1 Hdebug) as [s2 [Hrun Hfr]].
  unfold report. rewrite Hrun.
  destruct (framed_config _ _ _ Hfr) as [_ [Hfiles [_ [_ [_ [_ [_ [Hdisk _]]]]]]]].
  unfold set_path, bind, gets. rewrite Hfiles.
  change (outputfiles s1) with (outputfiles st). rewrite Hr. unfold modify.
  eexists. split; [reflexivity |].
  split; [exact (fr_grows Hfr) |]. split; [exact Hdisk | reflexivity].
Qed.

(** what the functions between the entry in the table and the writing
    of the file do *)
Lemma output_file_entered : forall data filename description l st,
    Dict.mem "debug" (fields st) = true ->
    Dict.get "outputfile" (fields st) = Some "listofstringtuples" ->
    entries "outputfile" st = Some l ->
    Dict.get filename (outputfiles st) = None ->
    exists s2,
      output_file convert_to_unicode level_char data filename description st
      = (disabled <- gets disable_output_files ;;
         if disabled then ret VNone
         else
           prefix <- gets output_file_prefix ;;
           dir <- gets output_dir ;;
           fullpath <-
             (if negb (prefix =? "") then
                if prefix =? "md5" then
                  input <- gets input_file ;;
                  match input with
                  | Some input_md5 =>
                    ret (Posixpath.join dir (input_md5 ++ "_" ++ Posixpath.basename filename))
                  | None => raise (AttributeError "'NoneType' object has no attribute 'md5'")
                  end
                else ret (Posixpath.join dir (prefix ++ "_" ++ Posixpath.basename filename))
              else ret (Posixpath.join dir (Posixpath.basename filename))) ;;
           try_except
             (write_file fullpath data ;;
              log_info level_char report ("Output file: " ++ fullpath) ;;
              set_path filename fullpath)
             (fun e =>
                log_error level_char report
                          ("Failed to write output file: " ++ fullpath ++ ", " ++ exn_str e)) ;;
           ret VNone) s2
      /\ framed (writes "outputfile")
                (set_outputfiles
                   (entered data description (Hashlib.md5 data) filename (outputfiles st)) st)
                s2
      /\ has "outputfile" (strs (outputfile_row st data filename description)) s2.
Proof.
intros data filename description l st Hdebug Hfield Hl Habsent.
set (s1 := set_outputfiles
             (entered data description (Hashlib.md5 data) filename (outputfiles st)) st).
assert (Hsome : forall more,
           some_text (Posixpath.basename filename :: description
                                         :: Hashlib.md5 data :: more) = true).
{ intros more. unfold some_text. simpl.
  pose proof (md5_nonempty data) as Hmd5. apply String.eqb_neq in Hmd5. rewrite Hmd5.
  simpl. rewrite !orb_true_r. reflexivity. }
assert (Hrow : some_text (outputfile_row st data filename description) = true).
{ unfold outputfile_row. destruct (base64_output_files st); apply Hsome. }
destruct (report_tuple_entry convert_to_unicode level_char convert_str "outputfile"
            (outputfile_row st data filename description) s1 l)
  as [s2 [Hrun [Hentries Hfr]]]; try assumption; [discriminate |].
exists s2. split; [| split; [exact Hfr |]].
- unfold output_file. unfold bind at 1. rewrite rename_loop_resolve.
  change 32 with (S 31). cbn [resolve]. rewrite Habsent.
  rewrite save_output_unfold. rewrite String.eqb_refl. simpl negb. unfold when.
  rewrite bind_ret. unfold bind at 1. unfold modify at 1. fold s1.
  unfold after_entry. unfold bind at 1. unfold gets at 1.
  change (base64_output_files s1) with (base64_output_files st).
  unfold bind at 1.
  assert (E : (if base64_output_files st
               then add_metadata convert_to_unicode level_char "outputfile"
                      (strs [Posixpath.basename filename; description; Hashlib.md5 data;
                             Base64.b64encode data])
               else add_metadata convert_to_unicode level_char "outputfile"
                      (strs [Posixpath.basename filename; description; Hashlib.md5 data])) s1
              = Ret tt s2).
  { rewrite <- Hrun. unfold outputfile_row. destruct (base64_output_files st); reflexivity. }
  rewrite E. reflexivity.
- apply (has_entries "outputfile" _ s2 _ Hentries).
  change (padded "outputfile" (outputfile_row st data filename description))
    with (outputfile_row st data filename description).
  apply in_add_unique.
Qed.

(** X17.  A file reported with [output_file] under a name that is not in
    the table yet, when output files are not disabled: the call returns
    [None]; the record of the file is in the table under that name; its
    row (base name, description, hash, and the Base64 text of the data
    when that is asked for) is in the list of [outputfile]; the data are
    on disk under the output directory, the name prefixed as the reporter
    says, and the record has that path.  When the path cannot be written
    the call returns all the same: the disk is as it was, the record has
    no path, and the failure is in the log as an error. *)
Theorem output_file_written : forall data filename description fullpath l st,
    Dict.mem "debug" (fields st) = true ->
    Dict.get "outputfile" (fields st) = Some "listofstringtuples" ->
    entries "outputfile" st = Some l ->
    Dict.get filename (outputfiles st) = None ->
    disable_output_files st = false ->
    output_path st (Posixpath.basename filename) = Some fullpath ->
    let writable := negb (existsb (String.eqb fullpath) (read_only st)) in
    exists st',
      output_file convert_to_unicode level_char data filename description st = Ret VNone st'
      /\ Dict.get filename (outputfiles st')
         = Some (mkOutputFile data description (Hashlib.md5 data)
                              (if writable then Some fullpath else None))
      /\ has "outputfile" (strs (outputfile_row st data filename description)) st'
      /\ disk st' = (if writable then Dict.set fullpath data (disk st) else disk st)
      /\ (writable = false ->
          exists reason,
            In (ERROR, "Failed to write output file: " ++ fullpath ++ ", " ++ reason)
               (logged st')).
Proof.
intros data filename description fullpath l st Hdebug Hfield Hl Habsent Hdis Hpath writable.
destruct (output_file_entered data filename description l st Hdebug Hfield Hl Habsent)
  as [s2 [Hrun [Hfr Hhas]]].
rewrite Hrun. clear Hrun.
destruct (framed_config _ _ _ Hfr)
  as [Hf [Hfiles [Hin [Hdir [Hpre [Hd [_ [Hdisk Hro]]]]]]]].
simpl in Hf, Hfiles, Hin, Hdir, Hpre, Hd, Hdisk, Hro.
assert (Hr : Dict.get filename (outputfiles s2)
             = Some (mkOutputFile data description (Hashlib.md5 data) None)).
{ rewrite Hfiles. unfold entered. apply DictFacts.get_set_same. }
assert (Hdebug2 : Dict.mem "debug" (fields s2) = true) by (rewrite Hf; exact Hdebug).
destruct (write_block data filename fullpath s2 _ Hdebug2 Hr) as [st' [Hrun [Hgrow Hcase]]].
assert (Hpath2 : path_of (output_file_prefix s2) (output_dir s2) (input_file s2)
                         (Posixpath.basename filename) = Some fullpath).
{ rewrite Hpre, Hdir, Hin. exact Hpath. }
exists st'. split.
- unfold bind at 1. unfold gets at 1. rewrite Hd, Hdis.
  unfold bind at 1. unfold gets at 1. unfold bind at 1. unfold gets at 1.
  unfold bind at 1. rewrite (path_run _ _ _ _ s2 Hpath2).
  unfold bind at 1. rewrite Hrun. reflexivity.
- assert (Hhas' : has "outputfile" (strs (outputfile_row st data filename description)) st').
  { destruct Hhas as [l2 [Hget Hin2]]. destruct (Hgrow _ _ Hget) as [extra Hget'].
    exists (l2 ++ extra)%list. split; [exact Hget' | apply in_or_app; left; exact Hin2]. }
  unfold writable. rewrite <- Hro.
  destruct (existsb (String.eqb fullpath) (read_only s2)); simpl.
  + destruct Hcase as [Hdisk' [Hfiles' Hlog]].
    split; [rewrite Hfiles'; exact Hr |]. split; [exact Hhas' |].
    split; [rewrite Hdisk'; exact Hdisk |]. intros _. exact Hlog.
  + destruct Hcase as [Hdisk' Hfiles'].
    split; [rewrite Hfiles'; apply DictFacts.get_set_same |]. split; [exact Hhas' |].
    split; [rewrite Hdisk', Hdisk; reflexivity |]. intros C. discriminate C.
Qed.

End OutputWritten.

(** a reporter that writes its files under [/out], where [/out/b.bin]
    cannot be written *)
Definition store_f : Reporter :=
  mkReporter fields_json [] [] [] None "/out" "" false false false WARNING [] []
             ["/out/b.bin"].

Lemma output_file_written_witness :
  (exists st',
      output_file to_unicode_model level_char_model "abc" "a.bin" "dropped" store_f
      = Ret VNone st'
      /\ disk st' = [("/out/a.bin", "abc")])
  /\ (exists st',
         output_file to_unicode_model level_char_model "abc" "b.bin" "dropped" store_f
         = Ret VNone st'
         /\ disk st' = []).
Proof.
split.
- destruct (output_file_written to_unicode_model level_char_model to_unicode_model_str
              "abc" "a.bin" "dropped" "/out/a.bin" [] store_f)
    as [st' [Hrun [_ [_ [Hdisk _]]]]]; try reflexivity.
  exists st'. split; [exact Hrun | exact Hdisk].
- destruct (output_file_written to_unicode_model level_char_model to_unicode_model_str
              "abc" "b.bin" "dropped" "/out/b.bin" [] store_f)
    as [st' [Hrun [_ [_ [Hdisk _]]]]]; try reflexivity.
  exists st'. split; [exact Hrun | exact Hdisk].
Defined.
